(** * Xampus: conversational resolution and knowledge-gap bookkeeping

    A shallow embedding of the query service (answer classifier, text
    normalizer, similarity matcher, edit-distance similarity), the two
    knowledge-gap ledgers (QueryLog and KnowledgeGap) with their admin
    handlers and statistics, and the chat controller (sessions and their
    sweep, query rewriting, the chat itself, the vector reducer),
    followed by the properties established about them.

    Conventions.
    - A JavaScript string is a [string]: a sequence of code units, here
      the code units U+0000..U+00FF.
    - A JavaScript number that holds a count or an index is a [nat] or a
      [Z]; a similarity score (a quotient of two set sizes) is a [Q]; the
      components of an embedding vector are binary64 [float]s.
    - A value that may be [null] or [undefined] is an [option]; the two
      are not told apart (a Mongoose array tests membership with loose
      equality and stores both as null).
    - The result of an external call (chat completion, embedding, index
      query) is an argument of the function that awaits it.
    - A document model carries what its schema declares about the values
      it stores or refuses: the [trim] and [lowercase] setters, the
      [required] paths, the [unique] index, and the cast to an ObjectId
      of the identifier of an admin. *)

From Stdlib Require Import ZArith QArith Floats Uint63 String Ascii.
From stdpp Require Import base option list strings gmap.

Set Default Proof Using "Type".
Set Warnings "-clear-no-such-hyp".

(** ** JavaScript strings *)

Module Js.

Definition code (c : ascii) : nat := nat_of_ascii c.

(** The code units matched by [\s] (and removed by [trim]). *)
Definition is_space (c : ascii) : bool :=
  let n := code c in
  ((9 <=? n) && (n <=? 13)) || (n =? 32) || (n =? 160).

(** Line terminators: the code units [.] does not match. *)
Definition is_line_terminator (c : ascii) : bool :=
  let n := code c in (n =? 10) || (n =? 13).

Definition lower_char (c : ascii) : ascii :=
  let n := code c in
  if ((65 <=? n) && (n <=? 90))
     || ((192 <=? n) && (n <=? 222) && negb (n =? 215))
  then ascii_of_nat (n + 32) else c.

(** Case folding of a regular expression with the [i] flag (and no [u]
    flag): a code unit is compared by its upper-case form, and a code
    unit of 128 or more never folds to one below 128. *)
Definition canonicalize (c : ascii) : ascii :=
  let n := code c in
  if (97 <=? n) && (n <=? 122) then ascii_of_nat (n - 32)
  else if ((224 <=? n) && (n <=? 254) && negb (n =? 247))
  then ascii_of_nat (n - 32) else c.

Fixpoint toLowerCase (s : string) : string :=
  match s with
  | EmptyString => EmptyString
  | String c t => String (lower_char c) (toLowerCase t)
  end.

(** [s.split(/\s+/)]: the pieces between maximal runs of white space; a
    leading or trailing run leaves an empty first or last piece, and the
    empty string splits into one empty piece. [cur] is the piece being
    read and [in_sep] tells that the previous code unit was white space. *)
Fixpoint split_go (s : string) (cur : string) (in_sep : bool) : list string :=
  match s with
  | EmptyString => [cur]
  | String c t =>
      if is_space c
      then if in_sep then split_go t cur true
           else cur :: split_go t EmptyString true
      else split_go t (cur +:+ String c EmptyString) false
  end.

Definition split_ws (s : string) : list string := split_go s EmptyString false.

(** [s.trim()]. *)
Fixpoint trimStart (s : string) : string :=
  match s with
  | EmptyString => EmptyString
  | String c t => if is_space c then trimStart t else s
  end.

Fixpoint trimEnd (s : string) : string :=
  match s with
  | EmptyString => EmptyString
  | String c t =>
      match trimEnd t with
      | EmptyString => if is_space c then EmptyString else String c EmptyString
      | t' => String c t'
      end
  end.

Definition trim (s : string) : string := trimEnd (trimStart s).

(** [s.startsWith(sub)]. *)
Fixpoint startsWith (s sub : string) {struct sub} : bool :=
  match sub with
  | EmptyString => true
  | String a sub' =>
      match s with
      | EmptyString => false
      | String b s' => Ascii.eqb a b && startsWith s' sub'
      end
  end.

(** [s.includes(sub)]: [sub] occurs in [s] as a run of adjacent code units. *)
Fixpoint includes (s sub : string) : bool :=
  startsWith s sub
  || match s with
     | EmptyString => false
     | String _ t => includes t sub
     end.

(** A truthy string: neither null nor empty. *)
Definition truthy (v : option string) : bool :=
  match v with
  | Some s => negb (String.eqb s EmptyString)
  | None => false
  end.

(** The patterns of the answer classifier are literals joined by [.*],
    all with the [i] flag. *)
Inductive regex_item :=
  | Lit (literal : string)
  | DotStar.

Definition regex := list regex_item.

(** The rest of [s] after a case-insensitive occurrence of [literal] at
    its start. *)
Fixpoint match_literal (literal s : string) : option string :=
  match literal with
  | EmptyString => Some s
  | String a literal' =>
      match s with
      | EmptyString => None
      | String b s' =>
          if Ascii.eqb (canonicalize a) (canonicalize b)
          then match_literal literal' s' else None
      end
  end.

(** [k] holds after skipping some code units that are not line
    terminators. *)
Fixpoint dot_star (k : string -> bool) (s : string) : bool :=
  k s
  || match s with
     | EmptyString => false
     | String c t => negb (is_line_terminator c) && dot_star k t
     end.

(** The pattern matches a prefix of the text. *)
Fixpoint match_here (p : regex) : string -> bool :=
  match p with
  | [] => fun _ => true
  | Lit literal :: p' =>
      fun s =>
        match match_literal literal s with
        | Some s' => match_here p' s'
        | None => false
        end
  | DotStar :: p' => dot_star (match_here p')
  end.

(** [pattern.test(s)] for a pattern without anchors and without the [g]
    flag: the pattern matches at some position of [s]. *)
Fixpoint test (p : regex) (s : string) : bool :=
  match_here p s
  || match s with
     | EmptyString => false
     | String _ t => test p t
     end.

(** The outcome of a computation that may throw. *)
Inductive JsError :=
  | ApiError (message : string)
  | TypeError (message : string)
  | ValidationError (path : string)
  | DuplicateKeyError (key : string).

Inductive result (A : Type) :=
  | Ok (value : A)
  | Throw (error : JsError).

Arguments Ok {A} value.
Arguments Throw {A} error.

Definition bind {A B} (m : result A) (k : A -> result B) : result B :=
  match m with
  | Ok a => k a
  | Throw e => Throw e
  end.

Definition try_catch {A} (body : result A) (handler : JsError -> result A) : result A :=
  match body with
  | Ok a => Ok a
  | Throw e => handler e
  end.

(** [array.map(f)] for a callback that may throw: the elements are
    visited in order and the first throw ends the call. *)
Fixpoint traverse {A B} (f : A -> result B) (l : list A) : result (list B) :=
  match l with
  | [] => Ok []
  | x :: rest =>
      bind (f x) (fun y => bind (traverse f rest) (fun ys => Ok (y :: ys)))
  end.

End Js.

Notation "'let!' x ':=' m 'in' k" := (Js.bind m (fun x => k))
  (at level 10, x name, m at level 100, k at level 200).
Notation "'let!' ' p ':=' m 'in' k" := (Js.bind m (fun p => k))
  (at level 10, p strict pattern, m at level 100, k at level 200).

(** ** services/queryService.js

    The repository holds two versions of this service; they differ in
    the prompt of the normalizer and in the default threshold of
    [findSimilarQuery] (0.6 and 0.7), not in the functions below. *)

Module QueryService.

(** The words of [calculateStringSimilarity]: lower-case, split on white
    space, keep the pieces longer than two code units. *)
Definition tokens (s : string) : list string :=
  List.filter (fun word => 2 <? String.length word)%nat (Js.split_ws (Js.toLowerCase s)).

Definition words (s : string) : gset string := list_to_set (tokens s).

Definition calculateStringSimilarity (str1 str2 : string) : Q :=
  let words1 := words str1 in
  let words2 := words str2 in
  if (size words1 =? 0)%nat && (size words2 =? 0)%nat then 1%Q
  else
    let intersection := filter (fun word => word ∈ words2) words1 in
    let union := words1 ∪ words2 in
    (Z.of_nat (size intersection) # Pos.of_nat (size union))%Q.

(** [const unansweredPatterns = [...]], in the order of the source. *)
Definition unansweredPatterns : list Js.regex :=
  let lit := Js.Lit in
  let any := Js.DotStar in
  [ [lit "I can't help"; any; lit "contact"; any; lit "staff"];
    [lit "I don't have"; any; lit "information"];
    [lit "I'm not sure"; any; lit "about"];
    [lit "I cannot provide"; any; lit "information"];
    [lit "I don't have access"; any; lit "to"];
    [lit "I'm unable to"; any; lit "help"];
    [lit "I can't assist"; any; lit "with"];
    [lit "I don't have"; any; lit "specific"; any; lit "details"];
    [lit "contact"; any; lit "staff"; any; lit "locally"];
    [lit "student_help@jssaten.ac.in"];
    [lit "I cannot answer"; any; lit "without"];
    [lit "I'm not equipped"; any; lit "to"];
    [lit "I lack"; any; lit "information"];
    [lit "I'm sorry"; any; lit "I don't know"] ].

Definition isUnansweredResponse (responseText : string) : bool :=
  existsb (fun pattern => Js.test pattern responseText) unansweredPatterns.

(** [normalizedQuestion.replace(/^["']|["']$/g, '')]: one quotation mark
    is removed at the start and one at the end, where present. *)
Definition is_quote (c : ascii) : bool :=
  (Js.code c =? 34)%nat || (Js.code c =? 39)%nat.

Definition strip_leading_quote (s : string) : string :=
  match s with
  | String c t => if is_quote c then t else s
  | EmptyString => EmptyString
  end.

Fixpoint strip_trailing_quote (s : string) : string :=
  match s with
  | EmptyString => EmptyString
  | String c EmptyString => if is_quote c then EmptyString else s
  | String c t => String c (strip_trailing_quote t)
  end.

Definition strip_quotes (s : string) : string :=
  strip_trailing_quote (strip_leading_quote s).

(** [normalizeQuery(originalQuestion, existingQueries)]. [completion] is
    the outcome of [openai.chat.completions.create]: it throws, or it
    returns a response whose [choices[0].message.content] is a string or
    is missing. The existing queries only shape the prompt. *)
Definition normalizeQuery (completion : Js.result (option string))
    (originalQuestion : string) : Js.result string :=
  Js.try_catch
    (let! response := completion in
     let! content := match response with
                     | Some text => Js.Ok text
                     | None => Js.Throw (Js.TypeError "Cannot read properties of null")
                     end in
     let normalizedQuestion := Js.trim content in
     Js.Ok (strip_quotes normalizedQuestion))
    (fun error => Js.Ok originalQuestion).

(** What [findSimilarQuery] reads of a candidate. *)
Class HasNormalizedQuestion (A : Type) := normalizedQuestionOf : A -> string.

Definition Qltb (x y : Q) : bool := negb (Qle_bool y x).

Section FindSimilar.
Context {A : Type} `{HasNormalizedQuestion A}.

Definition similarityTo (normalizedQuestion : string) (query : A) : Q :=
  calculateStringSimilarity (Js.toLowerCase normalizedQuestion)
                            (Js.toLowerCase (normalizedQuestionOf query)).

(** The [for ... of] loop, with its two variables as accumulators. *)
Fixpoint findSimilarLoop (normalizedQuestion : string) (threshold : Q)
    (existingQueries : list A) (mostSimilar : option A) (highestSimilarity : Q)
    : option A :=
  match existingQueries with
  | [] => mostSimilar
  | query :: rest =>
      let similarity := similarityTo normalizedQuestion query in
      if Qltb highestSimilarity similarity && Qle_bool threshold similarity
      then findSimilarLoop normalizedQuestion threshold rest (Some query) similarity
      else findSimilarLoop normalizedQuestion threshold rest mostSimilar highestSimilarity
  end.

Definition findSimilarQuery (normalizedQuestion : string)
    (existingQueries : list A) (threshold : Q) : option A :=
  match existingQueries with
  | [] => None
  | _ => findSimilarLoop normalizedQuestion threshold existingQueries None 0%Q
  end.

End FindSimilar.

(** [calculateEditDistanceSimilarity(str1, str2)]. The matrix is a list
    of rows; the loops write only cells inside it. *)
Definition cell (matrix : list (list nat)) (i j : nat) : nat :=
  match matrix !! i with
  | Some row => default 0%nat (row !! j)
  | None => 0%nat
  end.

Definition setCell (matrix : list (list nat)) (i j value : nat) : list (list nat) :=
  match matrix !! i with
  | Some row => <[i := <[j := value]> row]> matrix
  | None => matrix
  end.

(** [str1[i - 1] === str2[j - 1] ? 0 : 1]. *)
Definition substitutionCost (str1 str2 : string) (i j : nat) : nat :=
  if bool_decide (String.get (i - 1) str1 = String.get (j - 1) str2) then 0%nat else 1%nat.

Definition editMatrix (str1 str2 : string) : list (list nat) :=
  let len1 := String.length str1 in
  let len2 := String.length str2 in
  let matrix := replicate (len1 + 1) (replicate (len2 + 1) 0%nat) in
  let matrix := fold_left (fun matrix i => setCell matrix i 0 i) (seq 0 (len1 + 1)) matrix in
  let matrix := fold_left (fun matrix j => setCell matrix 0 j j) (seq 0 (len2 + 1)) matrix in
  fold_left
    (fun matrix i =>
       fold_left
         (fun matrix j =>
            let cost := substitutionCost str1 str2 i j in
            setCell matrix i j
              (Nat.min (Nat.min (cell matrix (i - 1) j + 1) (cell matrix i (j - 1) + 1))
                       (cell matrix (i - 1) (j - 1) + cost)))
         (seq 1 len2) matrix)
    (seq 1 len1) matrix.

Definition editDistance (str1 str2 : string) : nat :=
  cell (editMatrix str1 str2) (String.length str1) (String.length str2).

Definition calculateEditDistanceSimilarity (str1 str2 : string) : Q :=
  let maxLength := Nat.max (String.length str1) (String.length str2) in
  if (maxLength =? 0)%nat then 1%Q
  else ((Z.of_nat maxLength - Z.of_nat (editDistance str1 str2)) # Pos.of_nat maxLength)%Q.

End QueryService.

Import QueryService.

(** ** models/QueryLog.js *)

Module QueryLogModel.

Inductive AnswerSource := ai | human | none.

Record Occurrence := mkOccurrence {
  question : string;
  askedAt : Z
}.

Record QueryLog := mkQueryLog {
  _id : nat;
  originalQuestion : string;
  normalizedQuestion : string;
  answered : bool;
  answerSource : AnswerSource;
  askedByUsers : list (option string);
  askCount : Z;
  originalQuestions : list Occurrence;
  createdAt : Z;
  updatedAt : Z;
  lastAskedAt : Z
}.

#[global] Instance QueryLog_normalized : HasNormalizedQuestion QueryLog :=
  normalizedQuestion.

(** The schema's setters. [originalQuestion] and [normalizedQuestion] are
    declared [trim: true], and so are the elements of [askedByUsers]: a
    value assigned to one of these paths, or pushed onto the array, is
    stored trimmed. *)
Definition castText (value : string) : string := Js.trim value.

Definition castAsker (userId : option string) : option string :=
  option_map Js.trim userId.

(** The collection: its documents in insertion order, and the identifier
    the next new document receives. *)
Record Collection := mkCollection {
  docs : list QueryLog;
  nextId : nat
}.

Definition empty : Collection := mkCollection [] 0.

Definition find (filter : QueryLog -> bool) (db : Collection) : list QueryLog :=
  List.filter filter (docs db).

Definition findById (id : nat) (db : Collection) : option QueryLog :=
  List.find (fun q => _id q =? id)%nat (docs db).

(** The schema's [required] paths: a required string is neither missing
    nor empty. *)
Definition validate (q : QueryLog) : Js.result unit :=
  if String.eqb (originalQuestion q) EmptyString
  then Js.Throw (Js.ValidationError "originalQuestion")
  else if String.eqb (normalizedQuestion q) EmptyString
  then Js.Throw (Js.ValidationError "normalizedQuestion")
  else Js.Ok tt.

(** [queryLogSchema.pre('save', ...)]. *)
Definition pre_save (now : Z) (q : QueryLog) : QueryLog :=
  mkQueryLog (_id q) (originalQuestion q) (normalizedQuestion q) (answered q)
    (answerSource q) (askedByUsers q) (askCount q) (originalQuestions q)
    (createdAt q) now (lastAskedAt q).

(** The write of [save()]: a document already in the collection is
    written back under its identifier, a new one is inserted. *)
Definition write (q : QueryLog) (db : Collection) : Collection :=
  if existsb (fun d => _id d =? _id q)%nat (docs db)
  then mkCollection (map (fun d => if (_id d =? _id q)%nat then q else d) (docs db))
                    (nextId db)
  else mkCollection (docs db ++ [q]) (Nat.max (nextId db) (S (_id q))).

(** [doc.save()]: validation, then the pre-save hook, then the write. *)
Definition save (now : Z) (q : QueryLog) (db : Collection)
    : Js.result (QueryLog * Collection) :=
  let! _ := validate q in
  let q' := pre_save now q in
  Js.Ok (q', write q' db).

Definition findByIdAndDelete (id : nat) (db : Collection) : option QueryLog * Collection :=
  (findById id db,
   mkCollection (List.filter (fun d => negb (_id d =? id)%nat) (docs db)) (nextId db)).

End QueryLogModel.

(** ** controllers/queryLogController.js *)

Module QueryLogController.
Import QueryLogModel.

(** The update of the similar entry, before [similarQuery.save()].
    [includes] compares the identifier as it was passed; [push] stores it
    through the setter. *)
Definition updateExisting (similarQuery : QueryLog) (now : Z)
    (originalQuestion : string) (userId : option string) : QueryLog :=
  mkQueryLog (_id similarQuery) (QueryLogModel.originalQuestion similarQuery)
    (normalizedQuestion similarQuery) (answered similarQuery)
    (answerSource similarQuery)
    (if bool_decide (userId ∈ askedByUsers similarQuery)
     then askedByUsers similarQuery
     else askedByUsers similarQuery ++ [castAsker userId])
    (askCount similarQuery + 1)
    (originalQuestions similarQuery ++ [mkOccurrence originalQuestion now])
    (createdAt similarQuery) (updatedAt similarQuery) now.

(** [new QueryLog({...})], with the identifier the document receives. *)
Definition newQueryLog (id : nat) (now : Z) (originalQuestion normalizedQuestion : string)
    (userId : option string) : QueryLog :=
  mkQueryLog id (castText originalQuestion) (castText normalizedQuestion) false none
    (if Js.truthy userId then [castAsker userId] else [])
    1
    [mkOccurrence originalQuestion now]
    now now now.

(** [logUnansweredQuery(originalQuestion, userId)]. [completion] is the
    outcome of the normalizer's chat completion and [now] the value of
    [Date.now()]. The threshold 0.7 and a quotient of two set sizes
    compare as binary64 numbers the way 7/10 and the quotient compare as
    rationals. *)
Definition logUnansweredQuery (completion : Js.result (option string)) (now : Z)
    (originalQuestion : string) (userId : option string) (db : Collection)
    : Js.result (QueryLog * Collection) :=
  Js.try_catch
    (let! normalizedQuestion := normalizeQuery completion originalQuestion in
     let existingQueries := find (fun q => negb (answered q)) db in
     let similarQuery := findSimilarQuery normalizedQuestion existingQueries (7 # 10) in
     match similarQuery with
     | Some similarQuery =>
         save now (updateExisting similarQuery now originalQuestion userId) db
     | None =>
         save now (newQueryLog (nextId db) now originalQuestion normalizedQuestion userId)
              db
     end)
    (fun error => Js.Throw error).

(** The entry of [markQueryAsAnswered], before [query.save()]. *)
Definition answeredVersion (query : QueryLog) (now : Z) : QueryLog :=
  mkQueryLog (_id query) (originalQuestion query) (normalizedQuestion query)
    true human (askedByUsers query) (askCount query)
    (originalQuestions query) (createdAt query) now (lastAskedAt query).

(** [markQueryAsAnswered]: the handler's effect on the collection; an
    unknown identifier is answered with 404 and a failed save with 500,
    and both change nothing. *)
Definition markQueryAsAnswered (now : Z) (id : nat) (db : Collection) : Collection :=
  match findById id db with
  | None => db
  | Some query =>
      match save now (answeredVersion query now) db with
      | Js.Ok (_, db') => db'
      | Js.Throw _ => db
      end
  end.

Definition deleteQuery (id : nat) (db : Collection) : Collection :=
  snd (findByIdAndDelete id db).

(** One request that touches the ledger. *)
Inductive request :=
  | LogUnanswered (completion : Js.result (option string)) (now : Z)
                  (originalQuestion : string) (userId : option string)
  | MarkAnswered (now : Z) (id : nat)
  | Delete (id : nat).

Definition handle (r : request) (db : Collection) : Collection :=
  match r with
  | LogUnanswered completion now originalQuestion userId =>
      match logUnansweredQuery completion now originalQuestion userId db with
      | Js.Ok (_, db') => db'
      | Js.Throw _ => db
      end
  | MarkAnswered now id => markQueryAsAnswered now id db
  | Delete id => deleteQuery id db
  end.

(** The ledger after a sequence of requests, served one after another. *)
Definition run (rs : list request) (db : Collection) : Collection :=
  fold_left (fun db r => handle r db) rs db.

(** [u._id.toString()] for an element [u] of [askedByUsers]. The path
    holds strings and has no [ref], so [populate] leaves its elements as
    they are: [u] is a string, whose [_id] is undefined, or null; either
    way the expression throws a TypeError. *)
Definition studentId (u : option string) : Js.result string :=
  match u with
  | Some _ => Js.Throw (Js.TypeError "Cannot read properties of undefined (reading 'toString')")
  | None => Js.Throw (Js.TypeError "Cannot read properties of null (reading '_id')")
  end.

(** [queries.flatMap(q => q.askedByUsers.map(u => u._id.toString()))]. *)
Definition studentIds (queries : list QueryLog) : Js.result (list string) :=
  let! lists := Js.traverse (fun q => Js.traverse studentId (askedByUsers q)) queries in
  Js.Ok (concat lists).

Record Stats := mkStats {
  totalUnanswered : nat;
  totalAskCount : Z;
  uniqueStudents : nat
}.

(** [getUnansweredQueries]: the statistics of the response, computed
    over the unanswered entries in this order; the order of the listing
    does not enter them. A throw is caught by the handler and answered
    with 500, without statistics. *)
Definition getUnansweredQueries (db : Collection) : Js.result Stats :=
  let queries := find (fun q => negb (answered q)) db in
  let totalUnanswered := length queries in
  let totalAskCount := fold_left (fun sum q => (sum + askCount q)%Z) queries 0%Z in
  let! ids := studentIds queries in
  Js.Ok (mkStats totalUnanswered totalAskCount (size (list_to_set ids : gset string))).

End QueryLogController.

(** ** models/KnowledgeGap.js *)

Module KnowledgeGapModel.

Inductive Priority := low | normal | high | critical.
Inductive Status := open | under_review | resolved.
Inductive Category := scholarship | admission | academic | facilities | general.

Record OriginalQuery := mkOriginalQuery {
  text : string;
  askedBy : option string;
  askedAt : Z
}.

Record Resolution := mkResolution {
  answer : string;
  addedBy : string;
  addedAt : Z
}.

Record KnowledgeGap := mkKnowledgeGap {
  _id : nat;
  normalizedQuery : string;
  originalQueries : list OriginalQuery;
  askCount : Z;
  priority : Priority;
  status : Status;
  category : Category;
  assignedTo : option string;
  resolution : option Resolution
}.

Record Collection := mkCollection {
  docs : list KnowledgeGap;
  nextId : nat
}.

Definition empty : Collection := mkCollection [] 0.

#[global] Instance Status_eq_dec : EqDecision Status.
Proof. solve_decision. Defined.

#[global] Instance Priority_eq_dec : EqDecision Priority.
Proof. solve_decision. Defined.

(** The body of [knowledgeGapSchema.pre('save', ...)]. *)
Definition derivePriority (askCount : Z) : Priority :=
  if (10 <=? askCount)%Z then critical
  else if (5 <=? askCount)%Z then high
  else if (2 <=? askCount)%Z then normal
  else low.

Definition pre_save (g : KnowledgeGap) : KnowledgeGap :=
  mkKnowledgeGap (_id g) (normalizedQuery g) (originalQueries g) (askCount g)
    (derivePriority (askCount g)) (status g) (category g) (assignedTo g) (resolution g).

(** The cast of a string to an ObjectId: it succeeds on 24 hexadecimal
    digits. (Versions of the driver before 5 also take any string of 12
    characters; no statement below depends on such a string.) *)
Definition is_hex (c : ascii) : bool :=
  let n := Js.code c in
  ((48 <=? n) && (n <=? 57)) || ((65 <=? n) && (n <=? 70)) || ((97 <=? n) && (n <=? 102)).

Fixpoint all_hex (s : string) : bool :=
  match s with
  | EmptyString => true
  | String c t => is_hex c && all_hex t
  end.

Definition castsToObjectId (value : string) : bool :=
  (String.length value =? 24)%nat && all_hex value.

(** What [save()] validates. The [required] paths: a required string is
    neither missing nor empty. The ObjectId paths [assignedTo] and
    [resolution.addedBy]: a value that does not cast is a validation
    error (and [resolution.addedBy] is required). The path
    [originalQueries.askedBy] is an ObjectId path as well; its cast is
    not modelled, and a question record is accepted with any asker. *)
Definition validate (g : KnowledgeGap) : Js.result unit :=
  if String.eqb (normalizedQuery g) EmptyString
  then Js.Throw (Js.ValidationError "normalizedQuery")
  else if existsb (fun o => String.eqb (text o) EmptyString) (originalQueries g)
  then Js.Throw (Js.ValidationError "originalQueries.text")
  else if match assignedTo g with
          | Some adminId => negb (castsToObjectId adminId)
          | None => false
          end
  then Js.Throw (Js.ValidationError "assignedTo")
  else match resolution g with
       | Some r =>
           if String.eqb (answer r) EmptyString
           then Js.Throw (Js.ValidationError "resolution.answer")
           else if negb (castsToObjectId (addedBy r))
           then Js.Throw (Js.ValidationError "resolution.addedBy")
           else Js.Ok tt
       | None => Js.Ok tt
       end.

(** [doc.save()]: validation, then the pre-save hook, then the write. The
    insert of a new document is refused by the unique index on
    [normalizedQuery] when another document holds the same value. *)
Definition save (g : KnowledgeGap) (db : Collection) : Js.result (KnowledgeGap * Collection) :=
  let! _ := validate g in
  let g' := pre_save g in
  if existsb (fun d => _id d =? _id g')%nat (docs db)
  then Js.Ok (g', mkCollection
                    (map (fun d => if (_id d =? _id g')%nat then g' else d) (docs db))
                    (nextId db))
  else if existsb (fun d => String.eqb (normalizedQuery d) (normalizedQuery g')) (docs db)
  then Js.Throw (Js.DuplicateKeyError (normalizedQuery g'))
  else Js.Ok (g', mkCollection (docs db ++ [g']) (Nat.max (nextId db) (S (_id g')))).

(** [userId || null]. *)
Definition or_null (userId : option string) : option string :=
  if Js.truthy userId then userId else None.

Definition incrementAskCount (now : Z) (this : KnowledgeGap) (query : string)
    (userId : option string) (db : Collection) : Js.result (KnowledgeGap * Collection) :=
  save (mkKnowledgeGap (_id this) (normalizedQuery this)
          (originalQueries this ++ [mkOriginalQuery query (or_null userId) now])
          (askCount this + 1)
          (priority this) (status this) (category this) (assignedTo this)
          (resolution this))
       db.

Definition resolve (now : Z) (this : KnowledgeGap) (answer adminId : string)
    (db : Collection) : Js.result (KnowledgeGap * Collection) :=
  save (mkKnowledgeGap (_id this) (normalizedQuery this) (originalQueries this)
          (askCount this) (priority this) resolved (category this) (assignedTo this)
          (Some (mkResolution answer adminId now)))
       db.

Definition assignTo (this : KnowledgeGap) (adminId : string) (db : Collection)
    : Js.result (KnowledgeGap * Collection) :=
  save (mkKnowledgeGap (_id this) (normalizedQuery this) (originalQueries this)
          (askCount this) (priority this) under_review (category this) (Some adminId)
          (resolution this))
       db.

(** The setter of [normalizedQuery], declared [lowercase: true] and
    [trim: true]. *)
Definition castNormalizedQuery (value : string) : string :=
  Js.trim (Js.toLowerCase value).

(** [this.create({normalizedQuery, originalQueries, askCount, status})]:
    the other paths take the schema's defaults. *)
Definition create (normalizedQuery : string) (originalQueries : list OriginalQuery)
    (askCount : Z) (status : Status) (db : Collection)
    : Js.result (KnowledgeGap * Collection) :=
  save (mkKnowledgeGap (nextId db) (castNormalizedQuery normalizedQuery) originalQueries
          askCount normal status general None None)
       db.

Definition findOne (filter : KnowledgeGap -> bool) (db : Collection) : option KnowledgeGap :=
  List.find filter (docs db).

(** [findOrCreate(query, userId)]: the gap and the [created] flag. *)
Definition findOrCreate (now : Z) (query : string) (userId : option string)
    (db : Collection) : Js.result (KnowledgeGap * bool * Collection) :=
  let normalized := Js.trim (Js.toLowerCase query) in
  match findOne (fun g => String.eqb (normalizedQuery g) normalized
                          && bool_decide (status g = open)) db with
  | Some gap =>
      let! '(gap', db') := incrementAskCount now gap query userId db in
      Js.Ok (gap', false, db')
  | None =>
      let! '(gap', db') := create normalized [mkOriginalQuery query (or_null userId) now]
                                  1 open db in
      Js.Ok (gap', true, db')
  end.

(** The operations that end in [save()]. *)
Inductive saving :=
  | Create (normalizedQuery : string) (originalQueries : list OriginalQuery)
           (askCount : Z) (status : Status)
  | IncrementAskCount (now : Z) (this : KnowledgeGap) (query : string)
                      (userId : option string)
  | AssignTo (this : KnowledgeGap) (adminId : string)
  | Resolve (now : Z) (this : KnowledgeGap) (answer adminId : string).

Definition perform (op : saving) (db : Collection) : Js.result (KnowledgeGap * Collection) :=
  match op with
  | Create normalizedQuery originalQueries askCount status =>
      create normalizedQuery originalQueries askCount status db
  | IncrementAskCount now this query userId => incrementAskCount now this query userId db
  | AssignTo this adminId => assignTo this adminId db
  | Resolve now this answer adminId => resolve now this answer adminId db
  end.

Definition findById (id : nat) (db : Collection) : option KnowledgeGap :=
  List.find (fun g => _id g =? id)%nat (docs db).

(** The [$group] stage of [getStats]: one group for each status that
    occurs in the collection, with the number of its documents and the
    sum of their ask counts. *)
Record StatusGroup := mkStatusGroup {
  group_id : Status;
  count : Z;
  totalAsks : Z
}.

Definition aggregate (db : Collection) : list StatusGroup :=
  fold_left
    (fun groups g =>
       if existsb (fun s => bool_decide (group_id s = status g)) groups
       then map (fun s => if bool_decide (group_id s = status g)
                          then mkStatusGroup (group_id s) (count s + 1)
                                             (totalAsks s + askCount g)
                          else s)
                groups
       else groups ++ [mkStatusGroup (status g) 1 (askCount g)])
    (docs db) [].

(** The result object of [getStats]; [byStatus] holds its keys [open],
    [under_review] and [resolved]. *)
Record GapStats := mkGapStats {
  total : Z;
  byStatus : Status -> Z;
  total_asks : Z
}.

Definition getStats (db : Collection) : GapStats :=
  fold_left
    (fun result stat =>
       mkGapStats (total result + count stat)
                  (fun key => if bool_decide (key = group_id stat) then count stat
                              else byStatus result key)
                  (total_asks result + totalAsks stat))
    (aggregate db)
    (mkGapStats 0 (fun _ => 0%Z) 0).

End KnowledgeGapModel.

(** ** controllers/knowledgeGapController.js *)

Module KnowledgeGapController.
Import KnowledgeGapModel.

(** What a handler answers: 200 with the gap, or 400, 404 or 500. *)
Inductive Response :=
  | Success (knowledge_gap : KnowledgeGap)
  | BadRequest
  | NotFound
  | ServerError.

(** [resolveKnowledgeGap]: [id] is [req.params.id], [answer] is
    [req.body.answer] and [user_id] is [req.user.id]. *)
Definition resolveKnowledgeGap (now : Z) (id : nat) (answer : option string)
    (user_id : string) (db : Collection) : Response * Collection :=
  match answer with
  | None => (BadRequest, db)
  | Some answer =>
      if String.eqb answer EmptyString then (BadRequest, db)
      else
        match findById id db with
        | None => (NotFound, db)
        | Some gap =>
            match resolve now gap answer user_id db with
            | Js.Ok (gap, db') => (Success gap, db')
            | Js.Throw _ => (ServerError, db)
            end
        end
  end.

(** [assignKnowledgeGap]: the gap is assigned to [adminId || req.user.id]. *)
Definition assignKnowledgeGap (id : nat) (adminId : option string) (user_id : string)
    (db : Collection) : Response * Collection :=
  match findById id db with
  | None => (NotFound, db)
  | Some gap =>
      match assignTo gap (if Js.truthy adminId then default user_id adminId else user_id) db with
      | Js.Ok (gap, db') => (Success gap, db')
      | Js.Throw _ => (ServerError, db)
      end
  end.

(** One operation on the ledger: a question recorded through
    [findOrCreate], or one of the two handlers. *)
Inductive request :=
  | FindOrCreate (now : Z) (query : string) (userId : option string)
  | ResolveGap (now : Z) (id : nat) (answer : option string) (user_id : string)
  | AssignGap (id : nat) (adminId : option string) (user_id : string).

Definition handle (r : request) (db : Collection) : Collection :=
  match r with
  | FindOrCreate now query userId =>
      match findOrCreate now query userId db with
      | Js.Ok (_, _, db') => db'
      | Js.Throw _ => db
      end
  | ResolveGap now id answer user_id => snd (resolveKnowledgeGap now id answer user_id db)
  | AssignGap id adminId user_id => snd (assignKnowledgeGap id adminId user_id db)
  end.

Definition run (rs : list request) (db : Collection) : Collection :=
  fold_left (fun db r => handle r db) rs db.

End KnowledgeGapController.


(** ** controllers/chatController.js *)

Module ChatController.

Inductive Role := user | assistant | system.

Record Turn := mkTurn {
  role : Role;
  content : string
}.

Record Session := mkSession {
  history : list Turn;
  lastActivity : Z
}.

(** [const userSessions = new Map()]. *)
Definition getSession (now : Z) (sessionId : string) (userSessions : gmap string Session)
    : Session * gmap string Session :=
  match userSessions !! sessionId with
  | Some session => (session, userSessions)
  | None =>
      let session := mkSession [] now in
      (session, <[sessionId := session]> userSessions)
  end.

Definition updateSessionActivity (now : Z) (sessionId : string)
    (userSessions : gmap string Session) : gmap string Session :=
  let '(session, userSessions) := getSession now sessionId userSessions in
  <[sessionId := mkSession (history session) now]> userSessions.

(** The history a session identifier stands for; an unseen identifier
    stands for the empty history [getSession] would create. *)
Definition historyOf (sessionId : string) (userSessions : gmap string Session)
    : list Turn :=
  match userSessions !! sessionId with
  | Some session => history session
  | None => []
  end.

(** [session.history.pop()]. *)
Definition pop {A} (l : list A) : list A := removelast l.

(** [transformQuery(question, sessionId)]: the outcome and the session
    map it leaves. [completion] is the outcome of the awaited chat
    completion, whose content is a string or null; when it throws, the
    statements after the [await] do not run. *)
Definition transformQuery (completion : Js.result (option string)) (now : Z)
    (question sessionId : string) (userSessions : gmap string Session)
    : Js.result (option string) * gmap string Session :=
  let '(session, userSessions) := getSession now sessionId userSessions in
  let session := mkSession (history session ++ [mkTurn user question]) (lastActivity session) in
  let userSessions := <[sessionId := session]> userSessions in
  match completion with
  | Js.Throw error => (Js.Throw error, userSessions)
  | Js.Ok response =>
      let session := mkSession (pop (history session)) (lastActivity session) in
      let userSessions := <[sessionId := session]> userSessions in
      let userSessions := updateSessionActivity now sessionId userSessions in
      (Js.Ok response, userSessions)
  end.

(** Numbers of the vector reducer: binary64. An array length or a loop
    index is below 2^53 and converts exactly. *)
Definition of_nat (n : nat) : float := PrimFloat.of_uint63 (Uint63.of_Z (Z.of_nat n)).

(** [Math.floor] of a finite number, as an integer. *)
Definition floor (x : float) : Z :=
  match Prim2SF x with
  | S754_finite false m e =>
      if (0 <=? e)%Z then Z.shiftl (Zpos m) e else Z.shiftr (Zpos m) (- e)
  | S754_finite true m e =>
      if (0 <=? e)%Z then - Z.shiftl (Zpos m) e
      else - Z.shiftr (Zpos m + Z.shiftl 1 (- e) - 1) (- e)
  | _ => 0%Z
  end.

(** The inner loop [for (let j = start; j < end; j++)]: [sum] and
    [count]. Reading past the end of the array gives [undefined], which
    turns the sum into NaN. *)
Definition sumBucket (vector : list float) (start end_ : nat) : float * nat :=
  fold_left (fun '(sum, count) j => ((sum + nth j vector nan)%float, S count))
            (seq start (end_ - start)) (0%float, 0%nat).

Definition bucketMean (vector : list float) (start end_ : nat) : float :=
  let '(sum, count) := sumBucket vector start end_ in
  (sum / of_nat count)%float.

Definition targetLength : nat := 768.

Definition ratioOf (sourceLength : nat) : float :=
  (of_nat sourceLength / of_nat targetLength)%float.

(** The bound [Math.floor(i * ratio)] the source computes for index [i]:
    [start] of bucket [i] and [end] of bucket [i - 1]. *)
Definition floorOf (sourceLength i : nat) : Z :=
  floor (of_nat i * ratioOf sourceLength)%float.

Definition startOf (sourceLength i : nat) : nat := Z.to_nat (floorOf sourceLength i).

Definition reduceDimensions (vector : list float) : list float :=
  let sourceLength := length vector in
  map (fun i =>
         let start := startOf sourceLength i in
         let end_ := startOf sourceLength (i + 1) in
         bucketMean vector start end_)
      (seq 0 targetLength).

(** [const SESSION_TIMEOUT = 5 * 60 * 1000]. *)
Definition SESSION_TIMEOUT : Z := 5 * 60 * 1000.

(** [cleanupInactiveSessions()]: the loop over the entries of the map,
    deleting from the map it iterates. *)
Definition cleanupInactiveSessions (now : Z) (userSessions : gmap string Session)
    : gmap string Session :=
  map_fold
    (fun sessionId session userSessions =>
       if (SESSION_TIMEOUT <? now - lastActivity session)%Z
       then delete sessionId userSessions
       else userSessions)
    userSessions userSessions.

(** [session.history.push(turn)] on the session of [sessionId]. *)
Definition pushTurn (sessionId : string) (turn : Turn) (userSessions : gmap string Session)
    : gmap string Session :=
  match userSessions !! sessionId with
  | Some session =>
      <[sessionId := mkSession (history session ++ [turn]) (lastActivity session)]>
        userSessions
  | None => userSessions
  end.

(** [value || other]. *)
Definition or_else (value : option string) (other : string) : string :=
  match value with
  | Some text => if String.eqb text EmptyString then other else text
  | None => other
  end.

Record ChatResponse := mkChatResponse {
  answer : string;
  sessionId : string
}.

(** [chatting(question, userId, sessionId)]: the outcome, the session
    map and the QueryLog ledger it leaves. The awaited calls are given by
    their outcomes: [rewrite] and [completion] are the text contents of
    the two chat completions, [embedding] is the vector of [embedQuery],
    [search] the texts of the matches of the index query (they only shape
    the prompt) and [normalizer] the completion awaited inside
    [logUnansweredQuery]. [started], [rewritten], [answered] and [logged]
    are the values of [Date.now()] when the session is looked up, when
    the rewrite returns, when the answer returns and when the question is
    logged; [generated] is the random identifier of line 102. No sweep of
    the sessions runs while the call is awaited. *)
Definition chatting (rewrite : Js.result string) (embedding : Js.result (list float))
    (search : Js.result (list string)) (completion : Js.result string)
    (normalizer : Js.result (option string))
    (started rewritten answered logged : Z) (generated : string)
    (question : string) (userId sessionId : option string)
    (userSessions : gmap string Session) (db : QueryLogModel.Collection)
    : Js.result ChatResponse * gmap string Session * QueryLogModel.Collection :=
  let sessionId := or_else sessionId (or_else userId generated) in
  let '(_, userSessions) := getSession started sessionId userSessions in
  let '(queries, userSessions) :=
    transformQuery (let! text := rewrite in Js.Ok (Some text)) rewritten question sessionId
                   userSessions in
  match queries with
  | Js.Throw error => (Js.Throw error, userSessions, db)
  | Js.Ok None => (Js.Throw (Js.TypeError "content is null"), userSessions, db)
  | Js.Ok (Some queries) =>
      match embedding with
      | Js.Throw error => (Js.Throw error, userSessions, db)
      | Js.Ok queryVector =>
          let queryVector := reduceDimensions queryVector in
          match search with
          | Js.Throw error => (Js.Throw error, userSessions, db)
          | Js.Ok matches =>
              let userSessions := pushTurn sessionId (mkTurn user queries) userSessions in
              match completion with
              | Js.Throw error => (Js.Throw error, userSessions, db)
              | Js.Ok responseText =>
                  let userSessions :=
                    pushTurn sessionId (mkTurn assistant responseText) userSessions in
                  let userSessions := updateSessionActivity answered sessionId userSessions in
                  let db :=
                    if isUnansweredResponse responseText
                    then match QueryLogController.logUnansweredQuery
                                 normalizer logged question userId db with
                         | Js.Ok (_, db') => db'
                         | Js.Throw _ => db
                         end
                    else db in
                  (Js.Ok (mkChatResponse responseText sessionId), userSessions, db)
              end
          end
      end
  end.

End ChatController.

Example similarity_scholarship :
  calculateStringSimilarity "When will scholarship disbursement be made?"
                            "when WILL the scholarship  disbursement happen" = (4 # 7)%Q.
Proof. vm_compute. reflexivity. Qed.

Example classifier_fallback :
  isUnansweredResponse "I can't help, contact the staff locally at student_help@jssaten.ac.in" = true.
Proof. vm_compute. reflexivity. Qed.

Example classifier_newline :
  isUnansweredResponse "Please contact
the staff" = false.
Proof. vm_compute. reflexivity. Qed.

Example split_ws_ex : Js.split_ws " a  b " = [""; "a"; "b"; ""]%string.
Proof. reflexivity. Qed.

Example trim_ex : Js.trim "  a b  " = "a b"%string.
Proof. reflexivity. Qed.

Example strip_ex : strip_quotes "'What is it?'" = "What is it?"%string.
Proof. reflexivity. Qed.

(** * Properties *)

(** ** White space and letter case *)

Section Trim.

Lemma is_space_lower c : Js.is_space (Js.lower_char c) = Js.is_space c.
Proof. destruct c as [[] [] [] [] [] [] [] []]; reflexivity. Qed.

Lemma lower_char_idem c : Js.lower_char (Js.lower_char c) = Js.lower_char c.
Proof. destruct c as [[] [] [] [] [] [] [] []]; reflexivity. Qed.

Lemma toLowerCase_idem s : Js.toLowerCase (Js.toLowerCase s) = Js.toLowerCase s.
Proof. induction s as [|c s IH]; simpl; by rewrite ?lower_char_idem, ?IH. Qed.

Lemma toLowerCase_trimStart s :
  Js.toLowerCase (Js.trimStart s) = Js.trimStart (Js.toLowerCase s).
Proof.
  induction s as [|c s IH]; [done|]. simpl. rewrite is_space_lower.
  by destruct (Js.is_space c).
Qed.

Lemma toLowerCase_trimEnd s :
  Js.toLowerCase (Js.trimEnd s) = Js.trimEnd (Js.toLowerCase s).
Proof.
  induction s as [|c s IH]; [done|]. simpl. rewrite <- IH, is_space_lower.
  destruct (Js.trimEnd s); simpl; [by destruct (Js.is_space c) | done].
Qed.

Lemma toLowerCase_trim s : Js.toLowerCase (Js.trim s) = Js.trim (Js.toLowerCase s).
Proof. unfold Js.trim. by rewrite toLowerCase_trimEnd, toLowerCase_trimStart. Qed.

(** What [trimStart] leaves is empty or starts with a code unit that is
    no white space; [trimEnd] keeps that. *)
Definition no_leading_space (s : string) : Prop :=
  match s with
  | EmptyString => True
  | String c _ => Js.is_space c = false
  end.

Lemma trimStart_no_leading s : no_leading_space (Js.trimStart s).
Proof.
  induction s as [|c s IH]; [done|]. simpl.
  destruct (Js.is_space c) eqn:Hc; [done | by simpl].
Qed.

Lemma trimStart_id s : no_leading_space s -> Js.trimStart s = s.
Proof. destruct s as [|c s]; [done|]. simpl. by intros ->. Qed.

Lemma trimEnd_no_leading s : no_leading_space s -> no_leading_space (Js.trimEnd s).
Proof.
  destruct s as [|c s]; [done|]. simpl. intros Hc.
  destruct (Js.trimEnd s); [by rewrite Hc | done].
Qed.

Lemma trimEnd_idem s : Js.trimEnd (Js.trimEnd s) = Js.trimEnd s.
Proof.
  induction s as [|c s IH]; [done|]. simpl.
  destruct (Js.trimEnd s) as [|d t] eqn:Hend.
  - destruct (Js.is_space c) eqn:Hc; [done|]. simpl. by rewrite Hc.
  - change (Js.trimEnd (String c (String d t)))
      with (match Js.trimEnd (String d t) with
            | EmptyString => if Js.is_space c then EmptyString else String c EmptyString
            | t' => String c t'
            end).
    by rewrite IH.
Qed.

Lemma trim_idem s : Js.trim (Js.trim s) = Js.trim s.
Proof.
  unfold Js.trim.
  rewrite (trimStart_id (Js.trimEnd (Js.trimStart s)))
    by apply trimEnd_no_leading, trimStart_no_leading.
  apply trimEnd_idem.
Qed.

(** The setter of [normalizedQuery] changes nothing on a text that went
    through it. *)
Lemma lower_trim_idem s :
  Js.trim (Js.toLowerCase (Js.trim (Js.toLowerCase s))) = Js.trim (Js.toLowerCase s).
Proof. by rewrite toLowerCase_trim, toLowerCase_idem, trim_idem. Qed.

(** Splitting on white space, then dropping the empty pieces, does not
    see the white space that [trim] removes. *)
Section Pieces.
Variable keep : string -> bool.
Hypothesis keep_empty : keep EmptyString = false.

Lemma split_go_in_sep s :
  List.filter keep (Js.split_go s EmptyString true)
  = List.filter keep (Js.split_go s EmptyString false).
Proof using keep_empty.
  destruct s as [|c s]; [done|]. simpl.
  destruct (Js.is_space c); [|done]. simpl. by rewrite keep_empty.
Qed.

Lemma split_trimStart s :
  List.filter keep (Js.split_ws (Js.trimStart s)) = List.filter keep (Js.split_ws s).
Proof using keep_empty.
  unfold Js.split_ws. induction s as [|c s IH]; [done|].
  simpl. destruct (Js.is_space c) eqn:Hc.
  - simpl. rewrite keep_empty, IH. symmetry. apply split_go_in_sep.
  - simpl. by rewrite Hc.
Qed.

Lemma split_trimEnd s : forall cur in_sep,
  List.filter keep (Js.split_go (Js.trimEnd s) cur in_sep)
  = List.filter keep (Js.split_go s cur in_sep).
Proof using keep_empty.
  induction s as [|c s IH]; intros cur in_sep; [done|].
  simpl. destruct (Js.trimEnd s) as [|d t] eqn:Hend.
  - destruct (Js.is_space c) eqn:Hc.
    + destruct in_sep.
      * by rewrite <- IH.
      * simpl. rewrite <- IH. simpl. rewrite keep_empty. by destruct (keep cur).
    + simpl. rewrite Hc. by rewrite <- IH.
  - change (Js.split_go (String c (String d t)) cur in_sep)
      with (if Js.is_space c
            then if in_sep then Js.split_go (String d t) cur true
                 else cur :: Js.split_go (String d t) EmptyString true
            else Js.split_go (String d t) (cur +:+ String c EmptyString) false).
    destruct (Js.is_space c); [destruct in_sep|]; cbn [List.filter]; by rewrite ?IH.
Qed.

Lemma split_trim s :
  List.filter keep (Js.split_ws (Js.trim s)) = List.filter keep (Js.split_ws s).
Proof using keep_empty.
  unfold Js.trim. etrans; [apply split_trimEnd | apply split_trimStart].
Qed.

End Pieces.

Lemma tokens_trim s : tokens (Js.trim s) = tokens s.
Proof. unfold tokens. rewrite toLowerCase_trim. by apply split_trim. Qed.

Lemma words_trim s : words (Js.trim s) = words s.
Proof. unfold words. by rewrite tokens_trim. Qed.

Lemma similarity_trim_r a b :
  calculateStringSimilarity a (Js.toLowerCase (Js.trim b))
  = calculateStringSimilarity a (Js.toLowerCase b).
Proof.
  unfold calculateStringSimilarity. by rewrite toLowerCase_trim, words_trim.
Qed.

Lemma similarity_trim_l a b :
  calculateStringSimilarity (Js.toLowerCase (Js.trim a)) b
  = calculateStringSimilarity (Js.toLowerCase a) b.
Proof.
  unfold calculateStringSimilarity. by rewrite toLowerCase_trim, words_trim.
Qed.

End Trim.

(** ** The similarity metric *)

Section Similarity.

Lemma intersection_as_filter (words1 words2 : gset string) :
  filter (fun word => word ∈ words2) words1 = words1 ∩ words2.
Proof. apply set_eq. intros w. rewrite elem_of_filter. set_solver. Qed.

Lemma words_empty_iff s : size (words s) = 0%nat <-> tokens s = [].
Proof.
  unfold words. rewrite size_empty_iff. split.
  - intros Hempty. destruct (tokens s) as [|w l]; [done|].
    exfalso. apply (not_elem_of_empty (C := gset string) w).
    rewrite <- Hempty. set_solver.
  - intros ->. done.
Qed.

Lemma similarity_unfold str1 str2 :
  calculateStringSimilarity str1 str2 =
    if (size (words str1) =? 0)%nat && (size (words str2) =? 0)%nat then 1%Q
    else (Z.of_nat (size (words str1 ∩ words str2))
            # Pos.of_nat (size (words str1 ∪ words str2)))%Q.
Proof. unfold calculateStringSimilarity. cbv zeta. by rewrite intersection_as_filter. Qed.

Lemma similarity_refl a : (calculateStringSimilarity a a == 1)%Q.
Proof.
  rewrite similarity_unfold.
  destruct (size (words a) =? 0)%nat eqn:Hsize; simpl; [reflexivity|].
  apply Nat.eqb_neq in Hsize.
  replace (words a ∩ words a) with (words a) by set_solver.
  replace (words a ∪ words a) with (words a) by set_solver.
  unfold Qeq. simpl. rewrite Z.mul_1_r, Z.mul_1_l.
  rewrite <- (Nat2Pos.id (size (words a))) at 1 by done.
  by rewrite positive_nat_Z.
Qed.

Lemma similarity_sym a b :
  calculateStringSimilarity a b = calculateStringSimilarity b a.
Proof.
  rewrite !similarity_unfold.
  rewrite (andb_comm (size (words a) =? 0)%nat).
  by rewrite (comm_L (∩) (words a)), (comm_L (∪) (words a)).
Qed.

Lemma similarity_disjoint a b :
  (forall w, w ∈ tokens a -> w ∉ tokens b) ->
  tokens a <> [] \/ tokens b <> [] ->
  (calculateStringSimilarity a b == 0)%Q.
Proof.
  intros Hdisj Hne. rewrite similarity_unfold.
  destruct ((size (words a) =? 0)%nat && (size (words b) =? 0)%nat) eqn:Hsize.
  - apply andb_true_iff in Hsize as [Ha Hb].
    apply Nat.eqb_eq, words_empty_iff in Ha. apply Nat.eqb_eq, words_empty_iff in Hb.
    tauto.
  - replace (words a ∩ words b) with (∅ : gset string).
    + rewrite size_empty. reflexivity.
    + symmetry. apply set_eq. intros w. unfold words.
      rewrite elem_of_intersection, !elem_of_list_to_set.
      split; [intros [Hwa Hwb]; by destruct (Hdisj w Hwa) | set_solver].
Qed.

End Similarity.



(** ** The similarity matcher *)

Section FindSimilarSpec.
Context {A : Type} `{HasNormalizedQuestion A}.
Variables (q : string) (t : Q).
Hypothesis t_pos : (0 < t)%Q.

Abbreviation sim := (similarityTo q).

Lemma Qltb_true x y : Qltb x y = true <-> (x < y)%Q.
Proof.
  unfold Qltb. rewrite negb_true_iff, <- not_true_iff_false, Qle_bool_iff.
  split; [apply Qnot_le_lt | apply Qlt_not_le].
Qed.

(** What the two loop variables record about the candidates read so far. *)
Definition loop_state (seen : list A) (mostSimilar : option A) (highest : Q) : Prop :=
  match mostSimilar with
  | None => highest = 0%Q /\ forall c, c ∈ seen -> (sim c < t)%Q
  | Some m =>
      highest = sim m /\ (t <= sim m)%Q
      /\ exists i, seen !! i = Some m
           /\ (forall j c, seen !! j = Some c -> (sim c <= sim m)%Q)
           /\ (forall j c, (j < i)%nat -> seen !! j = Some c -> (sim c < sim m)%Q)
  end.

Lemma loop_state_below seen mostSimilar highest c :
  loop_state seen mostSimilar highest -> c ∈ seen ->
  forall s, (highest < s)%Q -> (t <= s)%Q -> (sim c < s)%Q.
Proof using t_pos.
  intros Hstate Hc s Hhs Hts. destruct mostSimilar as [m|]; simpl in Hstate.
  - destruct Hstate as (-> & _ & i & _ & Hall & _).
    apply list_elem_of_lookup in Hc as [j Hj].
    eapply Qle_lt_trans; [exact (Hall j c Hj) | exact Hhs].
  - destruct Hstate as [_ Hall]. eapply Qlt_le_trans; [exact (Hall c Hc) | exact Hts].
Qed.

Lemma loop_state_step seen mostSimilar highest query :
  loop_state seen mostSimilar highest ->
  let similarity := sim query in
  if Qltb highest similarity && Qle_bool t similarity
  then loop_state (seen ++ [query]) (Some query) similarity
  else loop_state (seen ++ [query]) mostSimilar highest.
Proof using t_pos.
  intros Hstate similarity.
  destruct (Qltb highest similarity && Qle_bool t similarity) eqn:Hcond.
  - apply andb_true_iff in Hcond as [Hlt Hle].
    apply Qltb_true in Hlt. apply Qle_bool_iff in Hle.
    simpl. split; [done|]. split; [done|].
    exists (length seen). split; [by rewrite list_lookup_middle|].
    split.
    + intros j c Hj. apply lookup_app_Some in Hj as [Hj|[_ Hj]].
      * apply Qlt_le_weak. eapply loop_state_below; eauto.
        apply list_elem_of_lookup; eauto.
      * apply list_lookup_singleton_Some in Hj as [_ ->]. apply Qle_refl.
    + intros j c Hji Hj. apply lookup_app_Some in Hj as [Hj|[Hge _]]; [|lia].
      eapply loop_state_below; eauto. apply list_elem_of_lookup; eauto.
  - assert (Hnot : (similarity <= highest)%Q \/ (similarity < t)%Q).
    { apply andb_false_iff in Hcond as [Hlt|Hle].
      - left. apply Qnot_lt_le. intros Hc. apply Qltb_true in Hc. congruence.
      - right. apply Qnot_le_lt. intros Hc. apply Qle_bool_iff in Hc. congruence. }
    destruct mostSimilar as [m|]; simpl in *.
    + destruct Hstate as (-> & Htm & i & Hi & Hall & Hbefore).
      split; [done|]. split; [done|]. exists i.
      split; [by apply lookup_app_l_Some|]. split.
      * intros j c Hj. apply lookup_app_Some in Hj as [Hj|[_ Hj]]; [eauto|].
        apply list_lookup_singleton_Some in Hj as [_ <-].
        destruct Hnot as [Hle|Hlt]; [done|].
        apply Qlt_le_weak. eapply Qlt_le_trans; eauto.
      * intros j c Hji Hj. apply lookup_app_Some in Hj as [Hj|[Hge Hj]]; [eauto|].
        apply lookup_lt_Some in Hi. lia.
    + destruct Hstate as [-> Hall]. split; [done|].
      intros c Hc. apply elem_of_app in Hc as [Hc|Hc]; [eauto|].
      apply list_elem_of_singleton in Hc as ->.
      destruct Hnot as [Hle|Hlt]; [|done].
      eapply Qle_lt_trans; eauto.
Qed.

Lemma findSimilarLoop_state rest : forall seen mostSimilar highest,
  loop_state seen mostSimilar highest ->
  exists highest',
    loop_state (seen ++ rest) (findSimilarLoop q t rest mostSimilar highest) highest'.
Proof using t_pos.
  induction rest as [|query rest IH]; intros seen mostSimilar highest Hstate.
  - exists highest. by rewrite app_nil_r.
  - simpl. pose proof (loop_state_step _ _ _ query Hstate) as Hstep. simpl in Hstep.
    rewrite (cons_middle query seen rest), app_assoc.
    destruct (Qltb highest (sim query) && Qle_bool t (sim query)); by apply IH.
Qed.

Lemma findSimilarQuery_state (existingQueries : list A) :
  exists highest,
    loop_state existingQueries (findSimilarQuery q existingQueries t) highest.
Proof using t_pos.
  destruct existingQueries as [|query rest].
  - exists 0%Q. simpl. split; [done|]. intros c Hc. by apply elem_of_nil in Hc.
  - change (findSimilarQuery q (query :: rest) t)
      with (findSimilarLoop q t (query :: rest) None 0%Q).
    apply (findSimilarLoop_state (query :: rest) [] None 0%Q).
    simpl. split; [done|]. intros c Hc. by apply elem_of_nil in Hc.
Qed.

End FindSimilarSpec.

(** C5, for a positive threshold. [findSimilarQuery] returns null exactly
    when every candidate's similarity is below the threshold; otherwise
    it returns a candidate whose similarity is at least the threshold and
    is the highest of all, and every candidate before it in iteration
    order has a strictly lower similarity. *)
Theorem findSimilarQuery_first_maximum {A : Type} `{HasNormalizedQuestion A}
    (q : string) (existingQueries : list A) (t : Q) :
  (0 < t)%Q ->
  (findSimilarQuery q existingQueries t = None
     <-> forall c, c ∈ existingQueries -> (similarityTo q c < t)%Q)
  /\ (forall m, findSimilarQuery q existingQueries t = Some m ->
        (t <= similarityTo q m)%Q
        /\ exists i, existingQueries !! i = Some m
             /\ (forall j c, existingQueries !! j = Some c ->
                   (similarityTo q c <= similarityTo q m)%Q)
             /\ (forall j c, (j < i)%nat -> existingQueries !! j = Some c ->
                   (similarityTo q c < similarityTo q m)%Q)).
Proof.
  intros Ht. destruct (findSimilarQuery_state q t Ht existingQueries) as [h Hstate].
  destruct (findSimilarQuery q existingQueries t) as [m|]; simpl in Hstate.
  - destruct Hstate as (_ & Htm & i & Hi & Hall & Hbefore). split.
    + split; [done|]. intros Hlow. exfalso.
      apply (Qlt_not_le _ _ (Hlow m ltac:(apply list_elem_of_lookup; eauto))), Htm.
    + intros m' [= <-]. eauto 10.
  - destruct Hstate as [_ Hall]. split; [done | discriminate].
Qed.

(** Three ledger entries used as candidates below. *)
Definition entry_of (id : nat) (normalized : string) : QueryLogModel.QueryLog :=
  QueryLogModel.mkQueryLog id normalized normalized false QueryLogModel.none
    [] 1 [QueryLogModel.mkOccurrence normalized 0] 0 0 0.

Definition candidates : list QueryLogModel.QueryLog :=
  [ entry_of 0 "What is the hostel fee structure?";
    entry_of 1 "When will scholarship disbursement be made?";
    entry_of 2 "when will SCHOLARSHIP disbursement be made?" ].

Lemma findSimilarQuery_first_maximum_witness :
  (0 < 7 # 10)%Q
  /\ findSimilarQuery "When will scholarship disbursement be made?" candidates (7 # 10)
     = Some (entry_of 1 "When will scholarship disbursement be made?")
  /\ (7 # 10 <= similarityTo "When will scholarship disbursement be made?"
                  (entry_of 1 "When will scholarship disbursement be made?"))%Q.
Proof.
  split; [reflexivity|]. split; [vm_compute; reflexivity|].
  apply (findSimilarQuery_first_maximum
           "When will scholarship disbursement be made?" candidates (7 # 10));
    [reflexivity | vm_compute; reflexivity].
Defined.

(** C5 as stated, for every threshold, fails at threshold 0: the only
    candidate has similarity 0, which is at least the threshold, and the
    result is null. *)
Lemma findSimilarQuery_zero_threshold :
  findSimilarQuery "exam timetable" [entry_of 0 "hostel fee structure"] 0 = None
  /\ (0 <= similarityTo "exam timetable" (entry_of 0 "hostel fee structure"))%Q.
Proof. split; [vm_compute; reflexivity | vm_compute; discriminate]. Qed.

(** ** The text normalizer *)

Example normalizeQuery_success :
  normalizeQuery (Js.Ok (Some "  'When are the examinations scheduled?' "))
                 "  Hey, when is the exam???  "
  = Js.Ok "When are the examinations scheduled?"%string.
Proof. reflexivity. Qed.

Lemma normalizeQuery_returns completion originalQuestion :
  exists normalized, normalizeQuery completion originalQuestion = Js.Ok normalized.
Proof. destruct completion as [[content|]|error]; simpl; eauto. Qed.

(** C9. When the chat completion throws, [normalizeQuery] returns the
    original question as it was given, neither trimmed nor stripped of
    quotation marks; and whatever the completion does, [normalizeQuery]
    returns a value and throws nothing. *)
Theorem normalizeQuery_fallback :
  (forall originalQuestion error,
     normalizeQuery (Js.Throw error) originalQuestion = Js.Ok originalQuestion)
  /\ (forall completion originalQuestion,
        exists normalized, normalizeQuery completion originalQuestion = Js.Ok normalized).
Proof.
  split; [reflexivity | exact normalizeQuery_returns].
Qed.

(** ** The answer classifier *)

Section Classifier.

Lemma canonicalize_lower c : Js.canonicalize (Js.lower_char c) = Js.canonicalize c.
Proof. destruct c as [[] [] [] [] [] [] [] []]; reflexivity. Qed.

Lemma lower_canonicalize c : Js.lower_char (Js.canonicalize c) = Js.lower_char c.
Proof. destruct c as [[] [] [] [] [] [] [] []]; reflexivity. Qed.

Lemma same_fold a b :
  Js.canonicalize a = Js.canonicalize b <-> Js.lower_char a = Js.lower_char b.
Proof.
  split; intros Heq.
  - by rewrite <- (lower_canonicalize a), Heq, lower_canonicalize.
  - by rewrite <- (canonicalize_lower a), Heq, canonicalize_lower.
Qed.

(** A literal matches at the start of a text exactly when their
    lower-case forms agree there. *)
Lemma match_literal_prefix literal : forall s,
  is_Some (Js.match_literal literal s)
  <-> Js.startsWith (Js.toLowerCase s) (Js.toLowerCase literal) = true.
Proof.
  induction literal as [|a literal IH]; intros s; simpl.
  - split; [done | eauto].
  - destruct s as [|b s]; simpl; [split; [by intros [? ?] | done]|].
    destruct (Ascii.eqb_spec (Js.canonicalize a) (Js.canonicalize b)) as [Heq|Hne].
    + apply same_fold in Heq. rewrite Heq, Ascii.eqb_refl. apply IH.
    + destruct (Ascii.eqb_spec (Js.lower_char a) (Js.lower_char b)) as [Heq|_].
      * by apply same_fold in Heq.
      * split; [by intros [? ?] | done].
Qed.

Lemma includes_unfold s sub :
  Js.includes s sub
  = Js.startsWith s sub
    || match s with
       | EmptyString => false
       | String _ t => Js.includes t sub
       end.
Proof. by destruct s. Qed.

Lemma test_unfold p s :
  Js.test p s
  = Js.match_here p s
    || match s with
       | EmptyString => false
       | String _ t => Js.test p t
       end.
Proof. by destruct s. Qed.

Lemma prefix_app_includes a : forall b s,
  Js.startsWith s (a +:+ b) = true -> Js.includes s b = true.
Proof.
  induction a as [|c a IH]; intros b s Hpre.
  - change (Js.startsWith s b = true) in Hpre.
    rewrite includes_unfold. by rewrite Hpre.
  - change (Js.startsWith s (String c (a +:+ b)) = true) in Hpre.
    destruct s as [|d s]; [done|]. apply andb_true_iff in Hpre as [_ Hpre].
    rewrite includes_unfold, (IH b s Hpre). apply orb_true_r.
Qed.

Lemma includes_app s : forall a b,
  Js.includes s (a +:+ b) = true -> Js.includes s b = true.
Proof.
  induction s as [|c s IH]; intros a b Hinc; rewrite includes_unfold in Hinc.
  - rewrite orb_false_r in Hinc. by apply (prefix_app_includes a).
  - apply orb_true_iff in Hinc as [Hpre|Hinc].
    + by apply (prefix_app_includes a).
    + rewrite includes_unfold, (IH a b Hinc). apply orb_true_r.
Qed.

Lemma toLowerCase_app a b :
  Js.toLowerCase (a +:+ b) = Js.toLowerCase a +:+ Js.toLowerCase b.
Proof.
  induction a as [|c a IH]; [done|].
  change (String (Js.lower_char c) (Js.toLowerCase (a +:+ b))
          = String (Js.lower_char c) (Js.toLowerCase a +:+ Js.toLowerCase b)).
  by rewrite IH.
Qed.

(** [text] contains [literal], letter case apart. *)
Definition mentions (text literal : string) : bool :=
  Js.includes (Js.toLowerCase text) (Js.toLowerCase literal).

Lemma test_literal_iff literal text :
  Js.test [Js.Lit literal] text = true <-> mentions text literal = true.
Proof.
  unfold mentions. induction text as [|c text IH];
    rewrite test_unfold, includes_unfold, !orb_true_iff, <- match_literal_prefix.
  - simpl. destruct (Js.match_literal literal "");
      split; intros [Hm|Hm]; eauto; try done; by destruct Hm.
  - change (Js.toLowerCase (String c text))
      with (String (Js.lower_char c) (Js.toLowerCase text)).
    cbv iota. rewrite IH. simpl.
    destruct (Js.match_literal literal (String c text));
      split; intros [Hm|Hm]; eauto; try done; by destruct Hm.
Qed.

Definition leadingLiteral (p : Js.regex) : string :=
  match p with
  | Js.Lit literal :: _ => literal
  | _ => EmptyString
  end.

Lemma includes_empty s : Js.includes s "" = true.
Proof. by destruct s. Qed.

Lemma test_mentions_leading p text :
  Js.test p text = true -> mentions text (leadingLiteral p) = true.
Proof.
  destruct p as [|[literal|] p]; try (intros _; apply includes_empty).
  intros Htest. apply test_literal_iff. simpl.
  induction text as [|c text IH];
    rewrite test_unfold in Htest; rewrite (test_unfold [Js.Lit literal]);
    apply orb_true_iff in Htest as [Hm|Ht].
  - simpl in *. by destruct (Js.match_literal literal "").
  - done.
  - simpl in *. by destruct (Js.match_literal literal (String c text)).
  - rewrite (IH Ht). apply orb_true_r.
Qed.

End Classifier.

(** The canned fallback phrase of the chat controller's system prompt. *)
Definition fallbackPhrase : string :=
  "contact the staff locally at student_help@jssaten.ac.in".

(** C8, as the rules decide it. An answer that contains the fallback
    phrase, in any letter case, is classified unanswered. An answer is
    classified answered when it contains, in any letter case, the leading
    literal of none of the fourteen rules. *)
Theorem classification_by_fallback_phrase (responseText : string) :
  (mentions responseText fallbackPhrase = true ->
     isUnansweredResponse responseText = true)
  /\ (forallb (fun pattern => negb (mentions responseText (leadingLiteral pattern)))
              unansweredPatterns = true ->
      isUnansweredResponse responseText = false).
Proof.
  split.
  - intros Hphrase. unfold isUnansweredResponse.
    apply existsb_exists. exists [Js.Lit "student_help@jssaten.ac.in"].
    split; [vm_compute; tauto|].
    apply test_literal_iff. unfold mentions in *.
    change (Js.toLowerCase fallbackPhrase)
      with (Js.toLowerCase "contact the staff locally at "
            +:+ Js.toLowerCase "student_help@jssaten.ac.in") in Hphrase.
    by apply includes_app in Hphrase.
  - intros Hnone. unfold isUnansweredResponse.
    apply not_true_iff_false. intros Hsome.
    apply existsb_exists in Hsome as (pattern & Hin & Htest).
    rewrite forallb_forall in Hnone. specialize (Hnone pattern Hin).
    apply test_mentions_leading in Htest. by rewrite Htest in Hnone.
Qed.

Lemma classification_by_fallback_phrase_witness :
  isUnansweredResponse
    "Sorry! Please CONTACT the staff locally at Student_Help@JSSATEN.ac.in for this."
  = true
  /\ isUnansweredResponse "The library is open from 9 am to 8 pm on weekdays." = false.
Proof.
  split.
  - apply classification_by_fallback_phrase. vm_compute. reflexivity.
  - apply classification_by_fallback_phrase. vm_compute. reflexivity.
Defined.

(** C8 as stated fails in its second half: this answer contains no
    fallback phrase and is classified unanswered, by the second rule. *)
Lemma answer_without_phrase_unanswered :
  mentions "I don't have that information in the documents." fallbackPhrase = false
  /\ isUnansweredResponse "I don't have that information in the documents." = true.
Proof. split; vm_compute; reflexivity. Qed.

(** ** The KnowledgeGap ledger: priority *)

Section Priority.
Import KnowledgeGapModel.

Lemma save_priority g db g' db' :
  save g db = Js.Ok (g', db') ->
  g' = pre_save g /\ g' ∈ docs db'.
Proof.
  unfold save. destruct (validate g) as [[]|e]; simpl; [|done].
  destruct (existsb _ (docs db)) eqn:Hknown.
  - intros [= <- <-]. split; [done|]. simpl.
    apply existsb_exists in Hknown as (d & Hd & Hid).
    apply list_elem_of_In, in_map_iff. exists d. by rewrite Hid.
  - clear Hknown. destruct (existsb _ (docs db)); [done|].
    intros [= <- <-]. split; [done|]. simpl. apply elem_of_app. right.
    apply list_elem_of_singleton. done.
Qed.

Lemma derivePriority_tiers n :
  derivePriority n =
    if decide (10 <= n)%Z then critical
    else if decide (5 <= n)%Z then high
    else if decide (2 <= n)%Z then normal
    else low.
Proof.
  unfold derivePriority.
  destruct (Z.leb_spec 10 n); [by rewrite decide_True by lia|].
  rewrite (decide_False (P := (10 <= n)%Z)) by lia.
  destruct (Z.leb_spec 5 n); [by rewrite decide_True by lia|].
  rewrite (decide_False (P := (5 <= n)%Z)) by lia.
  destruct (Z.leb_spec 2 n); [by rewrite decide_True by lia|].
  by rewrite (decide_False (P := (2 <= n)%Z)) by lia.
Qed.

End Priority.

(** C7. After every operation that saves a KnowledgeGap entry (creation,
    [incrementAskCount], [assignTo], [resolve]) the saved entry's
    priority is the tier of its ask count, whatever priority it had
    before: critical from 10, high from 5 to 9, normal from 2 to 4, low
    below 2; and the entry written to the collection is that entry. An
    increment from ask count 4 to 5 therefore moves a saved entry from
    normal to high. *)
Theorem priority_is_tier_of_askCount :
  (forall op db g' db',
     KnowledgeGapModel.perform op db = Js.Ok (g', db') ->
     g' ∈ KnowledgeGapModel.docs db'
     /\ KnowledgeGapModel.priority g' =
          (if decide (10 <= KnowledgeGapModel.askCount g')%Z then KnowledgeGapModel.critical
           else if decide (5 <= KnowledgeGapModel.askCount g')%Z then KnowledgeGapModel.high
           else if decide (2 <= KnowledgeGapModel.askCount g')%Z then KnowledgeGapModel.normal
           else KnowledgeGapModel.low))
  /\ (forall op db g db1 now query userId g' db2,
        KnowledgeGapModel.perform op db = Js.Ok (g, db1) ->
        KnowledgeGapModel.askCount g = 4%Z ->
        KnowledgeGapModel.incrementAskCount now g query userId db1 = Js.Ok (g', db2) ->
        KnowledgeGapModel.priority g = KnowledgeGapModel.normal
        /\ KnowledgeGapModel.askCount g' = 5%Z
        /\ KnowledgeGapModel.priority g' = KnowledgeGapModel.high).
Proof.
  assert (Hsaved : forall op db g' db',
            KnowledgeGapModel.perform op db = Js.Ok (g', db') ->
            g' ∈ KnowledgeGapModel.docs db'
            /\ KnowledgeGapModel.priority g'
               = KnowledgeGapModel.derivePriority (KnowledgeGapModel.askCount g')).
  { intros op db g' db' Hop.
    destruct op; simpl in Hop; apply save_priority in Hop as [-> Hin]; done. }
  split.
  - intros op db g' db' Hop. apply Hsaved in Hop as [Hin ->].
    split; [done | apply derivePriority_tiers].
  - intros op db g db1 now query userId g' db2 Hop Hfour Hinc.
    apply Hsaved in Hop as [_ Hprio].
    apply save_priority in Hinc as [-> _]. simpl.
    rewrite Hprio, Hfour. done.
Qed.

Definition scholarship_gap : KnowledgeGapModel.KnowledgeGap :=
  KnowledgeGapModel.mkKnowledgeGap 0 "when will scholarship disbursement be made?"
    (replicate 4 (KnowledgeGapModel.mkOriginalQuery
                    "When will scholarship disbursement be made?" None 0))
    4 KnowledgeGapModel.critical KnowledgeGapModel.open KnowledgeGapModel.scholarship
    None None.

Definition assigned_gap : KnowledgeGapModel.KnowledgeGap :=
  KnowledgeGapModel.mkKnowledgeGap 0 "when will scholarship disbursement be made?"
    (replicate 4 (KnowledgeGapModel.mkOriginalQuery
                    "When will scholarship disbursement be made?" None 0))
    4 KnowledgeGapModel.normal KnowledgeGapModel.under_review KnowledgeGapModel.scholarship
    (Some "65f1c0a2b3d4e5f60718293a") None.

Lemma priority_is_tier_of_askCount_witness :
  KnowledgeGapModel.perform (KnowledgeGapModel.AssignTo scholarship_gap "65f1c0a2b3d4e5f60718293a")
    (KnowledgeGapModel.mkCollection [scholarship_gap] 1)
  = Js.Ok (assigned_gap, KnowledgeGapModel.mkCollection [assigned_gap] 1)
  /\ match KnowledgeGapModel.incrementAskCount 7 assigned_gap "scholarship money when?"
             None (KnowledgeGapModel.mkCollection [assigned_gap] 1) with
     | Js.Ok (g', db2) =>
         KnowledgeGapModel.priority assigned_gap = KnowledgeGapModel.normal
         /\ KnowledgeGapModel.askCount g' = 5%Z
         /\ KnowledgeGapModel.priority g' = KnowledgeGapModel.high
         /\ g' ∈ KnowledgeGapModel.docs db2
     | Js.Throw _ => False
     end.
Proof.
  assert (Hassign :
            KnowledgeGapModel.perform (KnowledgeGapModel.AssignTo scholarship_gap "65f1c0a2b3d4e5f60718293a")
              (KnowledgeGapModel.mkCollection [scholarship_gap] 1)
            = Js.Ok (assigned_gap, KnowledgeGapModel.mkCollection [assigned_gap] 1))
    by reflexivity.
  split; [exact Hassign|].
  destruct (KnowledgeGapModel.incrementAskCount 7 assigned_gap "scholarship money when?"
              None (KnowledgeGapModel.mkCollection [assigned_gap] 1))
    as [[g' db2]|e] eqn:Hinc; [|vm_compute in Hinc; discriminate].
  destruct (proj2 priority_is_tier_of_askCount _ _ _ _ _ _ _ _ _ Hassign eq_refl Hinc)
    as (Hnormal & Hfive & Hhigh).
  split; [exact Hnormal|]. split; [exact Hfive|]. split; [exact Hhigh|].
  exact (proj1 (proj1 priority_is_tier_of_askCount
                  (KnowledgeGapModel.IncrementAskCount 7 assigned_gap
                     "scholarship money when?" None)
                  _ _ _ Hinc)).
Defined.

(** ** The chat controller: query rewriting and the session history *)

Section Rewrite.
Import ChatController.

Lemma getSession_history now sessionId userSessions :
  history (getSession now sessionId userSessions).1 = historyOf sessionId userSessions.
Proof.
  unfold getSession, historyOf. by destruct (userSessions !! sessionId).
Qed.

Lemma historyOf_insert sessionId session userSessions :
  historyOf sessionId (<[sessionId := session]> userSessions) = history session.
Proof. unfold historyOf. by rewrite lookup_insert_eq. Qed.

Lemma historyOf_insert_ne sessionId other session userSessions :
  sessionId <> other ->
  historyOf other (<[sessionId := session]> userSessions) = historyOf other userSessions.
Proof. intros Hne. unfold historyOf. by rewrite lookup_insert_ne. Qed.

Lemma updateSessionActivity_history now sessionId userSessions :
  historyOf sessionId (updateSessionActivity now sessionId userSessions)
  = historyOf sessionId userSessions.
Proof.
  unfold updateSessionActivity.
  pose proof (getSession_history now sessionId userSessions) as Hh.
  destruct (getSession now sessionId userSessions) as [session sessions'].
  by rewrite historyOf_insert.
Qed.

(** When the completion returns, the pushed turn is popped again. *)
Lemma transformQuery_returns response now question sessionId userSessions :
  let '(outcome, userSessions') :=
    transformQuery (Js.Ok response) now question sessionId userSessions in
  outcome = Js.Ok response
  /\ historyOf sessionId userSessions' = historyOf sessionId userSessions.
Proof.
  unfold transformQuery.
  pose proof (getSession_history now sessionId userSessions) as Hh.
  destruct (getSession now sessionId userSessions) as [session sessions1].
  split; [done|]. simpl in *.
  rewrite updateSessionActivity_history, historyOf_insert. simpl.
  unfold pop. by rewrite removelast_last.
Qed.

End Rewrite.

(** C3, on the failing path. When the awaited chat completion throws,
    [transformQuery] throws the same error and leaves the raw-question
    turn at the end of the session's history: the history after the call
    is the history before it with one more turn, not the history before
    it. *)
Theorem transformQuery_throw_keeps_turn (error : Js.JsError) (now : Z)
    (question sessionId : string) (userSessions : gmap string ChatController.Session) :
  (ChatController.transformQuery (Js.Throw error) now question sessionId userSessions).1
    = Js.Throw error
  /\ ChatController.historyOf sessionId
       (ChatController.transformQuery (Js.Throw error) now question sessionId userSessions).2
     = ChatController.historyOf sessionId userSessions
       ++ [ChatController.mkTurn ChatController.user question]
  /\ ChatController.historyOf sessionId
       (ChatController.transformQuery (Js.Throw error) now question sessionId userSessions).2
     <> ChatController.historyOf sessionId userSessions.
Proof.
  unfold ChatController.transformQuery.
  pose proof (getSession_history now sessionId userSessions) as Hh.
  destruct (ChatController.getSession now sessionId userSessions) as [session sessions1].
  simpl in *. rewrite historyOf_insert. simpl. rewrite Hh.
  split; [done|]. split; [done|].
  intros Heq. apply (f_equal length) in Heq. rewrite length_app in Heq. simpl in Heq. lia.
Qed.

Example transformQuery_failed_rewrite :
  ChatController.historyOf "s1"
    (ChatController.transformQuery (Js.Throw (Js.ApiError "rate limit")) 5
       "and the deadline?" "s1"
       {[ "s1"%string := ChatController.mkSession
                  [ChatController.mkTurn ChatController.user "What is the hostel fee?";
                   ChatController.mkTurn ChatController.assistant "It is 40000 per year."] 1 ]}).2
  = [ChatController.mkTurn ChatController.user "What is the hostel fee?";
     ChatController.mkTurn ChatController.assistant "It is 40000 per year.";
     ChatController.mkTurn ChatController.user "and the deadline?"].
Proof. vm_compute. reflexivity. Qed.

(** ** The chat controller: the vector reducer *)

Section Reducer.
Import ChatController.

(** The bounds of the specification: exact floors of [i * N / 768]. *)
Definition exactFloor (sourceLength i : nat) : Z :=
  (Z.of_nat i * Z.of_nat sourceLength / Z.of_nat targetLength)%Z.

Definition exactStart (sourceLength i : nat) : nat := Z.to_nat (exactFloor sourceLength i).

(** The binary64 bounds of the source agree with the exact floors, for
    every bound the loop computes. *)
Definition exactBounds (sourceLength : nat) : bool :=
  forallb (fun i => (floorOf sourceLength i =? exactFloor sourceLength i)%Z)
          (seq 0 (S targetLength)).

Lemma reduceDimensions_length vector : length (reduceDimensions vector) = 768.
Proof. unfold reduceDimensions. by rewrite length_map, length_seq. Qed.

Lemma reduceDimensions_nth vector i :
  i < 768 ->
  nth i (reduceDimensions vector) nan
  = bucketMean vector (startOf (length vector) i) (startOf (length vector) (i + 1)).
Proof.
  intros Hi. unfold reduceDimensions.
  rewrite (nth_indep _ nan (bucketMean vector (startOf (length vector) 0)
                              (startOf (length vector) (0 + 1))))
    by (rewrite length_map, length_seq; exact Hi).
  rewrite (map_nth (fun i => bucketMean vector (startOf (length vector) i)
                               (startOf (length vector) (i + 1)))).
  by rewrite seq_nth.
Qed.

Lemma exactBounds_at sourceLength i :
  exactBounds sourceLength = true -> i <= 768 ->
  startOf sourceLength i = exactStart sourceLength i.
Proof.
  unfold exactBounds. rewrite forallb_forall. intros Hall Hi.
  unfold startOf, exactStart. f_equal.
  apply Z.eqb_eq, Hall, in_seq. unfold targetLength. lia.
Qed.

Lemma exactStart_3072 i : exactStart 3072 i = 4 * i.
Proof.
  unfold exactStart, exactFloor, targetLength.
  replace (Z.of_nat i * Z.of_nat 3072)%Z with (Z.of_nat (4 * i) * Z.of_nat 768)%Z by lia.
  rewrite Z.div_mul by lia. apply Nat2Z.id.
Qed.

Lemma nth_replicate_lt (c d : float) n j : j < n -> nth j (replicate n c) d = c.
Proof.
  revert j. induction n as [|n IH]; intros j Hj; [lia|].
  destruct j as [|j]; [done|]. simpl. apply IH. lia.
Qed.

Lemma map_const_seq {A} (x : A) n : forall start,
  map (fun _ => x) (seq start n) = replicate n x.
Proof. induction n as [|n IH]; intros start; simpl; by rewrite ?IH. Qed.

(** A bucket of four inside a constant vector. *)
Lemma bucketMean_constant4 c i :
  i < 768 ->
  bucketMean (replicate 3072 c) (4 * i) (4 * (i + 1)) = ((0 + c + c + c + c) / 4)%float.
Proof.
  intros Hi. unfold bucketMean, sumBucket.
  replace (4 * (i + 1) - 4 * i) with 4 by lia.
  cbn [seq fold_left].
  rewrite !nth_replicate_lt by lia. reflexivity.
Qed.

(** The words of the specification: the source elements at the indices
    from [start] up to [end_], and the mean of a list of numbers, its sum
    accumulated from 0 in index order divided by its length, both in
    binary64. *)
Definition block (vector : list float) (start end_ : nat) : list float :=
  take (end_ - start) (drop start vector).

Definition meanOf (numbers : list float) : float :=
  (fold_left PrimFloat.add numbers 0 / of_nat (length numbers))%float.

Lemma sumBucket_block vector n : forall start sum count,
  start + n <= length vector ->
  fold_left (fun '(sum, count) j => ((sum + nth j vector nan)%float, S count))
            (seq start n) (sum, count)
  = (fold_left PrimFloat.add (take n (drop start vector)) sum, count + n).
Proof.
  induction n as [|n IH]; intros start sum count Hend.
  - simpl. by rewrite Nat.add_0_r.
  - destruct (lookup_lt_is_Some_2 vector start ltac:(lia)) as [x Hx].
    rewrite (drop_S _ _ _ Hx). cbn [seq fold_left take].
    rewrite (nth_lookup_Some _ _ _ _ Hx), IH by lia.
    f_equal. lia.
Qed.

(** The loop of the source computes the mean of the block it is given,
    as long as the block lies within the vector. *)
Lemma bucketMean_block vector start end_ :
  end_ <= length vector -> bucketMean vector start end_ = meanOf (block vector start end_).
Proof.
  intros Hend. unfold bucketMean, sumBucket, meanOf, block.
  destruct (Nat.le_gt_cases start end_) as [Hle|Hgt].
  - rewrite sumBucket_block by lia.
    rewrite length_take, length_drop. cbn [Nat.add].
    by replace ((end_ - start) `min` (length vector - start)) with (end_ - start) by lia.
  - by replace (end_ - start) with 0 by lia.
Qed.

Lemma exactStart_le sourceLength i :
  i <= 768 -> exactStart sourceLength i <= sourceLength.
Proof.
  intros Hi. unfold exactStart, exactFloor, targetLength.
  assert (Z.of_nat i * Z.of_nat sourceLength / Z.of_nat 768 <= Z.of_nat sourceLength)%Z; [|lia].
  apply Z.div_le_upper_bound; nia.
Qed.

Lemma block_replicate (c : float) n start end_ :
  end_ <= n -> block (replicate n c) start end_ = replicate (end_ - start) c.
Proof.
  intros Hend. unfold block. rewrite drop_replicate, take_replicate.
  f_equal. lia.
Qed.

(** The element of a reduced vector: the mean of the block between the
    bounds the source computes. *)
Lemma reduceDimensions_mean vector i :
  i < 768 -> startOf (length vector) (i + 1) <= length vector ->
  nth i (reduceDimensions vector) nan
  = meanOf (block vector (startOf (length vector) i) (startOf (length vector) (i + 1))).
Proof.
  intros Hi Hend. rewrite reduceDimensions_nth by exact Hi.
  by apply bucketMean_block.
Qed.

(** Every bucket the source computes for a vector of [sourceLength]
    elements lies within the vector and holds as many elements as one of
    [sizes]. *)
Definition bucketSizes (sourceLength : nat) (sizes : list Z) : bool :=
  forallb (fun i =>
             let start := floorOf sourceLength i in
             let end_ := floorOf sourceLength (i + 1) in
             (0 <=? start)%Z && (end_ <=? Z.of_nat sourceLength)%Z
             && existsb (Z.eqb (end_ - start)) sizes)
          (seq 0 targetLength).

Lemma reduceDimensions_constant sourceLength sizes (c : float) :
  bucketSizes sourceLength sizes = true ->
  (forall size, In size sizes -> meanOf (replicate (Z.to_nat size) c) = c) ->
  reduceDimensions (replicate sourceLength c) = replicate 768 c.
Proof.
  intros Hsizes Hmean. unfold reduceDimensions. rewrite length_replicate.
  rewrite <- (map_const_seq _ 768 0). apply map_ext_in.
  intros i Hi. unfold bucketSizes in Hsizes. rewrite forallb_forall in Hsizes.
  specialize (Hsizes i Hi). cbv zeta in Hsizes.
  apply andb_true_iff in Hsizes as [Hbounds Hsize].
  apply andb_true_iff in Hbounds as [Hstart Hend].
  apply Z.leb_le in Hstart, Hend.
  apply existsb_exists in Hsize as (size & Hin & Hsize). apply Z.eqb_eq in Hsize.
  rewrite <- (length_replicate sourceLength c) at 1 2.
  rewrite bucketMean_block by (rewrite !length_replicate; unfold startOf; lia).
  rewrite length_replicate, block_replicate by (unfold startOf; lia).
  replace (startOf sourceLength (i + 1) - startOf sourceLength i) with (Z.to_nat size)
    by (unfold startOf; lia).
  by apply Hmean.
Qed.

End Reducer.

(** C4, under binary64 arithmetic. For every input vector the result has
    exactly 768 elements. The element at index [i] is the binary64 mean
    (the sum accumulated from 0 in index order, divided by the count) of
    the source elements between the bounds the source computes in
    binary64, as long as the upper bound is within the vector. When
    these bounds agree with the exact floors of [i * N / 768], as they
    do for [N = 3072], these are the source elements at the indices from
    [floor(i*N/768)] up to [floor((i+1)*N/768)]. In the reduction of a
    constant vector, the element at index [i] is the binary64 mean of as
    many copies of the constant as the bucket holds; a constant vector
    of length 3072 reduces to 768 copies of the binary64 mean of four
    copies of its element; and 784, 1536 or 3072 copies of 0.1 reduce to
    768 copies of 0.1. *)
Theorem reduceDimensions_block_average :
  (forall vector, length (ChatController.reduceDimensions vector) = 768)
  /\ (forall vector i,
        i < 768 ->
        ChatController.startOf (length vector) (i + 1) <= length vector ->
        nth i (ChatController.reduceDimensions vector) nan
        = meanOf (block vector (ChatController.startOf (length vector) i)
                    (ChatController.startOf (length vector) (i + 1))))
  /\ (forall vector i,
        exactBounds (length vector) = true -> i < 768 ->
        nth i (ChatController.reduceDimensions vector) nan
        = meanOf (block vector (exactStart (length vector) i)
                    (exactStart (length vector) (i + 1))))
  /\ exactBounds 3072 = true
  /\ (forall sourceLength c i,
        i < 768 ->
        ChatController.startOf sourceLength (i + 1) <= sourceLength ->
        nth i (ChatController.reduceDimensions (replicate sourceLength c)) nan
        = meanOf (replicate (ChatController.startOf sourceLength (i + 1)
                             - ChatController.startOf sourceLength i) c))
  /\ (forall c, ChatController.reduceDimensions (replicate 3072 c)
                = replicate 768 ((0 + c + c + c + c) / 4)%float)
  /\ (forall sourceLength,
        sourceLength = 784 \/ sourceLength = 1536 \/ sourceLength = 3072 ->
        ChatController.reduceDimensions (replicate sourceLength 0x1.999999999999ap-4%float)
        = replicate 768 0x1.999999999999ap-4%float).
Proof.
  split; [exact reduceDimensions_length|].
  split; [exact reduceDimensions_mean|].
  split.
  { intros vector i Hbounds Hi.
    rewrite reduceDimensions_mean;
      rewrite ?(exactBounds_at _ i Hbounds), ?(exactBounds_at _ (i + 1) Hbounds) by lia;
      [reflexivity | exact Hi | apply exactStart_le; lia]. }
  assert (Hexact : exactBounds 3072 = true) by (vm_compute; reflexivity).
  split; [exact Hexact|].
  split.
  { intros sourceLength c i Hi Hend.
    rewrite <- (length_replicate sourceLength c) in Hend.
    rewrite reduceDimensions_mean by done.
    rewrite length_replicate in *. by rewrite block_replicate. }
  split.
  { intros c. unfold ChatController.reduceDimensions. rewrite length_replicate.
    rewrite <- (map_const_seq _ 768 0). apply map_ext_in.
    intros i Hi. apply in_seq in Hi. unfold ChatController.targetLength in Hi.
    rewrite (exactBounds_at _ i Hexact) by lia.
    rewrite (exactBounds_at _ (i + 1) Hexact) by lia.
    rewrite !exactStart_3072.
    apply bucketMean_constant4. lia. }
  clear Hexact.
  intros sourceLength [->|[->| ->]].
  - apply (reduceDimensions_constant 784 [1; 2]%Z); [vm_compute; reflexivity|].
    intros size [<-|[<-|[]]]; vm_compute; reflexivity.
  - apply (reduceDimensions_constant 1536 [2]%Z); [vm_compute; reflexivity|].
    intros size [<-|[]]; vm_compute; reflexivity.
  - apply (reduceDimensions_constant 3072 [4]%Z); [vm_compute; reflexivity|].
    intros size [<-|[]]; vm_compute; reflexivity.
Qed.

Definition ramp (n : nat) : list float := map ChatController.of_nat (seq 0 n).

Lemma reduceDimensions_block_average_witness :
  exactBounds (length (ramp 3072)) = true
  /\ 5 < 768
  /\ nth 5 (ChatController.reduceDimensions (ramp 3072)) nan
     = meanOf (block (ramp 3072) 20 24)
  /\ meanOf (block (ramp 3072) 20 24) = 21.5%float.
Proof.
  assert (Hlength : length (ramp 3072) = 3072) by reflexivity.
  assert (Hexact : exactBounds (length (ramp 3072)) = true).
  { rewrite Hlength. exact (proj1 (proj2 (proj2 (proj2 reduceDimensions_block_average)))). }
  split; [exact Hexact|]. split; [lia|]. split.
  - rewrite (proj1 (proj2 (proj2 reduceDimensions_block_average)) (ramp 3072) 5 Hexact
               ltac:(lia)).
    rewrite Hlength. reflexivity.
  - vm_compute. reflexivity.
Defined.

(** C4 as stated fails under binary64 arithmetic, in two ways. For a
    vector of length 784 whose element at index [j] is [j], the source
    computes [floor(240 * (784/768))] as 244 where the exact floor is
    245, so the element at index 239 is 243, not the mean 243.5 of the
    elements at 243 and 244. And the first element of the reduction of
    2304 copies of 0.1 is 0.10000000000000002. *)
Lemma reduceDimensions_not_exact_mean :
  (length (ramp 784) = 784
   /\ ChatController.floorOf 784 240 = 244%Z /\ exactFloor 784 240 = 245%Z
   /\ exactStart 784 239 = 243 /\ exactStart 784 240 = 245
   /\ block (ramp 784) 243 245 = [243%float; 244%float]
   /\ meanOf (block (ramp 784) 243 245) = 243.5%float
   /\ nth 239 (ChatController.reduceDimensions (ramp 784)) nan = 243%float)
  /\ (nth 0 (ChatController.reduceDimensions (replicate 2304 0x1.999999999999ap-4%float)) nan
      = 0x1.999999999999bp-4%float).
Proof. repeat split; vm_compute; reflexivity. Qed.

(** ** The QueryLog ledger *)

Section Ledger.
Import QueryLogModel QueryLogController.

(** The [required] paths hold a text. *)
Definition valid (q : QueryLog) : Prop :=
  originalQuestion q <> EmptyString /\ normalizedQuestion q <> EmptyString.

Lemma validate_valid q : validate q = Js.Ok tt <-> valid q.
Proof.
  unfold validate, valid.
  destruct (String.eqb_spec (originalQuestion q) "") as [->|Ho];
    [split; [done | by intros [? _]]|].
  destruct (String.eqb_spec (normalizedQuestion q) "") as [->|Hn];
    [split; [done | by intros [_ ?]]|].
  done.
Qed.

Lemma save_valid now q db :
  valid q -> save now q db = Js.Ok (pre_save now q, write (pre_save now q) db).
Proof. intros Hq. unfold save. by rewrite (proj2 (validate_valid q) Hq). Qed.

Lemma save_inv now q db q' db' :
  save now q db = Js.Ok (q', db') ->
  valid q /\ q' = pre_save now q /\ db' = write q' db.
Proof.
  unfold save. destruct (validate q) as [[]|e] eqn:Hq; [|done].
  simpl. intros [= <- <-]. split; [by apply validate_valid | done].
Qed.

Lemma elem_write q db e :
  e ∈ docs (write q db) -> e = q \/ e ∈ docs db.
Proof.
  unfold write. destruct (existsb _ (docs db)); cbn [docs]; intros He.
  - apply list_elem_of_In, in_map_iff in He as (d & Hd & Hin).
    destruct (_id d =? _id q); [by left | right].
    subst e. by apply list_elem_of_In.
  - apply elem_of_app in He as [He|He]; [by right | left].
    by apply list_elem_of_singleton in He.
Qed.

Lemma write_elem q db : q ∈ docs (write q db).
Proof.
  unfold write. destruct (existsb _ (docs db)) eqn:Hknown; cbn [docs].
  - apply existsb_exists in Hknown as (d & Hd & Hid).
    apply list_elem_of_In, in_map_iff. exists d. by rewrite Hid.
  - apply elem_of_app. right. by apply list_elem_of_singleton.
Qed.

Lemma Forall_write (P : QueryLog -> Prop) q db :
  P q -> Forall P (docs db) -> Forall P (docs (write q db)).
Proof.
  intros Hq Hdb. apply Forall_forall. intros e He.
  apply elem_write in He as [->|He]; [done|].
  rewrite Forall_forall in Hdb. by apply Hdb.
Qed.

Lemma findSimilarLoop_elem {A} `{HasNormalizedQuestion A} q t (rest : list A) :
  forall mostSimilar highest m,
    findSimilarLoop q t rest mostSimilar highest = Some m ->
    mostSimilar = Some m \/ m ∈ rest.
Proof.
  induction rest as [|query rest IH]; intros mostSimilar highest m Hm; simpl in Hm.
  - by left.
  - destruct (Qltb highest (similarityTo q query) && Qle_bool t (similarityTo q query));
      apply IH in Hm as [Hm|Hm].
    + injection Hm as ->. right. left.
    + right. by right.
    + by left.
    + right. by right.
Qed.

Lemma findSimilarQuery_elem {A} `{HasNormalizedQuestion A} q t (existing : list A) m :
  findSimilarQuery q existing t = Some m -> m ∈ existing.
Proof.
  destruct existing as [|query rest]; [done|].
  intros Hm. by apply findSimilarLoop_elem in Hm as [Hm|Hm].
Qed.

Lemma find_elem filter db e : e ∈ find filter db <-> e ∈ docs db /\ filter e = true.
Proof. unfold find. rewrite list_elem_of_In, filter_In, <- list_elem_of_In. done. Qed.

Abbreviation unanswered := (find (fun q => negb (answered q))).

(** The two paths of [logUnansweredQuery]. *)
Lemma logUnansweredQuery_update completion now originalQuestion userId db n similarQuery :
  normalizeQuery completion originalQuestion = Js.Ok n ->
  findSimilarQuery n (unanswered db) (7 # 10) = Some similarQuery ->
  logUnansweredQuery completion now originalQuestion userId db
  = save now (updateExisting similarQuery now originalQuestion userId) db.
Proof.
  intros Hn Hsim. unfold logUnansweredQuery. rewrite Hn. simpl. rewrite Hsim.
  by destruct (save now _ db).
Qed.

Lemma logUnansweredQuery_create completion now originalQuestion userId db n :
  normalizeQuery completion originalQuestion = Js.Ok n ->
  findSimilarQuery n (unanswered db) (7 # 10) = None ->
  logUnansweredQuery completion now originalQuestion userId db
  = save now (newQueryLog (nextId db) now originalQuestion n userId) db.
Proof.
  intros Hn Hsim. unfold logUnansweredQuery. rewrite Hn. simpl. rewrite Hsim.
  by destruct (save now _ db).
Qed.

(** What a successful call did. *)
Lemma logUnansweredQuery_inv completion now originalQuestion userId db entry db' :
  logUnansweredQuery completion now originalQuestion userId db = Js.Ok (entry, db') ->
  exists n,
    normalizeQuery completion originalQuestion = Js.Ok n
    /\ db' = write entry db
    /\ ((exists sq, findSimilarQuery n (unanswered db) (7 # 10) = Some sq
                    /\ sq ∈ docs db /\ answered sq = false
                    /\ entry = pre_save now (updateExisting sq now originalQuestion userId))
        \/ (findSimilarQuery n (unanswered db) (7 # 10) = None
            /\ valid (newQueryLog (nextId db) now originalQuestion n userId)
            /\ entry = pre_save now
                         (newQueryLog (nextId db) now originalQuestion n userId))).
Proof.
  destruct (normalizeQuery_returns completion originalQuestion) as [n Hn].
  intros Hlog. exists n. split; [done|].
  destruct (findSimilarQuery n (unanswered db) (7 # 10)) as [sq|] eqn:Hsim.
  - rewrite (logUnansweredQuery_update _ _ _ _ _ _ _ Hn Hsim) in Hlog.
    apply save_inv in Hlog as (_ & -> & ->). split; [done|]. left. exists sq.
    apply findSimilarQuery_elem, find_elem in Hsim as [Hsq Hopen].
    apply negb_true_iff in Hopen. done.
  - rewrite (logUnansweredQuery_create _ _ _ _ _ _ Hn Hsim) in Hlog.
    apply save_inv in Hlog as (Hvalid & -> & ->). split; [done|]. by right.
Qed.

Lemma findById_elem id db query :
  findById id db = Some query -> query ∈ docs db /\ _id query = id.
Proof.
  intros Hfind. apply find_some in Hfind as [Hin Hid].
  split; [by apply list_elem_of_In | by apply Nat.eqb_eq].
Qed.

(** A property of entries that each request keeps. *)
Lemma handle_Forall (P : QueryLog -> Prop) r db :
  (forall e now, P e -> P (pre_save now e)) ->
  (forall completion now originalQuestion userId,
     r = LogUnanswered completion now originalQuestion userId ->
     (forall sq, P sq -> P (updateExisting sq now originalQuestion userId))
     /\ (forall id n, valid (newQueryLog id now originalQuestion n userId) ->
                      P (newQueryLog id now originalQuestion n userId))) ->
  (forall query now, P query -> P (answeredVersion query now)) ->
  Forall P (docs db) -> Forall P (docs (handle r db)).
Proof.
  intros Hpre Hlog Hmark Hdb.
  assert (Hdb' := Hdb). rewrite Forall_forall in Hdb'.
  destruct r as [completion now originalQuestion userId|now id|id]; simpl.
  - destruct (logUnansweredQuery _ _ _ _ db) as [[entry db']|e] eqn:Hcall; [|done].
    destruct (Hlog _ _ _ _ eq_refl) as [Hupdate Hnew].
    apply logUnansweredQuery_inv in Hcall
      as (n & _ & -> & [(sq & _ & Hsq & _ & ->)|(_ & Hvalid & ->)]);
      apply Forall_write; auto.
  - unfold markQueryAsAnswered. destruct (findById id db) as [query|] eqn:Hfind; [|done].
    destruct (save now _ db) as [[q' db']|e] eqn:Hsave; [|done].
    apply save_inv in Hsave as (_ & -> & ->).
    apply findById_elem in Hfind as [Hin _]. apply Forall_write; auto.
  - unfold deleteQuery, findByIdAndDelete. cbn [snd docs].
    apply Forall_forall. intros d Hd. apply list_elem_of_In, filter_In in Hd as [Hd _].
    by apply Hdb', list_elem_of_In.
Qed.

(** The aggregation invariant of one entry: the ask count is the number
    of occurrence records, and the null identifier is listed at most
    once. *)
Definition entry_ok (e : QueryLog) : Prop :=
  askCount e = Z.of_nat (length (originalQuestions e))
  /\ count_occ (fun x y : option string => decide (x = y)) (askedByUsers e) None <= 1
  /\ valid e.

Lemma count_occ_absent (l : list (option string)) x :
  x ∉ l -> count_occ (fun x y : option string => decide (x = y)) l x = 0.
Proof. intros Hx. apply count_occ_not_In. by rewrite <- list_elem_of_In. Qed.

Lemma handle_ok r db : Forall entry_ok (docs db) -> Forall entry_ok (docs (handle r db)).
Proof.
  apply handle_Forall.
  - by intros e now (? & ? & ?).
  - intros completion now originalQuestion userId _. split.
    + intros sq (Hcount & Hnull & Hvalid). split; [|split]; simpl.
      * rewrite length_app, Hcount. simpl. lia.
      * case_bool_decide as Hin; [done|].
        rewrite count_occ_app. cbn [count_occ].
        destruct userId as [u|]; cbn [castAsker option_map].
        -- rewrite decide_False by done. lia.
        -- rewrite decide_True by done. rewrite (count_occ_absent _ _ Hin). lia.
      * done.
    + intros id n Hvalid. split; [done|]. split; [|done]. simpl.
      destruct userId as [u|]; simpl; [|lia].
      destruct (negb (u =? "")%string); cbn [count_occ]; [|lia].
      rewrite decide_False by done. lia.
  - by intros query now (? & ? & ?).
Qed.

Lemma run_ok rs : forall db,
  Forall entry_ok (docs db) -> Forall entry_ok (docs (run rs db)).
Proof.
  induction rs as [|r rs IH]; intros db Hdb; [done|].
  simpl. by apply IH, handle_ok.
Qed.

(** A request whose asker identifier is stored as it was passed. *)
Definition plain_asker (r : request) : Prop :=
  match r with
  | LogUnanswered _ _ _ userId => castAsker userId = userId
  | _ => True
  end.

Lemma handle_NoDup r db :
  plain_asker r ->
  Forall (fun e => NoDup (askedByUsers e)) (docs db) ->
  Forall (fun e => NoDup (askedByUsers e)) (docs (handle r db)).
Proof.
  intros Hplain. apply handle_Forall; [done| |done].
  intros completion now originalQuestion userId ->. simpl in Hplain. split.
  - intros sq Hnodup. simpl. case_bool_decide as Hin; [done|].
    rewrite Hplain. apply NoDup_app. split; [done|]. split; [|apply NoDup_singleton].
    intros u Hu Hu'. apply list_elem_of_singleton in Hu' as ->. done.
  - intros id n _. simpl.
    destruct (Js.truthy userId); [apply NoDup_singleton | apply NoDup_nil_2].
Qed.

Lemma run_NoDup rs : forall db,
  Forall plain_asker rs ->
  Forall (fun e => NoDup (askedByUsers e)) (docs db) ->
  Forall (fun e => NoDup (askedByUsers e)) (docs (run rs db)).
Proof.
  induction rs as [|r rs IH]; intros db Hplain Hdb; [done|].
  apply Forall_cons in Hplain as [Hr Hrs]. simpl. by apply IH, handle_NoDup.
Qed.

(** A candidate as similar as the question to itself is the match of a
    one-entry pool; the stored text may be the trimmed question. *)
Lemma findSimilarQuery_same n (e : QueryLog) :
  normalizedQuestion e = castText n -> findSimilarQuery n [e] (7 # 10) = Some e.
Proof.
  intros Hn. unfold findSimilarQuery, findSimilarLoop.
  assert (Hone : (similarityTo n e == 1)%Q).
  { unfold similarityTo, normalizedQuestionOf, QueryLog_normalized.
    rewrite Hn. unfold castText. rewrite similarity_trim_r. apply similarity_refl. }
  assert (Hlt : Qltb 0 (similarityTo n e) = true).
  { apply Qltb_true. by rewrite Hone. }
  assert (Hle : Qle_bool (7 # 10) (similarityTo n e) = true).
  { apply Qle_bool_iff. by rewrite Hone. }
  by rewrite Hlt, Hle.
Qed.

End Ledger.

Section Aggregation.
Import QueryLogModel QueryLogController.

(** X25. Whatever the requests, the ask count of every entry of a ledger
    reached from the empty one is the number of its occurrence records. *)
Lemma ledger_counts rs e :
  e ∈ docs (run rs empty) -> askCount e = Z.of_nat (length (originalQuestions e)).
Proof.
  intros He. pose proof (run_ok rs empty (Forall_nil_2 _)) as Hok.
  rewrite Forall_forall in Hok. by destruct (Hok e He).
Qed.

(** X26. When every asker identifier is stored as it was passed (it has
    no white space around it), no asker appears twice in an entry of a
    ledger reached from the empty one. *)
Lemma ledger_askers_distinct rs e :
  Forall plain_asker rs -> e ∈ docs (run rs empty) -> NoDup (askedByUsers e).
Proof.
  intros Hplain He. pose proof (run_NoDup rs empty Hplain (Forall_nil_2 _)) as Hok.
  rewrite Forall_forall in Hok. exact (Hok e He).
Qed.

(** Two questions with the same normalized text, logged one after the
    other into the empty ledger, leave one entry with ask count 2; its
    asker list holds the two identifiers as the setter stores them. *)
Lemma two_askers_one_entry completion1 completion2 now1 now2 question1 question2
    asker1 asker2 n :
  normalizeQuery completion1 question1 = Js.Ok n ->
  normalizeQuery completion2 question2 = Js.Ok n ->
  castText question1 <> EmptyString -> castText n <> EmptyString ->
  asker1 <> EmptyString -> asker2 <> Js.trim asker1 ->
  exists e,
    docs (run [LogUnanswered completion1 now1 question1 (Some asker1);
               LogUnanswered completion2 now2 question2 (Some asker2)] empty) = [e]
    /\ askCount e = 2%Z
    /\ askedByUsers e = [Some (Js.trim asker1); Some (Js.trim asker2)]
    /\ length (originalQuestions e) = 2.
Proof.
  intros Hn1 Hn2 Hq1 Hn Hasker Hdiff.
  unfold run. cbn [fold_left handle].
  rewrite (logUnansweredQuery_create completion1 now1 question1 (Some asker1)
             empty n Hn1 eq_refl).
  assert (Htruthy : Js.truthy (Some asker1) = true).
  { simpl. by apply negb_true_iff, String.eqb_neq. }
  rewrite save_valid by done.
  unfold write at 1. cbn [existsb docs empty app].
  erewrite logUnansweredQuery_update;
    [|exact Hn2 | apply findSimilarQuery_same; reflexivity].
  rewrite save_valid by done.
  unfold write, updateExisting, newQueryLog.
  rewrite Htruthy. cbn -[Z.add bool_decide].
  rewrite bool_decide_eq_false_2.
  2:{ intros Hin. apply list_elem_of_singleton in Hin. congruence. }
  eexists. split; [reflexivity|]. done.
Qed.

End Aggregation.

(** C2, where it fails. An asker whose identifier has white space around
    it is listed twice after asking twice: the entry is created with the
    trimmed identifier, [includes] is then asked for the identifier as
    passed, does not find it, and [push] stores the trimmed identifier
    again. The ask count, 2, is the number of occurrence records. *)
Theorem padded_asker_listed_twice completion1 completion2 now1 now2 question1 question2
    asker n :
  normalizeQuery completion1 question1 = Js.Ok n ->
  normalizeQuery completion2 question2 = Js.Ok n ->
  QueryLogModel.castText question1 <> EmptyString ->
  QueryLogModel.castText n <> EmptyString ->
  asker <> EmptyString -> Js.trim asker <> asker ->
  exists e,
    QueryLogModel.docs
      (QueryLogController.run
         [QueryLogController.LogUnanswered completion1 now1 question1 (Some asker);
          QueryLogController.LogUnanswered completion2 now2 question2 (Some asker)]
         QueryLogModel.empty) = [e]
    /\ QueryLogModel.askCount e = 2%Z
    /\ QueryLogModel.askedByUsers e = [Some (Js.trim asker); Some (Js.trim asker)]
    /\ ~ NoDup (QueryLogModel.askedByUsers e).
Proof.
  intros Hn1 Hn2 Hq1 Hn Hasker Hpadded.
  destruct (two_askers_one_entry completion1 completion2 now1 now2 question1 question2
              asker asker n Hn1 Hn2 Hq1 Hn Hasker ltac:(congruence))
    as (e & Hdocs & Hcount & Haskers & _).
  exists e. split; [done|]. split; [done|]. split; [done|].
  rewrite Haskers. intros Hnodup. apply NoDup_cons in Hnodup as [Hnotin _].
  apply Hnotin. left.
Qed.

Lemma padded_asker_listed_twice_witness :
  exists e,
    QueryLogModel.docs
      (QueryLogController.run
         [QueryLogController.LogUnanswered
            (Js.Ok (Some "What is the hostel fee?")) 10
            "hostel fee kitni hai?" (Some " u1");
          QueryLogController.LogUnanswered
            (Js.Ok (Some "What is the hostel fee?")) 20
            "How much is the hostel fee" (Some " u1")]
         QueryLogModel.empty) = [e]
    /\ QueryLogModel.askCount e = 2%Z
    /\ QueryLogModel.askedByUsers e = [Some (Js.trim " u1"); Some (Js.trim " u1")]
    /\ ~ NoDup (QueryLogModel.askedByUsers e).
Proof.
  apply (padded_asker_listed_twice _ _ 10%Z 20%Z _ _ " u1"%string
           "What is the hostel fee?"%string);
    [reflexivity | reflexivity | discriminate | discriminate | discriminate | discriminate].
Defined.

(** C10. A call of [logUnansweredQuery] without an asker identifier
    (null or undefined) that finds no similar unanswered entry creates an
    entry with an empty asker list; one that finds a similar unanswered
    entry appends the null identifier to that entry's asker list unless
    the list holds it already. In every ledger reached from the empty one
    the null identifier occurs at most once in an asker list. *)
Theorem anonymous_asker_asymmetry :
  (forall completion now originalQuestion db n,
     normalizeQuery completion originalQuestion = Js.Ok n ->
     findSimilarQuery n
       (QueryLogModel.find (fun q => negb (QueryLogModel.answered q)) db) (7 # 10) = None ->
     QueryLogModel.castText originalQuestion <> EmptyString ->
     QueryLogModel.castText n <> EmptyString ->
     exists entry db',
       QueryLogController.logUnansweredQuery completion now originalQuestion None db
       = Js.Ok (entry, db')
       /\ entry ∈ QueryLogModel.docs db'
       /\ QueryLogModel.askCount entry = 1%Z
       /\ QueryLogModel.askedByUsers entry = [])
  /\ (forall completion now originalQuestion db n similarQuery,
        normalizeQuery completion originalQuestion = Js.Ok n ->
        findSimilarQuery n
          (QueryLogModel.find (fun q => negb (QueryLogModel.answered q)) db) (7 # 10)
        = Some similarQuery ->
        valid similarQuery ->
        exists entry db',
          QueryLogController.logUnansweredQuery completion now originalQuestion None db
          = Js.Ok (entry, db')
          /\ entry ∈ QueryLogModel.docs db'
          /\ QueryLogModel._id entry = QueryLogModel._id similarQuery
          /\ QueryLogModel.askedByUsers entry
             = (if bool_decide (None ∈ QueryLogModel.askedByUsers similarQuery)
                then QueryLogModel.askedByUsers similarQuery
                else QueryLogModel.askedByUsers similarQuery ++ [None])
          /\ None ∈ QueryLogModel.askedByUsers entry)
  /\ (forall rs e,
        e ∈ QueryLogModel.docs (QueryLogController.run rs QueryLogModel.empty) ->
        count_occ (fun x y : option string => decide (x = y))
                  (QueryLogModel.askedByUsers e) None <= 1).
Proof.
  split; [|split].
  - intros completion now originalQuestion db n Hn Hsim Hq Hnq.
    rewrite (logUnansweredQuery_create _ _ _ _ _ _ Hn Hsim).
    rewrite save_valid by done.
    eexists _, _. split; [reflexivity|]. split; [apply write_elem | done].
  - intros completion now originalQuestion db n similarQuery Hn Hsim Hvalid.
    rewrite (logUnansweredQuery_update _ _ _ _ _ _ _ Hn Hsim).
    rewrite save_valid by done.
    eexists _, _. split; [reflexivity|]. split; [apply write_elem|].
    split; [done|]. split; [done|].
    simpl. case_bool_decide; [done|]. apply elem_of_app. right. by left.
  - intros rs e He.
    pose proof (run_ok rs QueryLogModel.empty (Forall_nil_2 _)) as Hok.
    rewrite Forall_forall in Hok. by destruct (Hok e He) as (_ & Hnull & _).
Qed.

Definition hostel_entry : QueryLogModel.QueryLog :=
  QueryLogModel.mkQueryLog 0 "hostel fee kitni hai?" "What is the hostel fee?"
    false QueryLogModel.none [Some "u1"]%string 1
    [QueryLogModel.mkOccurrence "hostel fee kitni hai?" 10] 10 10 10.

Lemma anonymous_asker_asymmetry_witness :
  (exists entry db',
     QueryLogController.logUnansweredQuery (Js.Ok (Some "What is the hostel fee?")) 20
       "How much is the hostel fee" None QueryLogModel.empty = Js.Ok (entry, db')
     /\ entry ∈ QueryLogModel.docs db'
     /\ QueryLogModel.askCount entry = 1%Z
     /\ QueryLogModel.askedByUsers entry = [])
  /\ (exists entry db',
        QueryLogController.logUnansweredQuery (Js.Ok (Some "What is the hostel fee?")) 20
          "How much is the hostel fee" None (QueryLogModel.mkCollection [hostel_entry] 1)
        = Js.Ok (entry, db')
        /\ entry ∈ QueryLogModel.docs db'
        /\ QueryLogModel._id entry = 0
        /\ QueryLogModel.askedByUsers entry = [Some "u1"%string; None]
        /\ None ∈ QueryLogModel.askedByUsers entry).
Proof.
  split.
  - apply (proj1 anonymous_asker_asymmetry _ 20%Z _ QueryLogModel.empty
             "What is the hostel fee?"%string);
      [reflexivity | reflexivity | discriminate | discriminate].
  - apply (proj1 (proj2 anonymous_asker_asymmetry) _ 20%Z _
             (QueryLogModel.mkCollection [hostel_entry] 1)
             "What is the hostel fee?"%string hostel_entry);
      [reflexivity | vm_compute; reflexivity | split; discriminate].
Defined.

(** ** Resolved entries and later occurrences *)

Section Isolation.
Import QueryLogModel QueryLogController.

Abbreviation unanswered := (find (fun q => negb (answered q))).

(** Identifiers are distinct and below the next one to be given. *)
Definition ids_ok (db : Collection) : Prop :=
  NoDup (map _id (docs db)) /\ Forall (fun d => _id d < nextId db) (docs db).

(** Two unanswered entries of the ledger are never similar enough to be
    matched with one another. *)
Definition dissimilar (db : Collection) : Prop :=
  forall e1 e2, e1 ∈ docs db -> e2 ∈ docs db -> _id e1 <> _id e2 ->
    answered e1 = false -> answered e2 = false ->
    (similarityTo (normalizedQuestion e1) e2 < 7 # 10)%Q.

Definition ledger_inv (db : Collection) : Prop := ids_ok db /\ dissimilar db.

Lemma existsb_none {A} (f : A -> bool) (l : list A) :
  (forall x, x ∈ l -> f x = false) -> existsb f l = false.
Proof.
  intros Hall. apply not_true_iff_false. intros Hex.
  apply existsb_exists in Hex as (x & Hx & Hf). apply list_elem_of_In in Hx.
  rewrite (Hall x Hx) in Hf. done.
Qed.

Lemma write_known q db :
  (exists d, d ∈ docs db /\ _id d = _id q) ->
  write q db
  = mkCollection (map (fun d => if _id d =? _id q then q else d) (docs db)) (nextId db).
Proof.
  intros (d & Hd & Hid). unfold write.
  rewrite (proj2 (existsb_exists _ _)); [done|].
  exists d. split; [by apply list_elem_of_In | by apply Nat.eqb_eq].
Qed.

Lemma write_fresh q db :
  Forall (fun d => _id d < _id q) (docs db) ->
  write q db = mkCollection (docs db ++ [q]) (Nat.max (nextId db) (S (_id q))).
Proof.
  intros Hids. unfold write. rewrite existsb_none; [done|].
  intros d Hd. apply Nat.eqb_neq. rewrite Forall_forall in Hids.
  specialize (Hids d Hd). lia.
Qed.

Lemma NoDup_ids_eq (l : list QueryLog) d e :
  NoDup (map _id l) -> d ∈ l -> e ∈ l -> _id d = _id e -> d = e.
Proof.
  induction l as [|x l IH]; intros Hnd Hd He Hid; [by apply elem_of_nil in Hd|].
  rewrite fmap_cons in Hnd. apply NoDup_cons in Hnd as [Hx Hnd].
  apply elem_of_cons in Hd as [->|Hd]; apply elem_of_cons in He as [->|He]; try done.
  - exfalso. apply Hx. rewrite Hid. by apply list_elem_of_fmap_2.
  - exfalso. apply Hx. rewrite <- Hid. by apply list_elem_of_fmap_2.
  - by apply IH.
Qed.

Lemma similarityTo_sym (e1 e2 : QueryLog) :
  similarityTo (normalizedQuestion e1) e2 = similarityTo (normalizedQuestion e2) e1.
Proof. apply similarity_sym. Qed.

Lemma elem_replace (q' : QueryLog) l e' :
  e' ∈ map (fun d => if _id d =? _id q' then q' else d) l ->
  (e' ∈ l /\ _id e' <> _id q') \/ (e' = q' /\ exists d, d ∈ l /\ _id d = _id q').
Proof.
  intros He'. apply list_elem_of_In, in_map_iff in He' as (d & Hd & Hin).
  apply list_elem_of_In in Hin.
  destruct (Nat.eqb_spec (_id d) (_id q')) as [Heq|Hne]; subst e'; eauto.
Qed.

Lemma ids_replace (q' : QueryLog) l :
  map _id (map (fun d => if _id d =? _id q' then q' else d) l) = map _id l.
Proof.
  rewrite map_map. apply map_ext. intros d.
  by destruct (Nat.eqb_spec (_id d) (_id q')).
Qed.

(** Writing back an entry that keeps its identifier, its normalized
    question and, when unanswered, its unanswered state. *)
Lemma replace_inv (sq q' : QueryLog) db :
  sq ∈ docs db -> _id q' = _id sq -> normalizedQuestion q' = normalizedQuestion sq ->
  (answered q' = false -> answered sq = false) ->
  ledger_inv db -> ledger_inv (write q' db).
Proof.
  intros Hsq Hid Hnq Hans [[Hnodup Hids] Hdis].
  rewrite write_known by (exists sq; done).
  assert (Hold : forall e', e' ∈ map (fun d => if _id d =? _id q' then q' else d) (docs db) ->
            exists o, o ∈ docs db /\ _id o = _id e'
                      /\ normalizedQuestion o = normalizedQuestion e'
                      /\ (answered e' = false -> answered o = false)).
  { intros e' He'. apply elem_replace in He' as [[He' _]|[-> _]]; [by exists e'|].
    exists sq. by rewrite Hid, Hnq. }
  split; [split|]; cbn [docs nextId].
  - by rewrite ids_replace.
  - apply Forall_forall. intros e' He'. destruct (Hold e' He') as (o & Ho & <- & _).
    rewrite Forall_forall in Hids. by apply Hids.
  - intros e1 e2 He1 He2 Hne Ha1 Ha2.
    destruct (Hold e1 He1) as (o1 & Ho1 & Hid1 & Hnq1 & Hans1).
    destruct (Hold e2 He2) as (o2 & Ho2 & Hid2 & Hnq2 & Hans2).
    unfold similarityTo, normalizedQuestionOf, QueryLog_normalized.
    rewrite <- Hnq1, <- Hnq2. apply (Hdis o1 o2); auto. congruence.
Qed.

(** Inserting an entry that no unanswered entry is similar to. *)
Lemma append_inv (q' : QueryLog) db :
  _id q' = nextId db ->
  (forall c, c ∈ docs db -> answered c = false ->
             (similarityTo (normalizedQuestion q') c < 7 # 10)%Q) ->
  ledger_inv db -> ledger_inv (write q' db).
Proof.
  intros Hid Hlow [[Hnodup Hids] Hdis].
  rewrite write_fresh by (by rewrite Hid).
  rewrite Forall_forall in Hids.
  split; [split|]; cbn [docs nextId].
  - rewrite map_app. apply NoDup_app. split; [done|]. split; [|apply NoDup_singleton].
    intros id Hin Hin'. apply list_elem_of_singleton in Hin'. subst id.
    apply list_elem_of_fmap in Hin as (d & Hd & Hin). specialize (Hids d Hin). lia.
  - apply Forall_app. split.
    + apply Forall_forall. intros d Hd. specialize (Hids d Hd). lia.
    + apply Forall_singleton. lia.
  - intros e1 e2 He1 He2 Hne Ha1 Ha2.
    apply elem_of_app in He1 as [He1|He1]; apply elem_of_app in He2 as [He2|He2].
    + by apply Hdis.
    + apply list_elem_of_singleton in He2 as ->.
      rewrite similarityTo_sym. by apply Hlow.
    + apply list_elem_of_singleton in He1 as ->. by apply Hlow.
    + apply list_elem_of_singleton in He1 as ->.
      apply list_elem_of_singleton in He2 as ->. done.
Qed.

Lemma findSimilarQuery_None_iff n (pool : list QueryLog) :
  findSimilarQuery n pool (7 # 10) = None
  <-> forall c, c ∈ pool -> (similarityTo n c < 7 # 10)%Q.
Proof.
  destruct (findSimilarQuery_state n (7 # 10) ltac:(reflexivity) pool) as [h Hstate].
  destruct (findSimilarQuery n pool (7 # 10)) as [m|]; simpl in Hstate.
  - destruct Hstate as (_ & Htm & i & Hi & _). split; [done|]. intros Hlow. exfalso.
    apply (Qlt_not_le _ _ (Hlow m ltac:(apply list_elem_of_lookup; eauto))), Htm.
  - by destruct Hstate as [_ Hall].
Qed.

(** The stored text of a new entry is the trimmed normalized question,
    which is as similar to any entry as the question itself. *)
Lemma similarityTo_castText n (c : QueryLog) :
  similarityTo (castText n) c = similarityTo n c.
Proof. unfold similarityTo, castText. apply similarity_trim_l. Qed.

Lemma logUnansweredQuery_keeps_inv completion now originalQuestion userId db entry db' :
  ledger_inv db ->
  logUnansweredQuery completion now originalQuestion userId db = Js.Ok (entry, db') ->
  ledger_inv db'.
Proof.
  intros Hinv Hcall.
  apply logUnansweredQuery_inv in Hcall
    as (n & _ & -> & [(sq & _ & Hsq & _ & ->)|(Hsim & _ & ->)]).
  - by apply (replace_inv sq).
  - apply append_inv; [done| |done].
    intros c Hc Hopen. cbn [pre_save newQueryLog normalizedQuestion].
    rewrite similarityTo_castText.
    apply (proj1 (findSimilarQuery_None_iff n _) Hsim).
    apply find_elem. by rewrite Hopen.
Qed.

Lemma handle_inv r db : ledger_inv db -> ledger_inv (handle r db).
Proof.
  intros Hinv. destruct r as [completion now originalQuestion userId|now id|id]; simpl.
  - destruct (logUnansweredQuery _ _ _ _ db) as [[entry db']|e] eqn:Hcall; [|done].
    by eapply logUnansweredQuery_keeps_inv.
  - unfold markQueryAsAnswered. destruct (findById id db) as [query|] eqn:Hfind; [|done].
    destruct (save now _ db) as [[q' db']|e] eqn:Hsave; [|done].
    apply save_inv in Hsave as (_ & -> & ->).
    apply findById_elem in Hfind as [Hin _]. by apply (replace_inv query).
  - destruct Hinv as [[Hnodup Hids] Hdis].
    unfold deleteQuery, findByIdAndDelete. cbn [snd].
    assert (Hsub : forall d, d ∈ List.filter (fun d => negb (_id d =? id)) (docs db) ->
                             d ∈ docs db).
    { intros d Hd. by apply list_elem_of_In, filter_In in Hd as [Hd%list_elem_of_In _]. }
    split; [split|]; cbn [docs nextId].
    + apply NoDup_ListNoDup. apply NoDup_ListNoDup in Hnodup.
      clear -Hnodup. induction (docs db) as [|d l IH]; [done|].
      simpl in *. apply List.NoDup_cons_iff in Hnodup as [Hd Hnodup].
      destruct (negb (_id d =? id)); [|by apply IH].
      simpl. apply List.NoDup_cons; [|by apply IH].
      intros Hin. apply Hd. apply in_map_iff in Hin as (x & Hx & Hin).
      apply filter_In in Hin as [Hin _]. apply in_map_iff. eauto.
    + apply Forall_forall. intros d Hd. rewrite Forall_forall in Hids. by apply Hids, Hsub.
    + intros e1 e2 He1 He2. apply Hdis; by apply Hsub.
Qed.

Lemma run_inv rs : forall db, ledger_inv db -> ledger_inv (run rs db).
Proof.
  induction rs as [|r rs IH]; intros db Hinv; [done|].
  simpl. by apply IH, handle_inv.
Qed.

Lemma empty_inv : ledger_inv empty.
Proof.
  split; [split|]; simpl.
  - apply NoDup_nil_2.
  - apply Forall_nil_2.
  - intros e1 e2 He1. by apply elem_of_nil in He1.
Qed.

(** X29. On the QueryLog path an answered entry is out of the pool:
    logging an unanswered question leaves it in the ledger as it was, and
    the entry that is created or updated is another one. *)
Lemma logUnansweredQuery_keeps_answered completion now originalQuestion userId db
    entry db' e :
  ids_ok db -> e ∈ docs db -> answered e = true ->
  logUnansweredQuery completion now originalQuestion userId db = Js.Ok (entry, db') ->
  e ∈ docs db' /\ _id entry <> _id e.
Proof.
  intros [Hnodup Hids] He Hanswered Hcall.
  apply logUnansweredQuery_inv in Hcall
    as (n & _ & -> & [(sq & _ & Hsq & Hopen & ->)|(_ & _ & ->)]).
  - assert (Hne : _id e <> _id sq).
    { intros Hid. apply (NoDup_ids_eq _ _ _ Hnodup He Hsq) in Hid. congruence. }
    rewrite write_known by (exists sq; done).
    split; [|simpl; congruence].
    cbn [docs]. apply list_elem_of_In, in_map_iff. exists e.
    split; [|by apply list_elem_of_In].
    cbn [pre_save updateExisting _id]. by rewrite (proj2 (Nat.eqb_neq _ _) Hne).
  - rewrite write_fresh by done.
    split; [cbn [docs]; apply elem_of_app; by left|].
    simpl. rewrite Forall_forall in Hids. specialize (Hids e He). lia.
Qed.

(** X27. The QueryLog path of resolved-entry isolation. In a ledger
    reached from the empty one, once the unanswered entry [E] has been
    marked answered, the next question whose normalized text is that of
    [E] creates a new entry with ask count 1 under a new identifier; the
    answered entry stays in the ledger with its ask count and askers. *)
Lemma queryLog_resolved_entry_isolated rs E now2 completion now3 originalQuestion userId n :
  let db := run rs empty in
  let db2 := markQueryAsAnswered now2 (_id E) db in
  E ∈ docs db -> answered E = false ->
  normalizeQuery completion originalQuestion = Js.Ok n ->
  castText n = normalizedQuestion E ->
  castText originalQuestion <> EmptyString ->
  exists entry db3,
    logUnansweredQuery completion now3 originalQuestion userId db2 = Js.Ok (entry, db3)
    /\ askCount entry = 1%Z
    /\ _id entry <> _id E
    /\ docs db3 = docs db2 ++ [entry]
    /\ pre_save now2 (answeredVersion E now2) ∈ docs db2.
Proof.
  intros db db2 HE Hopen Hn HnE Hquestion.
  pose proof (run_inv rs empty empty_inv) as Hinv. fold db in Hinv.
  pose proof (run_ok rs empty (Forall_nil_2 _)) as Hok. fold db in Hok.
  rewrite Forall_forall in Hok. destruct (Hok E HE) as (_ & _ & HvalidE).
  assert (Hinv2 : ledger_inv db2) by apply (handle_inv (MarkAnswered now2 (_id E)) db Hinv).
  destruct Hinv as [[Hnodup Hids] Hdis].
  assert (Hfind : findById (_id E) db = Some E).
  { destruct (findById (_id E) db) as [query|] eqn:Hfind.
    - apply findById_elem in Hfind as [Hin Hid].
      by rewrite (NoDup_ids_eq _ _ _ Hnodup Hin HE Hid).
    - exfalso. unfold findById in Hfind.
      pose proof (find_none _ _ Hfind E (proj1 (list_elem_of_In _ _) HE)) as Hid.
      simpl in Hid. by rewrite Nat.eqb_refl in Hid. }
  assert (Hdb2 : db2 = write (pre_save now2 (answeredVersion E now2)) db).
  { unfold db2, markQueryAsAnswered. rewrite Hfind. by rewrite save_valid. }
  assert (Hpool : findSimilarQuery n (unanswered db2) (7 # 10) = None).
  { apply findSimilarQuery_None_iff. intros c Hc.
    apply find_elem in Hc as [Hc Hcopen]. apply negb_true_iff in Hcopen.
    rewrite Hdb2, write_known in Hc by (exists E; done). cbn [docs] in Hc.
    apply elem_replace in Hc as [[Hc Hne]|[-> _]]; [|done].
    rewrite <- similarityTo_castText, HnE.
    apply (Hdis E c); auto. }
  rewrite (logUnansweredQuery_create _ _ _ _ _ _ Hn Hpool).
  rewrite save_valid by (split; simpl; [done | by rewrite HnE; apply HvalidE]).
  rewrite write_fresh by apply Hinv2.
  eexists _, _. split; [reflexivity|]. split; [done|].
  split.
  { rewrite Hdb2. rewrite write_known by (exists E; done).
    cbn [nextId pre_save newQueryLog _id].
    rewrite Forall_forall in Hids. specialize (Hids E HE). lia. }
  split; [done|].
  rewrite Hdb2. apply write_elem.
Qed.

End Isolation.

Section GapIsolation.
Import KnowledgeGapModel.

Lemma find_none_iff {A} (f : A -> bool) (l : list A) :
  (forall x, x ∈ l -> f x = false) -> List.find f l = None.
Proof.
  intros Hall. destruct (List.find f l) as [x|] eqn:Hfind; [|done].
  apply find_some in Hfind as [Hin Hf]. apply list_elem_of_In in Hin.
  rewrite (Hall x Hin) in Hf. done.
Qed.

End GapIsolation.

(** C1, on the KnowledgeGap path. When the only entry for a normalized
    query is not open (it was resolved, or is under review),
    [findOrCreate] finds no open entry and the creation of a new one is
    refused by the unique index on [normalizedQuery]: the call throws a
    duplicate-key error and no entry with ask count 1 is created. *)
Theorem findOrCreate_after_resolution_throws (now : Z) (query : string)
    (userId : option string) (db : KnowledgeGapModel.Collection)
    (E : KnowledgeGapModel.KnowledgeGap) :
  Forall (fun d => KnowledgeGapModel._id d < KnowledgeGapModel.nextId db)
         (KnowledgeGapModel.docs db) ->
  E ∈ KnowledgeGapModel.docs db ->
  KnowledgeGapModel.status E <> KnowledgeGapModel.open ->
  KnowledgeGapModel.normalizedQuery E = Js.trim (Js.toLowerCase query) ->
  KnowledgeGapModel.normalizedQuery E <> EmptyString ->
  (forall d, d ∈ KnowledgeGapModel.docs db ->
             KnowledgeGapModel.normalizedQuery d = KnowledgeGapModel.normalizedQuery E ->
             d = E) ->
  KnowledgeGapModel.findOrCreate now query userId db
  = Js.Throw (Js.DuplicateKeyError (KnowledgeGapModel.normalizedQuery E)).
Proof.
  intros Hids HE Hstatus Hnorm Hne Hunique.
  unfold KnowledgeGapModel.findOrCreate, KnowledgeGapModel.findOne.
  rewrite <- Hnorm. rewrite find_none_iff.
  2:{ intros d Hd. apply andb_false_iff.
      destruct (String.eqb_spec (KnowledgeGapModel.normalizedQuery d)
                                (KnowledgeGapModel.normalizedQuery E)) as [Heq|Hneq];
        [right | by left].
      rewrite (Hunique d Hd Heq). by apply bool_decide_eq_false_2. }
  assert (Hquery : query <> EmptyString).
  { intros ->. by rewrite Hnorm in Hne. }
  assert (Hcast : KnowledgeGapModel.castNormalizedQuery (KnowledgeGapModel.normalizedQuery E)
                  = KnowledgeGapModel.normalizedQuery E).
  { rewrite Hnorm. apply lower_trim_idem. }
  unfold KnowledgeGapModel.create. rewrite Hcast.
  unfold KnowledgeGapModel.save, KnowledgeGapModel.validate.
  cbn [KnowledgeGapModel.normalizedQuery KnowledgeGapModel.originalQueries
       KnowledgeGapModel.resolution KnowledgeGapModel.text existsb orb].
  rewrite (proj2 (String.eqb_neq _ _) Hne), (proj2 (String.eqb_neq _ _) Hquery).
  cbn [Js.bind KnowledgeGapModel.pre_save KnowledgeGapModel._id
       KnowledgeGapModel.normalizedQuery].
  rewrite existsb_none.
  2:{ intros d Hd. apply Nat.eqb_neq.
      rewrite Forall_forall in Hids. specialize (Hids d Hd). lia. }
  rewrite (proj2 (existsb_exists _ _)); [done|].
  exists E. split; [by apply list_elem_of_In | apply String.eqb_refl].
Qed.

(** The ledger after "Fee deadline?" was recorded and resolved. *)
Definition resolved_fee_gap : KnowledgeGapModel.KnowledgeGap :=
  KnowledgeGapModel.mkKnowledgeGap 0 "fee deadline?"
    [KnowledgeGapModel.mkOriginalQuery "Fee deadline?" None 1]
    1 KnowledgeGapModel.low KnowledgeGapModel.resolved KnowledgeGapModel.general None
    (Some (KnowledgeGapModel.mkResolution "30 June." "65f1c0a2b3d4e5f60718293a" 2)).

Example resolved_fee_gap_reached :
  (let! '(gap, _, db1) := KnowledgeGapModel.findOrCreate 1 "Fee deadline?" None
                            KnowledgeGapModel.empty in
   KnowledgeGapModel.resolve 2 gap "30 June." "65f1c0a2b3d4e5f60718293a" db1)
  = Js.Ok (resolved_fee_gap, KnowledgeGapModel.mkCollection [resolved_fee_gap] 1).
Proof. reflexivity. Qed.

Lemma findOrCreate_after_resolution_throws_witness :
  KnowledgeGapModel.findOrCreate 3 " fee DEADLINE? " None
    (KnowledgeGapModel.mkCollection [resolved_fee_gap] 1)
  = Js.Throw (Js.DuplicateKeyError "fee deadline?").
Proof.
  apply (findOrCreate_after_resolution_throws 3 " fee DEADLINE? " None
           (KnowledgeGapModel.mkCollection [resolved_fee_gap] 1) resolved_fee_gap).
  - apply Forall_singleton. simpl. lia.
  - simpl. left.
  - discriminate.
  - reflexivity.
  - discriminate.
  - intros d Hd _. simpl in Hd. by apply list_elem_of_singleton in Hd.
Defined.

(** * Further properties *)

(** ** The similarity metric: range and what it ignores *)

Section SimilarityRange.

Lemma words_toLowerCase s : words (Js.toLowerCase s) = words s.
Proof. unfold words, tokens. by rewrite toLowerCase_idem. Qed.

Lemma similarity_same_words a b :
  words a = words b -> (calculateStringSimilarity a b == 1)%Q.
Proof.
  intros Hw. rewrite similarity_unfold, Hw, <- similarity_unfold. apply similarity_refl.
Qed.

Lemma similarity_bounds a b :
  (0 <= calculateStringSimilarity a b)%Q /\ (calculateStringSimilarity a b <= 1)%Q.
Proof.
  rewrite similarity_unfold.
  destruct ((size (words a) =? 0)%nat && (size (words b) =? 0)%nat) eqn:Hsize.
  - split; discriminate.
  - assert (Hunion : size (words a ∪ words b) <> 0%nat).
    { intros Hzero. apply size_empty_iff in Hzero.
      apply andb_false_iff in Hsize as [Hne|Hne]; apply Nat.eqb_neq in Hne; apply Hne;
        apply size_empty_iff; set_solver. }
    assert (Hle : (size (words a ∩ words b) <= size (words a ∪ words b))%nat).
    { apply subseteq_size. set_solver. }
    unfold Qle. simpl. rewrite Z.mul_1_r, Z.mul_1_l.
    split; [lia|]. rewrite <- (positive_nat_Z (Pos.of_nat _)), Nat2Pos.id by done. lia.
Qed.

End SimilarityRange.

(** X1. The token-set similarity of any two strings lies between 0 and
    1. *)
Theorem similarity_between_0_and_1 (str1 str2 : string) :
  (0 <= calculateStringSimilarity str1 str2)%Q
  /\ (calculateStringSimilarity str1 str2 <= 1)%Q.
Proof. apply similarity_bounds. Qed.

(** X2. The token-set similarity does not see the letter case of its
    arguments nor the white space around them: lower-casing and trimming
    either argument leaves the score as it is. *)
Theorem similarity_ignores_case_and_padding (str1 str2 : string) :
  calculateStringSimilarity (Js.trim (Js.toLowerCase str1)) str2
  = calculateStringSimilarity str1 str2
  /\ calculateStringSimilarity str1 (Js.trim (Js.toLowerCase str2))
     = calculateStringSimilarity str1 str2.
Proof.
  unfold calculateStringSimilarity. by rewrite !words_trim, !words_toLowerCase.
Qed.

Lemma same_words_found {A : Type} `{HasNormalizedQuestion A}
    (q : string) (existingQueries : list A) (t : Q) (c : A) :
  (0 < t)%Q -> (t <= 1)%Q ->
  c ∈ existingQueries ->
  words (normalizedQuestionOf c) = words q ->
  exists m, findSimilarQuery q existingQueries t = Some m
            /\ m ∈ existingQueries
            /\ (similarityTo q m == 1)%Q.
Proof.
  intros Ht Ht1 Hc Hwords.
  assert (Hone : (similarityTo q c == 1)%Q).
  { unfold similarityTo. apply similarity_same_words.
    by rewrite !words_toLowerCase. }
  destruct (findSimilarQuery_state q t Ht existingQueries) as [h Hstate].
  destruct (findSimilarQuery q existingQueries t) as [m|]; simpl in Hstate.
  - destruct Hstate as (_ & _ & i & Hi & Hall & _).
    exists m. split; [done|]. split; [apply list_elem_of_lookup; eauto|].
    apply list_elem_of_lookup in Hc as [j Hj].
    apply Qle_antisym; [apply similarity_bounds|].
    rewrite <- Hone. exact (Hall j c Hj).
  - destruct Hstate as [_ Hall]. exfalso.
    apply (Qlt_not_le _ _ (Hall c Hc)). by rewrite Hone.
Qed.

(** X3. With a threshold in (0, 1], a candidate whose normalized question
    has the words of the question is never missed: [findSimilarQuery]
    returns a candidate of similarity 1. *)
Theorem findSimilarQuery_finds_same_words {A : Type} `{HasNormalizedQuestion A}
    (q : string) (existingQueries : list A) (t : Q) (c : A) :
  (0 < t)%Q -> (t <= 1)%Q ->
  c ∈ existingQueries ->
  words (normalizedQuestionOf c) = words q ->
  exists m, findSimilarQuery q existingQueries t = Some m
            /\ m ∈ existingQueries
            /\ (similarityTo q m == 1)%Q.
Proof. apply same_words_found. Qed.

Lemma findSimilarQuery_finds_same_words_witness :
  exists m, findSimilarQuery "WHEN will scholarship disbursement be made? " candidates (7 # 10)
            = Some m
            /\ m ∈ candidates
            /\ (similarityTo "WHEN will scholarship disbursement be made? " m == 1)%Q.
Proof.
  apply (findSimilarQuery_finds_same_words _ candidates (7 # 10)
           (entry_of 2 "when will SCHOLARSHIP disbursement be made?")).
  - reflexivity.
  - discriminate.
  - right. right. left.
  - vm_compute. reflexivity.
Defined.

(** ** The answer classifier: letter case and surrounding text *)

(** A text with its letters A to Z in lower case, every other code unit
    as it is. *)
Definition lowerAsciiChar (c : ascii) : ascii :=
  let n := Js.code c in
  if (65 <=? n) && (n <=? 90) then ascii_of_nat (n + 32) else c.

Fixpoint lowerAscii (s : string) : string :=
  match s with
  | EmptyString => EmptyString
  | String c t => String (lowerAsciiChar c) (lowerAscii t)
  end.

Section ClassifierShape.

Lemma canonicalize_lowerAscii c : Js.canonicalize (lowerAsciiChar c) = Js.canonicalize c.
Proof. destruct c as [[] [] [] [] [] [] [] []]; reflexivity. Qed.

Lemma is_line_terminator_lowerAscii c :
  Js.is_line_terminator (lowerAsciiChar c) = Js.is_line_terminator c.
Proof. destruct c as [[] [] [] [] [] [] [] []]; reflexivity. Qed.

Lemma match_literal_lowerAscii literal : forall s,
  Js.match_literal literal (lowerAscii s)
  = option_map lowerAscii (Js.match_literal literal s).
Proof.
  induction literal as [|a literal IH]; intros s; [done|].
  destruct s as [|b s]; [done|]. simpl. rewrite canonicalize_lowerAscii.
  destruct (Ascii.eqb _ _); [apply IH | done].
Qed.

Lemma dot_star_lowerAscii (k : string -> bool) :
  (forall s, k (lowerAscii s) = k s) ->
  forall s, Js.dot_star k (lowerAscii s) = Js.dot_star k s.
Proof.
  intros Hk. induction s as [|c s IH].
  - done.
  - change (Js.dot_star k (lowerAscii (String c s)))
      with (k (lowerAscii (String c s))
            || negb (Js.is_line_terminator (lowerAsciiChar c))
               && Js.dot_star k (lowerAscii s)).
    rewrite Hk, is_line_terminator_lowerAscii, IH. done.
Qed.

Lemma match_here_lowerAscii p : forall s,
  Js.match_here p (lowerAscii s) = Js.match_here p s.
Proof.
  induction p as [|[literal|] p IH]; intros s; simpl.
  - done.
  - rewrite match_literal_lowerAscii.
    destruct (Js.match_literal literal s); simpl; [apply IH | done].
  - by apply dot_star_lowerAscii.
Qed.

Lemma test_lowerAscii p s : Js.test p (lowerAscii s) = Js.test p s.
Proof.
  induction s as [|c s IH]; [done|].
  rewrite (test_unfold p (String c s)).
  change (Js.test p (lowerAscii (String c s)))
    with (Js.match_here p (lowerAscii (String c s)) || Js.test p (lowerAscii s)).
  by rewrite match_here_lowerAscii, IH.
Qed.

Lemma isUnansweredResponse_lowerAscii responseText :
  isUnansweredResponse (lowerAscii responseText) = isUnansweredResponse responseText.
Proof.
  unfold isUnansweredResponse.
  induction unansweredPatterns as [|p ps IH]; [done|].
  simpl. by rewrite test_lowerAscii, IH.
Qed.

Lemma match_literal_app literal post : forall s rest,
  Js.match_literal literal s = Some rest ->
  Js.match_literal literal (s +:+ post) = Some (rest +:+ post).
Proof.
  induction literal as [|a literal IH]; intros s rest; simpl.
  - by intros [= ->].
  - destruct s as [|b s]; [done|].
    change (String b s +:+ post) with (String b (s +:+ post)).
    cbn [Js.match_literal].
    destruct (Ascii.eqb _ _); [apply IH | done].
Qed.

Lemma dot_star_app (k : string -> bool) post :
  (forall s, k s = true -> k (s +:+ post) = true) ->
  forall s, Js.dot_star k s = true -> Js.dot_star k (s +:+ post) = true.
Proof.
  intros Hk. induction s as [|c s IH]; intros Hs.
  - simpl in Hs. rewrite orb_false_r in Hs. apply Hk in Hs.
    destruct (EmptyString +:+ post); simpl; by rewrite Hs.
  - change (String c s +:+ post) with (String c (s +:+ post)).
    simpl in *. apply orb_true_iff in Hs as [Hs|Hs].
    + apply Hk in Hs. change (String c s +:+ post) with (String c (s +:+ post)) in Hs.
      by rewrite Hs.
    + apply andb_true_iff in Hs as [-> Hs]. rewrite (IH Hs). apply orb_true_r.
Qed.

Lemma match_here_app p post : forall s,
  Js.match_here p s = true -> Js.match_here p (s +:+ post) = true.
Proof.
  induction p as [|[literal|] p IH]; intros s; simpl.
  - done.
  - destruct (Js.match_literal literal s) as [rest|] eqn:Hm; [|done].
    rewrite (match_literal_app _ _ _ _ Hm). apply IH.
  - by apply dot_star_app.
Qed.

Lemma test_app_r p post : forall s,
  Js.test p s = true -> Js.test p (s +:+ post) = true.
Proof.
  induction s as [|c s IH]; rewrite test_unfold; intros Hs.
  - rewrite orb_false_r in Hs. apply (match_here_app _ post) in Hs.
    rewrite test_unfold, Hs. done.
  - change (String c s +:+ post) with (String c (s +:+ post)).
    rewrite test_unfold. apply orb_true_iff in Hs as [Hs|Hs].
    + apply (match_here_app _ post) in Hs.
      change (String c s +:+ post) with (String c (s +:+ post)) in Hs. by rewrite Hs.
    + rewrite (IH Hs). apply orb_true_r.
Qed.

Lemma test_app_l p s : forall pre,
  Js.test p s = true -> Js.test p (pre +:+ s) = true.
Proof.
  induction pre as [|c pre IH]; intros Hs; [done|].
  change (String c pre +:+ s) with (String c (pre +:+ s)).
  rewrite test_unfold, (IH Hs). apply orb_true_r.
Qed.

End ClassifierShape.

(** X4. The classification of an answer does not depend on the case of
    its letters A to Z: two answers that are the same text once these
    letters are put in lower case, every other code unit compared as it
    is, are classified alike. *)
Theorem isUnansweredResponse_ignores_case (responseText otherText : string) :
  lowerAscii responseText = lowerAscii otherText ->
  isUnansweredResponse responseText = isUnansweredResponse otherText.
Proof.
  intros Hsame.
  by rewrite <- (isUnansweredResponse_lowerAscii responseText), Hsame,
       isUnansweredResponse_lowerAscii.
Qed.

Lemma isUnansweredResponse_ignores_case_witness :
  isUnansweredResponse "I DON'T HAVE that Information."
  = isUnansweredResponse "i don't have that information."
  /\ isUnansweredResponse "i don't have that information." = true.
Proof.
  split.
  - apply (isUnansweredResponse_ignores_case "I DON'T HAVE that Information."
             "i don't have that information.").
    reflexivity.
  - vm_compute. reflexivity.
Defined.

(** X5. An answer classified unanswered stays so inside any longer text:
    whatever is written before and after it, the result is classified
    unanswered. *)
Theorem isUnansweredResponse_inside_longer_text (before responseText after : string) :
  isUnansweredResponse responseText = true ->
  isUnansweredResponse (before +:+ responseText +:+ after) = true.
Proof.
  unfold isUnansweredResponse. intros Hsome.
  apply existsb_exists in Hsome as (pattern & Hin & Htest).
  apply existsb_exists. exists pattern. split; [done|].
  by apply test_app_l, test_app_r.
Qed.

Lemma isUnansweredResponse_inside_longer_text_witness :
  isUnansweredResponse
    ("Hello! " +:+ "I'm sorry, but I don't know the date." +:+ "
Please ask the office.") = true.
Proof.
  apply (isUnansweredResponse_inside_longer_text "Hello! "
           "I'm sorry, but I don't know the date." "
Please ask the office.").
  vm_compute. reflexivity.
Defined.
(** ** The edit-distance similarity *)

Section EditDistance.

(** The recurrence the matrix is filled by: the distance between the
    first [i] code units of [str1] and the first [j] of [str2]. *)
Fixpoint distance (str1 str2 : string) (i : nat) : nat -> nat :=
  match i with
  | 0 => fun j => j
  | S i' =>
      fix row (j : nat) : nat :=
        match j with
        | 0 => S i'
        | S j' =>
            Nat.min (Nat.min (distance str1 str2 i' (S j') + 1) (row j' + 1))
                    (distance str1 str2 i' j' + substitutionCost str1 str2 (S i') (S j'))
        end
  end.

Lemma distance_0_r str1 str2 i : distance str1 str2 i 0 = i.
Proof. by destruct i. Qed.

Lemma distance_step str1 str2 i j :
  distance str1 str2 (S i) (S j)
  = Nat.min (Nat.min (distance str1 str2 i (S j) + 1) (distance str1 str2 (S i) j + 1))
            (distance str1 str2 i j + substitutionCost str1 str2 (S i) (S j)).
Proof. reflexivity. Qed.

Lemma substitutionCost_sym str1 str2 i j :
  substitutionCost str1 str2 i j = substitutionCost str2 str1 j i.
Proof.
  unfold substitutionCost. repeat case_bool_decide; congruence.
Qed.

Lemma substitutionCost_le str1 str2 i j : substitutionCost str1 str2 i j <= 1.
Proof. unfold substitutionCost. case_bool_decide; lia. Qed.

Lemma distance_sym str1 str2 i : forall j,
  distance str1 str2 i j = distance str2 str1 j i.
Proof.
  induction i as [|i IHi]; intros j; [by rewrite distance_0_r|].
  induction j as [|j IHj]; [done|].
  rewrite !distance_step, !IHi, IHj, (substitutionCost_sym str1 str2). lia.
Qed.

Lemma distance_diag s i : distance s s i i = 0.
Proof.
  induction i as [|i IH]; [done|].
  rewrite distance_step, IH. unfold substitutionCost.
  rewrite bool_decide_eq_true_2 by done. lia.
Qed.

Lemma distance_upper str1 str2 i : forall j, distance str1 str2 i j <= Nat.max i j.
Proof.
  induction i as [|i IHi]; intros j; [simpl; lia|].
  induction j as [|j IHj]; [simpl; lia|].
  rewrite distance_step.
  pose proof (IHi j). pose proof (substitutionCost_le str1 str2 (S i) (S j)). lia.
Qed.

Lemma distance_zero str1 str2 i : forall j,
  distance str1 str2 i j = 0 ->
  i = j /\ forall k, k < i -> String.get k str1 = String.get k str2.
Proof.
  induction i as [|i IHi]; intros j.
  - simpl. intros ->. split; [done | lia].
  - destruct j as [|j]; [done|]. rewrite distance_step. intros Hzero.
    assert (Hd : distance str1 str2 i j = 0) by lia.
    assert (Hc : substitutionCost str1 str2 (S i) (S j) = 0) by lia.
    destruct (IHi j Hd) as [-> Hprefix]. split; [done|].
    intros k Hk. destruct (decide (k = j)) as [->|Hne]; [|apply Hprefix; lia].
    unfold substitutionCost in Hc. case_bool_decide as Heq; [|done].
    by rewrite !Nat.sub_1_r in Heq.
Qed.

Lemma string_ext (a : string) : forall b,
  String.length a = String.length b ->
  (forall k, k < String.length a -> String.get k a = String.get k b) ->
  a = b.
Proof.
  induction a as [|c a IH]; intros [|d b] Hlen Hget; try done.
  simpl in Hlen. f_equal.
  - specialize (Hget 0 ltac:(simpl; lia)). simpl in Hget. congruence.
  - apply IH; [lia|]. intros k Hk. apply (Hget (S k)). simpl. lia.
Qed.

(** The matrix: [rows] rows of [cols] cells. *)
Definition shape (rows cols : nat) (matrix : list (list nat)) : Prop :=
  length matrix = rows /\ Forall (fun row => length row = cols) matrix.

Lemma setCell_shape rows cols matrix i j value :
  shape rows cols matrix -> shape rows cols (setCell matrix i j value).
Proof.
  intros [Hrows Hcols]. unfold setCell.
  destruct (matrix !! i) as [row|] eqn:Hrow; [|done].
  split; [by rewrite length_insert|].
  apply Forall_insert; [done|]. rewrite length_insert.
  rewrite Forall_forall in Hcols. apply Hcols. by eapply list_elem_of_lookup_2.
Qed.

Lemma cell_setCell_eq rows cols matrix i j value :
  shape rows cols matrix -> i < rows -> j < cols ->
  cell (setCell matrix i j value) i j = value.
Proof.
  intros [Hrows Hcols] Hi Hj. unfold setCell, cell.
  destruct (lookup_lt_is_Some_2 matrix i ltac:(lia)) as [row Hrow]. rewrite Hrow.
  rewrite list_lookup_insert_eq by lia.
  rewrite list_lookup_insert_eq; [done|].
  rewrite Forall_forall in Hcols. rewrite (Hcols row); [done|].
  by eapply list_elem_of_lookup_2.
Qed.

Lemma cell_setCell_ne matrix i j value i' j' :
  i' <> i \/ j' <> j ->
  cell (setCell matrix i j value) i' j' = cell matrix i' j'.
Proof.
  intros Hne. unfold setCell, cell.
  destruct (matrix !! i) as [row|] eqn:Hrow; [|done].
  destruct (decide (i' = i)) as [->|Hi].
  - rewrite list_lookup_insert_eq by (by eapply lookup_lt_Some).
    rewrite Hrow. rewrite list_lookup_insert_ne; [done|]. destruct Hne; congruence.
  - by rewrite list_lookup_insert_ne.
Qed.

(** A [for] loop over consecutive indices keeps an invariant that each
    iteration carries one index further. *)
Lemma fold_left_seq_ind {S : Type} (f : S -> nat -> S) (Inv : nat -> S -> Prop) n :
  forall start s,
    Inv start s ->
    (forall k s, start <= k < start + n -> Inv k s -> Inv (Datatypes.S k) (f s k)) ->
    Inv (start + n) (fold_left f (seq start n) s).
Proof.
  induction n as [|n IH]; intros start s Hs Hstep.
  - by rewrite Nat.add_0_r.
  - simpl. rewrite <- Nat.add_succ_comm. apply IH.
    + apply Hstep; [lia | done].
    + intros k s' Hk. apply Hstep. lia.
Qed.

Variables str1 str2 : string.

Abbreviation len1 := (String.length str1).
Abbreviation len2 := (String.length str2).

(** The cells that hold their final value when the rows before [i] and
    the cells of row [i] before column [j] have been written. *)
Definition filled (i j : nat) (matrix : list (list nat)) : Prop :=
  shape (len1 + 1) (len2 + 1) matrix
  /\ forall i' j', i' <= len1 -> j' <= len2 ->
       i' = 0 \/ j' = 0 \/ i' < i \/ (i' = i /\ j' < j) ->
       cell matrix i' j' = distance str1 str2 i' j'.

Lemma replicate_shape rows cols : shape rows cols (replicate rows (replicate cols 0)).
Proof.
  split; [apply length_replicate|].
  apply Forall_replicate. apply length_replicate.
Qed.

Lemma first_column_ready :
  let matrix := replicate (len1 + 1) (replicate (len2 + 1) 0) in
  let matrix := fold_left (fun matrix i => setCell matrix i 0 i) (seq 0 (len1 + 1)) matrix in
  shape (len1 + 1) (len2 + 1) matrix /\ forall i, i <= len1 -> cell matrix i 0 = i.
Proof.
  intros matrix0 matrix.
  pose proof (fold_left_seq_ind (fun matrix i => setCell matrix i 0 i)
                (fun k matrix => shape (len1 + 1) (len2 + 1) matrix
                                 /\ forall i, i < k -> cell matrix i 0 = i)
                (len1 + 1) 0 matrix0) as Hloop.
  destruct Hloop as [Hshape Hcells].
  - split; [apply replicate_shape | lia].
  - intros k m Hk [Hshape Hcells]. split; [by apply setCell_shape|].
    intros i Hi. destruct (decide (i = k)) as [->|Hne].
    + by apply (cell_setCell_eq _ _ _ _ _ _ Hshape); lia.
    + rewrite cell_setCell_ne by (by left). apply Hcells. lia.
  - split; [done|]. intros i Hi. apply Hcells. lia.
Qed.

Lemma first_row_ready :
  let matrix := replicate (len1 + 1) (replicate (len2 + 1) 0) in
  let matrix := fold_left (fun matrix i => setCell matrix i 0 i) (seq 0 (len1 + 1)) matrix in
  let matrix := fold_left (fun matrix j => setCell matrix 0 j j) (seq 0 (len2 + 1)) matrix in
  filled 1 1 matrix.
Proof.
  intros matrix0 matrix1 matrix.
  destruct first_column_ready as [Hshape1 Hcolumn]. fold matrix0 matrix1 in Hshape1, Hcolumn.
  pose proof (fold_left_seq_ind (fun matrix j => setCell matrix 0 j j)
                (fun k matrix => shape (len1 + 1) (len2 + 1) matrix
                                 /\ (forall i, i <= len1 -> cell matrix i 0 = i)
                                 /\ forall j, j < k -> cell matrix 0 j = j)
                (len2 + 1) 0 matrix1) as Hloop.
  destruct Hloop as (Hshape & Hcol & Hrow).
  - split; [done|]. split; [done | lia].
  - intros k m Hk (Hshape & Hcol & Hrow). split; [by apply setCell_shape|]. split.
    + intros i Hi. destruct (decide (i = 0 /\ k = 0)) as [[-> ->]|Hne].
      * by apply (cell_setCell_eq _ _ _ _ _ _ Hshape); lia.
      * rewrite cell_setCell_ne by lia. by apply Hcol.
    + intros j Hj. destruct (decide (j = k)) as [->|Hne].
      * by apply (cell_setCell_eq _ _ _ _ _ _ Hshape); lia.
      * rewrite cell_setCell_ne by (by right). apply Hrow. lia.
  - split; [done|]. intros i' j' Hi' Hj' Hwhere.
    destruct (decide (j' = 0)) as [->|Hj0].
    { rewrite distance_0_r. by apply Hcol. }
    assert (i' = 0) as -> by lia. simpl. apply Hrow. lia.
Qed.

Lemma row_filled i matrix :
  1 <= i <= len1 -> filled i 1 matrix ->
  filled (S i) 1
    (fold_left
       (fun matrix j =>
          let cost := substitutionCost str1 str2 i j in
          setCell matrix i j
            (Nat.min (Nat.min (cell matrix (i - 1) j + 1) (cell matrix i (j - 1) + 1))
                     (cell matrix (i - 1) (j - 1) + cost)))
       (seq 1 len2) matrix).
Proof.
  intros Hi Hfilled.
  pose proof (fold_left_seq_ind
                (fun matrix j =>
                   let cost := substitutionCost str1 str2 i j in
                   setCell matrix i j
                     (Nat.min (Nat.min (cell matrix (i - 1) j + 1)
                                       (cell matrix i (j - 1) + 1))
                              (cell matrix (i - 1) (j - 1) + cost)))
                (fun k matrix => filled i k matrix) len2 1 matrix Hfilled) as Hloop.
  destruct Hloop as [Hshape Hcells].
  - intros k m Hk [Hshape Hcells]. split; [by apply setCell_shape|].
    intros i' j' Hi' Hj' Hwhere.
    destruct (decide (i' = i /\ j' = k)) as [[-> ->]|Hne].
    + rewrite (cell_setCell_eq _ _ _ _ _ _ Hshape) by lia.
      destruct i as [|i0]; [lia|]. destruct k as [|k0]; [lia|].
      rewrite distance_step. simpl. rewrite !Nat.sub_0_r.
      rewrite (Hcells i0 (S k0)), (Hcells (S i0) k0), (Hcells i0 k0) by lia.
      done.
    + rewrite cell_setCell_ne by lia. apply Hcells; lia.
  - split; [done|]. intros i' j' Hi' Hj' Hwhere. apply Hcells; lia.
Qed.

Lemma editDistance_distance : editDistance str1 str2 = distance str1 str2 len1 len2.
Proof.
  unfold editDistance, editMatrix. cbv zeta.
  pose proof first_row_ready as Hready. cbv zeta in Hready.
  pose proof (fold_left_seq_ind
                (fun matrix i =>
                   fold_left
                     (fun matrix j =>
                        let cost := substitutionCost str1 str2 i j in
                        setCell matrix i j
                          (Nat.min (Nat.min (cell matrix (i - 1) j + 1)
                                            (cell matrix i (j - 1) + 1))
                                   (cell matrix (i - 1) (j - 1) + cost)))
                     (seq 1 len2) matrix)
                (fun k matrix => filled k 1 matrix) len1 1 _ Hready) as Hloop.
  destruct Hloop as [_ Hcells].
  - intros k m Hk Hfilled. apply row_filled; [lia | done].
  - apply Hcells; lia.
Qed.

End EditDistance.

(** X6. The edit-distance similarity of two strings is 1 exactly when
    the strings are equal. *)
Theorem editDistanceSimilarity_one_iff_equal (str1 str2 : string) :
  (calculateEditDistanceSimilarity str1 str2 == 1)%Q <-> str1 = str2.
Proof.
  unfold calculateEditDistanceSimilarity. cbv zeta. rewrite editDistance_distance.
  destruct (Nat.eqb_spec (Nat.max (String.length str1) (String.length str2)) 0) as [Hmax|Hmax].
  - split; [intros _ | reflexivity].
    destruct str1, str2; simpl in Hmax; try lia. done.
  - unfold Qeq. simpl. rewrite Z.mul_1_r, Z.mul_1_l.
    rewrite <- (positive_nat_Z (Pos.of_nat _)), Nat2Pos.id by done.
    split.
    + intros Hone.
      assert (Hzero : distance str1 str2 (String.length str1) (String.length str2) = 0) by lia.
      apply distance_zero in Hzero as [Hlen Hget]. by apply string_ext.
    + intros <-. rewrite distance_diag. lia.
Qed.

(** X7. The edit-distance similarity is symmetric and lies between 0 and
    1; the distance itself is at most the length of the longer string. *)
Theorem editDistanceSimilarity_symmetric_bounded (str1 str2 : string) :
  calculateEditDistanceSimilarity str1 str2 = calculateEditDistanceSimilarity str2 str1
  /\ (0 <= calculateEditDistanceSimilarity str1 str2)%Q
  /\ (calculateEditDistanceSimilarity str1 str2 <= 1)%Q
  /\ editDistance str1 str2 <= Nat.max (String.length str1) (String.length str2).
Proof.
  unfold calculateEditDistanceSimilarity. cbv zeta. rewrite !editDistance_distance.
  pose proof (distance_upper str1 str2 (String.length str1) (String.length str2)) as Hupper.
  split; [|split; [|split; [|done]]].
  - by rewrite (distance_sym str2 str1), (Nat.max_comm (String.length str2)).
  - destruct (Nat.eqb_spec (Nat.max (String.length str1) (String.length str2)) 0);
      [discriminate|].
    unfold Qle. simpl. lia.
  - destruct (Nat.eqb_spec (Nat.max (String.length str1) (String.length str2)) 0) as [|Hmax];
      [discriminate|].
    unfold Qle. simpl. rewrite Z.mul_1_r, Z.mul_1_l.
    rewrite <- (positive_nat_Z (Pos.of_nat _)), Nat2Pos.id by done. lia.
Qed.

Example editDistance_kitten : editDistance "kitten" "sitting" = 3.
Proof. vm_compute. reflexivity. Qed.
(** ** The QueryLog ledger: the admin operations and the statistics *)

Section LedgerOperations.
Import QueryLogModel QueryLogController.

Abbreviation unanswered := (find (fun q => negb (answered q))).

Lemma findById_replace (q' : QueryLog) other l n :
  findById other (mkCollection (map (fun d => if _id d =? _id q' then q' else d) l) n)
  = if other =? _id q'
    then match findById other (mkCollection l n) with
         | Some _ => Some q'
         | None => None
         end
    else findById other (mkCollection l n).
Proof.
  unfold findById. cbn [docs]. induction l as [|d l IH]; [by destruct (other =? _id q')|].
  cbn [map List.find]. rewrite IH. clear IH.
  destruct (Nat.eqb_spec (_id d) (_id q')) as [Hd|Hd];
    destruct (Nat.eqb_spec other (_id q')) as [Ho|Ho];
    repeat match goal with
           | |- context [(?a =? ?b)] => destruct (Nat.eqb_spec a b)
           end; try congruence; try done.
Qed.

Lemma findById_filter id other l n :
  findById other (mkCollection (List.filter (fun d => negb (_id d =? id)) l) n)
  = if other =? id then None else findById other (mkCollection l n).
Proof.
  unfold findById. cbn [docs]. induction l as [|d l IH]; [by destruct (other =? id)|].
  cbn [List.filter List.find].
  destruct (Nat.eqb_spec (_id d) id) as [Hd|Hd]; cbn [negb List.find]; rewrite IH; clear IH;
    destruct (Nat.eqb_spec other id) as [Ho|Ho];
    repeat match goal with
           | |- context [(?a =? ?b)] => destruct (Nat.eqb_spec a b)
           end; try congruence; try done.
Qed.

(** The sum of a weight over the documents of a list. *)
Definition sumOver {A : Type} (w : A -> Z) (l : list A) : Z :=
  fold_right (fun d sum => (w d + sum)%Z) 0%Z l.

Lemma sumOver_app {A} (w : A -> Z) l1 l2 : sumOver w (l1 ++ l2) = (sumOver w l1 + sumOver w l2)%Z.
Proof. induction l1 as [|d l1 IH]; simpl; [done | rewrite IH; lia]. Qed.

Lemma replace_absent (q' : QueryLog) l :
  (forall d, d ∈ l -> _id d <> _id q') ->
  map (fun d => if _id d =? _id q' then q' else d) l = l.
Proof.
  intros Habsent. induction l as [|d l IH]; [done|]. simpl.
  rewrite (proj2 (Nat.eqb_neq _ _) (Habsent d ltac:(left))).
  f_equal. apply IH. intros x Hx. apply Habsent. by right.
Qed.

Lemma sumOver_replace w (sq q' : QueryLog) l :
  NoDup (map _id l) -> sq ∈ l -> _id q' = _id sq ->
  sumOver w (map (fun d => if _id d =? _id q' then q' else d) l)
  = (sumOver w l - w sq + w q')%Z.
Proof.
  intros Hnodup Hsq Hid. induction l as [|d l IH]; [by apply elem_of_nil in Hsq|].
  rewrite fmap_cons in Hnodup. apply NoDup_cons in Hnodup as [Hd Hnodup].
  apply elem_of_cons in Hsq as [->|Hsq]; cbn [map sumOver fold_right].
  - rewrite Hid, Nat.eqb_refl. rewrite <- Hid.
    rewrite (replace_absent q' l).
    + fold (sumOver w l). lia.
    + intros x Hx Hx'. apply Hd. rewrite <- Hid, <- Hx'. by apply list_elem_of_fmap_2.
  - assert (Hne : _id d <> _id q').
    { intros Heq. apply Hd. rewrite Heq, Hid. by apply list_elem_of_fmap_2. }
    rewrite (proj2 (Nat.eqb_neq _ _) Hne).
    fold (sumOver w (map (fun d => if _id d =? _id q' then q' else d) l)).
    fold (sumOver w l). rewrite (IH Hnodup Hsq). lia.
Qed.

Lemma fold_left_sum {A} (f : A -> Z) l : forall a,
  fold_left (fun sum q => (sum + f q)%Z) l a = (a + sumOver f l)%Z.
Proof.
  induction l as [|d l IH]; intros a; simpl; [lia|]. rewrite IH. fold (sumOver f l). lia.
Qed.

Lemma sumOver_filter {A} (keep : A -> bool) (f : A -> Z) l :
  sumOver f (List.filter keep l) = sumOver (fun d => if keep d then f d else 0%Z) l.
Proof.
  induction l as [|d l IH]; [done|]. simpl. destruct (keep d); simpl; rewrite IH; done.
Qed.

Lemma length_as_sum {A} (l : list A) : Z.of_nat (length l) = sumOver (fun _ => 1%Z) l.
Proof. induction l as [|d l IH]; simpl; [done|]. fold (sumOver (fun _ => 1%Z) l). lia. Qed.

End LedgerOperations.

Section LedgerStatistics.
Import QueryLogModel QueryLogController.

Abbreviation unanswered := (find (fun q => negb (answered q))).

(** The two sums of the statistics, over the whole collection. *)
Lemma pool_asks_sum db :
  fold_left (fun sum q => (sum + askCount q)%Z) (unanswered db) 0%Z
  = sumOver (fun d => if negb (answered d) then askCount d else 0%Z) (docs db).
Proof. unfold find. by rewrite fold_left_sum, sumOver_filter. Qed.

Lemma pool_length_sum db :
  Z.of_nat (length (unanswered db))
  = sumOver (fun d => if negb (answered d) then 1%Z else 0%Z) (docs db).
Proof. unfold find. by rewrite length_as_sum, sumOver_filter. Qed.

(** No entry of the list names an asker. *)
Definition no_askers (queries : list QueryLog) : Prop :=
  Forall (fun q => askedByUsers q = []) queries.

Lemma studentId_throws u : exists e, studentId u = Js.Throw e.
Proof. destruct u; simpl; eauto. Qed.

Lemma traverse_studentId queries :
  (no_askers queries
   /\ Js.traverse (fun q => Js.traverse studentId (askedByUsers q)) queries
      = Js.Ok (map (fun _ => []) queries))
  \/ (~ no_askers queries
      /\ exists e, Js.traverse (fun q => Js.traverse studentId (askedByUsers q)) queries
                   = Js.Throw e).
Proof.
  induction queries as [|q queries IH].
  - left. split; [apply Forall_nil_2 | done].
  - cbn [Js.traverse map]. destruct (askedByUsers q) as [|u askers] eqn:Haskers.
    + cbn [Js.traverse Js.bind]. destruct IH as [[Hall ->]|[Hnot [e ->]]].
      * left. split; [by apply Forall_cons | done].
      * right. split; [|by exists e].
        intros Hall. apply Forall_cons in Hall as [_ Hall]. by apply Hnot.
    + right. split.
      * intros Hall. apply Forall_cons in Hall as [Hq _]. congruence.
      * cbn [Js.traverse]. destruct (studentId_throws u) as [e ->]. by exists e.
Qed.

Lemma concat_empty {A B} (l : list A) : concat (map (fun _ => @nil B) l) = [].
Proof. induction l as [|x l IH]; [done | exact IH]. Qed.

(** The listing answers with statistics exactly when no unanswered entry
    names an asker; the number of students is then 0. *)
Lemma getUnansweredQueries_cases db :
  (no_askers (unanswered db)
   /\ getUnansweredQueries db
      = Js.Ok (mkStats (length (unanswered db))
                       (fold_left (fun sum q => (sum + askCount q)%Z) (unanswered db) 0%Z)
                       0))
  \/ (~ no_askers (unanswered db) /\ exists e, getUnansweredQueries db = Js.Throw e).
Proof.
  unfold getUnansweredQueries, studentIds. cbv zeta.
  destruct (traverse_studentId (unanswered db)) as [[Hall ->]|[Hnot [e ->]]].
  - left. split; [done|]. cbn [Js.bind]. by rewrite concat_empty.
  - right. split; [done | by exists e].
Qed.

Lemma getUnansweredQueries_no_askers db :
  no_askers (unanswered db) ->
  getUnansweredQueries db
  = Js.Ok (mkStats (length (unanswered db))
                   (fold_left (fun sum q => (sum + askCount q)%Z) (unanswered db) 0%Z)
                   0).
Proof.
  intros Hall. destruct (getUnansweredQueries_cases db) as [[_ Hok]|[Hnot _]]; [done|].
  by destruct Hnot.
Qed.

Lemma getUnansweredQueries_Ok db stats :
  getUnansweredQueries db = Js.Ok stats ->
  no_askers (unanswered db)
  /\ stats = mkStats (length (unanswered db))
                     (fold_left (fun sum q => (sum + askCount q)%Z) (unanswered db) 0%Z)
                     0.
Proof.
  intros Hok. destruct (getUnansweredQueries_cases db) as [[Hall Heq]|[_ [e Heq]]];
    rewrite Heq in Hok; [|done].
  by injection Hok as <-.
Qed.

Lemma getUnansweredQueries_asker db e :
  e ∈ docs db -> answered e = false -> askedByUsers e <> [] ->
  exists error, getUnansweredQueries db = Js.Throw error.
Proof.
  intros He Hopen Haskers.
  destruct (getUnansweredQueries_cases db) as [[Hall _]|[_ Hthrow]]; [|done].
  exfalso. unfold no_askers in Hall. rewrite Forall_forall in Hall.
  apply Haskers, Hall, find_elem. by rewrite Hopen.
Qed.

Lemma findById_docs id db : findById id db = findById id (mkCollection (docs db) (nextId db)).
Proof. done. Qed.

Lemma unanswered_replace_answered (q' : QueryLog) l :
  answered q' = true ->
  List.filter (fun q => negb (answered q)) (map (fun d => if _id d =? _id q' then q' else d) l)
  = List.filter (fun q => negb (_id q =? _id q')) (List.filter (fun q => negb (answered q)) l).
Proof.
  intros Hq'. induction l as [|d l IH]; [done|]. cbn [map List.filter].
  destruct (Nat.eqb_spec (_id d) (_id q')) as [Hd|Hd].
  - rewrite Hq'. cbn [negb]. rewrite IH.
    destruct (negb (answered d)); [|done]. cbn [List.filter].
    by rewrite (proj2 (Nat.eqb_eq _ _) Hd).
  - rewrite IH. destruct (negb (answered d)); [|done]. cbn [List.filter].
    by rewrite (proj2 (Nat.eqb_neq _ _) Hd).
Qed.

(** What is known of a ledger reached from the empty one. *)
Lemma reachable rs :
  ledger_inv (run rs empty) /\ Forall entry_ok (docs (run rs empty)).
Proof. split; [apply run_inv, empty_inv | apply run_ok, Forall_nil_2]. Qed.

Lemma markQueryAsAnswered_write rs now id query :
  findById id (run rs empty) = Some query ->
  let query' := pre_save now (answeredVersion query now) in
  markQueryAsAnswered now id (run rs empty)
  = mkCollection (map (fun d => if _id d =? _id query' then query' else d)
                      (docs (run rs empty)))
                 (nextId (run rs empty)).
Proof.
  intros Hfind query'. destruct (reachable rs) as [_ Hok].
  pose proof (findById_elem _ _ _ Hfind) as [Hin Hid].
  rewrite Forall_forall in Hok. destruct (Hok query Hin) as (_ & _ & Hvalid).
  unfold markQueryAsAnswered. rewrite Hfind, save_valid by done.
  apply write_known. by exists query.
Qed.

(** The askers of the entry a successful call wrote. *)
Lemma updateExisting_askers sq now originalQuestion userId :
  askedByUsers (updateExisting sq now originalQuestion userId) <> [].
Proof.
  simpl. case_bool_decide as Hin.
  - intros Hempty. rewrite Hempty in Hin. by apply elem_of_nil in Hin.
  - by destruct (askedByUsers sq).
Qed.

End LedgerStatistics.

(** X8. In a ledger reached from the empty one, marking a known entry as
    answered stores it as answered by a human with its ask count, askers
    and occurrence records as they were, leaves every other entry as it
    was, and takes the entry out of the unanswered listing; when the
    listing answered with statistics before and the entry was
    unanswered, it answers with statistics afterwards, with one entry
    and the entry's ask count less. An unknown identifier changes
    nothing. *)
Theorem markQueryAsAnswered_effect (rs : list QueryLogController.request) (now : Z) (id : nat) :
  let db := QueryLogController.run rs QueryLogModel.empty in
  let db' := QueryLogController.markQueryAsAnswered now id db in
  match QueryLogModel.findById id db with
  | None => db' = db
  | Some query =>
      (exists query',
         QueryLogModel.findById id db' = Some query'
         /\ QueryLogModel.answered query' = true
         /\ QueryLogModel.answerSource query' = QueryLogModel.human
         /\ QueryLogModel.askCount query' = QueryLogModel.askCount query
         /\ QueryLogModel.askedByUsers query' = QueryLogModel.askedByUsers query
         /\ QueryLogModel.originalQuestions query' = QueryLogModel.originalQuestions query
         /\ QueryLogModel.normalizedQuestion query' = QueryLogModel.normalizedQuestion query)
      /\ (forall other, other <> id ->
            QueryLogModel.findById other db' = QueryLogModel.findById other db)
      /\ QueryLogModel.find (fun q => negb (QueryLogModel.answered q)) db'
         = List.filter (fun q => negb (QueryLogModel._id q =? id))
             (QueryLogModel.find (fun q => negb (QueryLogModel.answered q)) db)
      /\ (forall stats,
            QueryLogController.getUnansweredQueries db = Js.Ok stats ->
            QueryLogModel.answered query = false ->
            exists stats',
              QueryLogController.getUnansweredQueries db' = Js.Ok stats'
              /\ S (QueryLogController.totalUnanswered stats')
                 = QueryLogController.totalUnanswered stats
              /\ (QueryLogController.totalAskCount stats' + QueryLogModel.askCount query
                  = QueryLogController.totalAskCount stats)%Z
              /\ QueryLogController.uniqueStudents stats' = 0)
  end.
Proof.
  intros db db'.
  destruct (QueryLogModel.findById id db) as [query|] eqn:Hfind.
  2:{ unfold db', QueryLogController.markQueryAsAnswered. by rewrite Hfind. }
  pose proof (markQueryAsAnswered_write rs now id query Hfind) as Hwrite.
  cbv zeta in Hwrite. fold db db' in Hwrite.
  pose proof (findById_elem _ _ _ Hfind) as [Hin Hid].
  destruct (reachable rs) as [[[Hnodup _] _] _]. fold db in Hnodup.
  assert (Hpool : QueryLogModel.find (fun q => negb (QueryLogModel.answered q)) db'
                  = List.filter (fun q => negb (QueryLogModel._id q =? id))
                      (QueryLogModel.find (fun q => negb (QueryLogModel.answered q)) db)).
  { rewrite Hwrite. unfold QueryLogModel.find. cbn [QueryLogModel.docs].
    rewrite unanswered_replace_answered by done.
    cbn [QueryLogModel.pre_save QueryLogModel._id QueryLogController.answeredVersion].
    by rewrite Hid. }
  split; [|split; [|split; [exact Hpool|]]].
  - exists (QueryLogModel.pre_save now (QueryLogController.answeredVersion query now)).
    split; [|done].
    rewrite Hwrite, findById_replace. cbn [QueryLogModel.pre_save QueryLogModel._id
      QueryLogController.answeredVersion].
    rewrite Hid, Nat.eqb_refl, <- (findById_docs id db), Hfind. done.
  - intros other Hother. rewrite Hwrite, findById_replace.
    cbn [QueryLogModel.pre_save QueryLogModel._id QueryLogController.answeredVersion].
    rewrite Hid, (proj2 (Nat.eqb_neq _ _) Hother). done.
  - intros stats Hstats Hopen.
    apply getUnansweredQueries_Ok in Hstats as [Hall ->].
    assert (Hall' : no_askers
                      (QueryLogModel.find (fun q => negb (QueryLogModel.answered q)) db')).
    { rewrite Hpool. unfold no_askers in *. rewrite Forall_forall in Hall.
      apply Forall_forall. intros q Hq. apply Hall.
      by apply list_elem_of_In, filter_In in Hq as [Hq%list_elem_of_In _]. }
    eexists. split; [by apply getUnansweredQueries_no_askers|].
    cbn [QueryLogController.totalUnanswered QueryLogController.totalAskCount
         QueryLogController.uniqueStudents].
    split; [|split; [|done]].
    + apply Nat2Z.inj. rewrite Nat2Z.inj_succ, !pool_length_sum, Hwrite.
      cbn [QueryLogModel.docs]. rewrite (sumOver_replace _ query) by done.
      simpl. rewrite Hopen. simpl. lia.
    + rewrite !pool_asks_sum, Hwrite. cbn [QueryLogModel.docs].
      rewrite (sumOver_replace _ query) by done. simpl. rewrite Hopen. simpl. lia.
Qed.

(** The ledger after one question without asker about the hostel fee. *)
Definition anonymous_ledger : QueryLogModel.Collection :=
  QueryLogController.run
    [QueryLogController.LogUnanswered (Js.Ok (Some "What is the hostel fee?")) 10
       "hostel fee kitni hai?" None]
    QueryLogModel.empty.

Lemma markQueryAsAnswered_effect_witness :
  match QueryLogModel.findById 0 anonymous_ledger with
  | None => False
  | Some query =>
      QueryLogController.getUnansweredQueries anonymous_ledger
      = Js.Ok (QueryLogController.mkStats 1 1 0)
      /\ QueryLogModel.answered query = false
      /\ exists stats',
           QueryLogController.getUnansweredQueries
             (QueryLogController.markQueryAsAnswered 30 0 anonymous_ledger)
           = Js.Ok stats'
           /\ S (QueryLogController.totalUnanswered stats')
              = QueryLogController.totalUnanswered (QueryLogController.mkStats 1 1 0)
           /\ (QueryLogController.totalAskCount stats' + QueryLogModel.askCount query
               = QueryLogController.totalAskCount (QueryLogController.mkStats 1 1 0))%Z
           /\ QueryLogController.uniqueStudents stats' = 0
  end.
Proof.
  pose proof (markQueryAsAnswered_effect
                [QueryLogController.LogUnanswered (Js.Ok (Some "What is the hostel fee?")) 10
                   "hostel fee kitni hai?" None] 30 0) as Hmark.
  cbv zeta in Hmark. fold anonymous_ledger in Hmark.
  destruct (QueryLogModel.findById 0 anonymous_ledger) as [query|] eqn:Hfind;
    [|vm_compute in Hfind; discriminate].
  destruct Hmark as (_ & _ & _ & Hstats).
  assert (Hlisting : QueryLogController.getUnansweredQueries anonymous_ledger
                     = Js.Ok (QueryLogController.mkStats 1 1 0))
    by (vm_compute; reflexivity).
  assert (Hopen : QueryLogModel.answered query = false)
    by (vm_compute in Hfind; by injection Hfind as <-).
  split; [exact Hlisting|]. split; [exact Hopen|].
  exact (Hstats _ Hlisting Hopen).
Defined.


(** X9. Deleting by identifier: the identifier is unknown afterwards,
    every other identifier stands for the entry it stood for, and the
    identifier given to the next new entry is not changed. *)
Theorem deleteQuery_lookup (id : nat) (db : QueryLogModel.Collection) :
  QueryLogModel.findById id (QueryLogController.deleteQuery id db) = None
  /\ (forall other, other <> id ->
        QueryLogModel.findById other (QueryLogController.deleteQuery id db)
        = QueryLogModel.findById other db)
  /\ QueryLogModel.nextId (QueryLogController.deleteQuery id db) = QueryLogModel.nextId db.
Proof.
  unfold QueryLogController.deleteQuery, QueryLogModel.findByIdAndDelete. cbn [snd].
  split; [|split; [|done]].
  - by rewrite findById_filter, Nat.eqb_refl.
  - intros other Hother. by rewrite findById_filter, (proj2 (Nat.eqb_neq _ _) Hother).
Qed.


(** X10. The listing after a question was logged, in a ledger reached
    from the empty one. A successful [logUnansweredQuery] that carried a
    user identifier, or that updated an existing entry, leaves an
    unanswered entry that names an asker, and [getUnansweredQueries]
    then throws on [u._id.toString()]: the handler answers 500, without
    statistics. A call without identifier that created an entry keeps a
    listing that answered with statistics before: it answers again, with
    one more unanswered entry, a total ask count raised by one, and no
    student. *)
Theorem getUnansweredQueries_after_log (rs : list QueryLogController.request)
    (completion : Js.result (option string)) (now : Z) (originalQuestion : string)
    (userId : option string) (entry : QueryLogModel.QueryLog)
    (db' : QueryLogModel.Collection) :
  let db := QueryLogController.run rs QueryLogModel.empty in
  QueryLogController.logUnansweredQuery completion now originalQuestion userId db
  = Js.Ok (entry, db') ->
  (Js.truthy userId = true
   \/ length (QueryLogModel.docs db') = length (QueryLogModel.docs db) ->
   exists error, QueryLogController.getUnansweredQueries db' = Js.Throw error)
  /\ (Js.truthy userId = false ->
      length (QueryLogModel.docs db') <> length (QueryLogModel.docs db) ->
      forall stats,
        QueryLogController.getUnansweredQueries db = Js.Ok stats ->
        QueryLogController.getUnansweredQueries db'
        = Js.Ok (QueryLogController.mkStats
                   (S (QueryLogController.totalUnanswered stats))
                   (QueryLogController.totalAskCount stats + 1) 0)).
Proof.
  intros db Hcall.
  destruct (reachable rs) as [[[Hnodup Hids] _] _]. fold db in Hnodup, Hids.
  apply logUnansweredQuery_inv in Hcall
    as (n & _ & -> & [(sq & _ & Hsq & Hopen & ->)|(_ & _ & ->)]).
  - split.
    + intros _.
      apply (getUnansweredQueries_asker _
               (QueryLogModel.pre_save now
                  (QueryLogController.updateExisting sq now originalQuestion userId)));
        [apply write_elem | exact Hopen | apply updateExisting_askers].
    + intros _ Hgrew. exfalso. apply Hgrew.
      rewrite write_known by (by exists sq). cbn [QueryLogModel.docs]. apply length_map.
  - rewrite write_fresh by done. split.
    + intros [Htruthy|Hsame].
      * apply (getUnansweredQueries_asker _
                 (QueryLogModel.pre_save now
                    (QueryLogController.newQueryLog (QueryLogModel.nextId db) now
                       originalQuestion n userId))).
        -- cbn [QueryLogModel.docs]. apply elem_of_app. right. left.
        -- done.
        -- simpl. by rewrite Htruthy.
      * exfalso. cbn [QueryLogModel.docs] in Hsame. rewrite length_app in Hsame.
        simpl in Hsame. lia.
    + intros Hfalsy _ stats Hstats.
      apply getUnansweredQueries_Ok in Hstats as [Hall ->].
      rewrite getUnansweredQueries_no_askers.
      * unfold QueryLogModel.find. cbn [QueryLogModel.docs].
        rewrite List.filter_app. cbn [List.filter QueryLogModel.pre_save
          QueryLogController.newQueryLog QueryLogModel.answered negb].
        rewrite length_app, fold_left_app. cbn [length fold_left
          QueryLogModel.askCount QueryLogController.totalUnanswered
          QueryLogController.totalAskCount].
        f_equal. f_equal. lia.
      * unfold no_askers, QueryLogModel.find in *. cbn [QueryLogModel.docs].
        rewrite List.filter_app. apply Forall_app. split; [exact Hall|].
        cbn [List.filter QueryLogModel.pre_save QueryLogController.newQueryLog
             QueryLogModel.answered negb].
        apply Forall_singleton. simpl. by rewrite Hfalsy.
Qed.

(** The ledger after one question of [u1] about the hostel fee. *)
Definition hostel_ledger : QueryLogModel.Collection :=
  QueryLogController.run
    [QueryLogController.LogUnanswered (Js.Ok (Some "What is the hostel fee?")) 10
       "hostel fee kitni hai?" (Some "u1")]
    QueryLogModel.empty.

Lemma getUnansweredQueries_after_log_witness :
  match QueryLogController.logUnansweredQuery (Js.Ok (Some "What is the hostel fee?")) 20
          "How much is the hostel fee" None hostel_ledger with
  | Js.Ok (entry, db') =>
      exists error, QueryLogController.getUnansweredQueries db' = Js.Throw error
  | Js.Throw _ => False
  end
  /\ match QueryLogController.logUnansweredQuery (Js.Ok (Some "What is the hostel fee?")) 20
             "How much is the hostel fee" None
             (QueryLogController.run [] QueryLogModel.empty) with
     | Js.Ok (entry, db') =>
         QueryLogController.getUnansweredQueries db'
         = Js.Ok (QueryLogController.mkStats
                    (S (QueryLogController.totalUnanswered
                          (QueryLogController.mkStats 0 0 0)))
                    (QueryLogController.totalAskCount (QueryLogController.mkStats 0 0 0) + 1)
                    0)
     | Js.Throw _ => False
     end.
Proof.
  split.
  - destruct (QueryLogController.logUnansweredQuery (Js.Ok (Some "What is the hostel fee?")) 20
                "How much is the hostel fee" None hostel_ledger) as [[entry db']|e] eqn:Hcall;
      [|vm_compute in Hcall; discriminate].
    apply (proj1 (getUnansweredQueries_after_log _ _ _ _ _ _ _ Hcall)).
    right. vm_compute in Hcall. injection Hcall as _ <-. vm_compute. reflexivity.
  - destruct (QueryLogController.logUnansweredQuery (Js.Ok (Some "What is the hostel fee?")) 20
                "How much is the hostel fee" None
                (QueryLogController.run [] QueryLogModel.empty)) as [[entry db']|e] eqn:Hcall;
      [|vm_compute in Hcall; discriminate].
    apply (proj2 (getUnansweredQueries_after_log [] _ _ _ _ _ _ Hcall)).
    + reflexivity.
    + vm_compute in Hcall. injection Hcall as _ <-. simpl. lia.
    + vm_compute. reflexivity.
Defined.

(** ** The QueryLog ledger: questions without a long word *)

Section ShortQuestions.
Import QueryLogModel QueryLogController.

Lemma tokens_toLowerCase s : tokens (Js.toLowerCase s) = tokens s.
Proof. unfold tokens. by rewrite toLowerCase_idem. Qed.

Lemma words_no_tokens s : tokens s = [] -> words s = ∅.
Proof. unfold words. by intros ->. Qed.

Lemma update_valid sq now originalQuestion userId :
  valid sq -> valid (updateExisting sq now originalQuestion userId).
Proof. done. Qed.

End ShortQuestions.

(** X11. Two texts without a word longer than two code units have
    similarity 1, so a question whose normalized text has no such word
    ("Hi", "is TC ok") is never given an entry of its own while an unanswered
    entry without such a word exists: the call updates an entry of that
    kind, whose ask count grows by one. *)
Theorem short_questions_share_an_entry (completion : Js.result (option string)) (now : Z)
    (originalQuestion : string) (userId : option string) (db : QueryLogModel.Collection)
    (n : string) (e : QueryLogModel.QueryLog) :
  Forall valid (QueryLogModel.docs db) ->
  e ∈ QueryLogModel.docs db -> QueryLogModel.answered e = false ->
  tokens (QueryLogModel.normalizedQuestion e) = [] ->
  normalizeQuery completion originalQuestion = Js.Ok n -> tokens n = [] ->
  exists sq entry db',
    QueryLogController.logUnansweredQuery completion now originalQuestion userId db
    = Js.Ok (entry, db')
    /\ sq ∈ QueryLogModel.docs db
    /\ tokens (QueryLogModel.normalizedQuestion sq) = []
    /\ QueryLogModel._id entry = QueryLogModel._id sq
    /\ QueryLogModel.askCount entry = (QueryLogModel.askCount sq + 1)%Z
    /\ length (QueryLogModel.docs db') = length (QueryLogModel.docs db).
Proof.
  intros Hvalid He Hopen Hshort Hn Hnshort.
  destruct (same_words_found n
              (QueryLogModel.find (fun q => negb (QueryLogModel.answered q)) db)
              (7 # 10) e) as (sq & Hsim & Hsq & Hone).
  - reflexivity.
  - discriminate.
  - apply find_elem. by rewrite Hopen.
  - unfold normalizedQuestionOf, QueryLogModel.QueryLog_normalized.
    by rewrite !words_no_tokens.
  - apply find_elem in Hsq as [Hsq _].
    rewrite Forall_forall in Hvalid. specialize (Hvalid sq Hsq).
    exists sq. eexists _, _.
    rewrite (logUnansweredQuery_update _ _ _ _ _ _ _ Hn Hsim).
    rewrite save_valid by (by apply update_valid).
    split; [reflexivity|]. split; [done|]. split; [|split; [done|split; [done|]]].
    + destruct (tokens (QueryLogModel.normalizedQuestion sq)) as [|w ws] eqn:Htokens; [done|].
      exfalso. unfold similarityTo in Hone.
      rewrite similarity_disjoint in Hone; [discriminate| |].
      * intros x Hx. rewrite tokens_toLowerCase, Hnshort in Hx. by apply elem_of_nil in Hx.
      * right. unfold normalizedQuestionOf, QueryLogModel.QueryLog_normalized.
        by rewrite tokens_toLowerCase, Htokens.
    + rewrite write_known by (by exists sq). cbn [QueryLogModel.docs]. apply length_map.
Qed.

Definition greeting_entry : QueryLogModel.QueryLog :=
  QueryLogModel.mkQueryLog 0 "Hi" "Hi" false QueryLogModel.none [] 1
    [QueryLogModel.mkOccurrence "Hi" 10] 10 10 10.

Lemma short_questions_share_an_entry_witness :
  exists sq entry db',
    QueryLogController.logUnansweredQuery (Js.Throw (Js.ApiError "rate limit")) 20
      "is TC ok" (Some "u2") (QueryLogModel.mkCollection [greeting_entry] 1)
    = Js.Ok (entry, db')
    /\ sq ∈ QueryLogModel.docs (QueryLogModel.mkCollection [greeting_entry] 1)
    /\ tokens (QueryLogModel.normalizedQuestion sq) = []
    /\ QueryLogModel._id entry = QueryLogModel._id sq
    /\ QueryLogModel.askCount entry = (QueryLogModel.askCount sq + 1)%Z
    /\ length (QueryLogModel.docs db')
       = length (QueryLogModel.docs (QueryLogModel.mkCollection [greeting_entry] 1)).
Proof.
  apply (short_questions_share_an_entry _ 20 "is TC ok" (Some "u2")
           (QueryLogModel.mkCollection [greeting_entry] 1) "is TC ok" greeting_entry).
  - apply Forall_singleton. split; discriminate.
  - left.
  - reflexivity.
  - vm_compute. reflexivity.
  - reflexivity.
  - vm_compute. reflexivity.
Defined.

(** ** The QueryLog ledger: reachable ledgers *)






(** ** The chat controller: sessions *)

Section Sessions.
Import ChatController.

Lemma getSession_lookup now sessionId userSessions :
  (getSession now sessionId userSessions).2 !! sessionId
  = Some (getSession now sessionId userSessions).1.
Proof.
  unfold getSession. destruct (userSessions !! sessionId) eqn:Hs; simpl; [done|].
  by rewrite lookup_insert_eq.
Qed.

Lemma getSession_frame now sessionId other userSessions :
  other <> sessionId ->
  (getSession now sessionId userSessions).2 !! other = userSessions !! other.
Proof.
  intros Hne. unfold getSession. destruct (userSessions !! sessionId); simpl; [done|].
  by rewrite lookup_insert_ne.
Qed.

Lemma historyOf_lookup sessionId session userSessions :
  userSessions !! sessionId = Some session -> historyOf sessionId userSessions = history session.
Proof. unfold historyOf. by intros ->. Qed.

Lemma updateSessionActivity_lookup now sessionId userSessions :
  updateSessionActivity now sessionId userSessions !! sessionId
  = Some (mkSession (historyOf sessionId userSessions) now).
Proof.
  unfold updateSessionActivity.
  pose proof (getSession_history now sessionId userSessions) as Hh.
  destruct (getSession now sessionId userSessions) as [session sessions'].
  simpl in Hh. by rewrite lookup_insert_eq, Hh.
Qed.

Lemma updateSessionActivity_frame now sessionId other userSessions :
  other <> sessionId ->
  updateSessionActivity now sessionId userSessions !! other = userSessions !! other.
Proof.
  intros Hne. unfold updateSessionActivity.
  pose proof (getSession_frame now sessionId other userSessions Hne) as Hf.
  destruct (getSession now sessionId userSessions) as [session sessions'].
  simpl in Hf. by rewrite lookup_insert_ne.
Qed.

Lemma pushTurn_lookup sessionId turn session userSessions :
  userSessions !! sessionId = Some session ->
  pushTurn sessionId turn userSessions !! sessionId
  = Some (mkSession (history session ++ [turn]) (lastActivity session)).
Proof. intros Hs. unfold pushTurn. by rewrite Hs, lookup_insert_eq. Qed.

Lemma pushTurn_frame sessionId other turn userSessions :
  other <> sessionId -> pushTurn sessionId turn userSessions !! other = userSessions !! other.
Proof.
  intros Hne. unfold pushTurn. destruct (userSessions !! sessionId); [|done].
  by rewrite lookup_insert_ne.
Qed.

(** What [transformQuery] leaves when the completion returns: the
    session with its history as before and its activity at [now]. *)
Lemma transformQuery_Ok response now question sessionId userSessions :
  exists userSessions',
    transformQuery (Js.Ok response) now question sessionId userSessions
    = (Js.Ok response, userSessions')
    /\ userSessions' !! sessionId
       = Some (mkSession (historyOf sessionId userSessions) now)
    /\ forall other, other <> sessionId -> userSessions' !! other = userSessions !! other.
Proof.
  unfold transformQuery.
  pose proof (getSession_history now sessionId userSessions) as Hh.
  pose proof (fun other => getSession_frame now sessionId other userSessions) as Hf.
  destruct (getSession now sessionId userSessions) as [session sessions1].
  simpl in Hh, Hf. eexists. split; [reflexivity|]. split.
  - rewrite updateSessionActivity_lookup, historyOf_insert. simpl.
    unfold pop. by rewrite removelast_last, Hh.
  - intros other Hne. rewrite updateSessionActivity_frame by done.
    rewrite !lookup_insert_ne by done. by apply Hf.
Qed.

(** What it leaves when the completion throws. *)
Lemma transformQuery_Throw error now question sessionId userSessions :
  exists userSessions' session,
    transformQuery (Js.Throw error) now question sessionId userSessions
    = (Js.Throw error, userSessions')
    /\ userSessions' !! sessionId = Some session
    /\ history session = historyOf sessionId userSessions ++ [mkTurn user question]
    /\ forall other, other <> sessionId -> userSessions' !! other = userSessions !! other.
Proof.
  unfold transformQuery.
  pose proof (getSession_history now sessionId userSessions) as Hh.
  pose proof (fun other => getSession_frame now sessionId other userSessions) as Hf.
  destruct (getSession now sessionId userSessions) as [session sessions1].
  simpl in Hh, Hf. eexists _, _. split; [reflexivity|]. split; [by rewrite lookup_insert_eq|].
  split; [by rewrite <- Hh|].
  intros other Hne. rewrite lookup_insert_ne by done. by apply Hf.
Qed.

(** The sweep, entry by entry. *)
Lemma cleanup_fold now (userSessions acc : gmap string Session) :
  forall sessionId,
    map_fold
      (fun sessionId session userSessions =>
         if (SESSION_TIMEOUT <? now - lastActivity session)%Z
         then delete sessionId userSessions
         else userSessions)
      acc userSessions !! sessionId
    = match userSessions !! sessionId with
      | Some session =>
          if (SESSION_TIMEOUT <? now - lastActivity session)%Z then None
          else acc !! sessionId
      | None => acc !! sessionId
      end.
Proof.
  apply (map_fold_weak_ind
           (fun r (m : gmap string Session) =>
              forall sessionId,
                r !! sessionId
                = match m !! sessionId with
                  | Some session =>
                      if (SESSION_TIMEOUT <? now - lastActivity session)%Z then None
                      else acc !! sessionId
                  | None => acc !! sessionId
                  end)).
  - intros sessionId. by rewrite lookup_empty.
  - intros i session m r Hfresh IH sessionId.
    destruct (decide (sessionId = i)) as [->|Hne].
    + rewrite lookup_insert_eq.
      destruct (SESSION_TIMEOUT <? now - lastActivity session)%Z.
      * by rewrite lookup_delete_eq.
      * by rewrite IH, Hfresh.
    + rewrite lookup_insert_ne by done.
      destruct (SESSION_TIMEOUT <? now - lastActivity session)%Z.
      * rewrite lookup_delete_ne by done. apply IH.
      * apply IH.
Qed.

Lemma cleanup_lookup now (userSessions : gmap string Session) sessionId :
  cleanupInactiveSessions now userSessions !! sessionId
  = match userSessions !! sessionId with
    | Some session =>
        if decide (now - lastActivity session <= 300000)%Z then Some session else None
    | None => None
    end.
Proof.
  unfold cleanupInactiveSessions. rewrite cleanup_fold.
  destruct (userSessions !! sessionId) as [session|]; [|done].
  unfold SESSION_TIMEOUT.
  destruct (Z.ltb_spec (5 * 60 * 1000) (now - lastActivity session)).
  - by rewrite decide_False by lia.
  - by rewrite decide_True by lia.
Qed.

(** The first two steps of [chatting]: the session is looked up, then the
    question is rewritten. *)
Lemma chatting_rewritten rewritten_question embedding search completion normalizer
    started rewritten answered logged generated question userId sessionId userSessions db :
  let id := or_else sessionId (or_else userId generated) in
  exists userSessions2,
    userSessions2 !! id = Some (mkSession (historyOf id userSessions) rewritten)
    /\ (forall other, other <> id -> userSessions2 !! other = userSessions !! other)
    /\ chatting (Js.Ok rewritten_question) embedding search completion normalizer
         started rewritten answered logged generated question userId sessionId
         userSessions db
       = match embedding with
         | Js.Throw error => (Js.Throw error, userSessions2, db)
         | Js.Ok _ =>
             match search with
             | Js.Throw error => (Js.Throw error, userSessions2, db)
             | Js.Ok _ =>
                 let userSessions3 :=
                   pushTurn id (mkTurn user rewritten_question) userSessions2 in
                 match completion with
                 | Js.Throw error => (Js.Throw error, userSessions3, db)
                 | Js.Ok responseText =>
                     (Js.Ok (mkChatResponse responseText id),
                      updateSessionActivity answered id
                        (pushTurn id (mkTurn assistant responseText) userSessions3),
                      if isUnansweredResponse responseText
                      then QueryLogController.handle
                             (QueryLogController.LogUnanswered normalizer logged question
                                userId) db
                      else db)
                 end
             end
         end.
Proof.
  intros id. unfold chatting. fold id.
  pose proof (getSession_history started id userSessions) as Hh1.
  pose proof (fun other => getSession_frame started id other userSessions) as Hf1.
  pose proof (getSession_lookup started id userSessions) as Hl1.
  destruct (getSession started id userSessions) as [session1 sessions1].
  simpl in Hh1, Hf1, Hl1.
  destruct (transformQuery_Ok (Some rewritten_question) rewritten question id sessions1)
    as (sessions2 & Htq & Hl2 & Hf2).
  cbn [Js.bind]. rewrite Htq.
  rewrite (historyOf_lookup _ _ _ Hl1), Hh1 in Hl2.
  exists sessions2. split; [done|]. split.
  - intros other Hne. rewrite Hf2 by done. by apply Hf1.
  - destruct embedding, search, completion; reflexivity.
Qed.

Lemma chatting_rewrite_failed error embedding search completion normalizer
    started rewritten answered logged generated question userId sessionId userSessions db :
  let id := or_else sessionId (or_else userId generated) in
  exists userSessions2 session,
    chatting (Js.Throw error) embedding search completion normalizer
      started rewritten answered logged generated question userId sessionId
      userSessions db
    = (Js.Throw error, userSessions2, db)
    /\ userSessions2 !! id = Some session
    /\ history session = historyOf id userSessions ++ [mkTurn user question]
    /\ forall other, other <> id -> userSessions2 !! other = userSessions !! other.
Proof.
  intros id. unfold chatting. fold id.
  pose proof (getSession_history started id userSessions) as Hh1.
  pose proof (fun other => getSession_frame started id other userSessions) as Hf1.
  pose proof (getSession_lookup started id userSessions) as Hl1.
  destruct (getSession started id userSessions) as [session1 sessions1].
  simpl in Hh1, Hf1, Hl1.
  destruct (transformQuery_Throw error rewritten question id sessions1)
    as (sessions2 & session & Htq & Hl2 & Hh2 & Hf2).
  cbn [Js.bind]. rewrite Htq.
  exists sessions2, session. split; [done|]. split; [done|]. split.
  - by rewrite Hh2, (historyOf_lookup _ _ _ Hl1), Hh1.
  - intros other Hne. rewrite Hf2 by done. by apply Hf1.
Qed.

End Sessions.

(** X13. A sweep at time [now] deletes exactly the sessions whose last
    activity lies more than 300000 ms (five minutes) back; every other
    session is kept as it is, with its history. *)
Theorem cleanupInactiveSessions_lookup (now : Z)
    (userSessions : gmap string ChatController.Session) (sessionId : string) :
  ChatController.cleanupInactiveSessions now userSessions !! sessionId
  = match userSessions !! sessionId with
    | Some session =>
        if decide (now - ChatController.lastActivity session <= 300000)%Z
        then Some session else None
    | None => None
    end.
Proof. apply cleanup_lookup. Qed.

(** X14. A successful chat. When the rewrite, the embedding, the index
    query and the answer completion all return, [chatting] answers with
    the completion's text and the session identifier
    ([sessionId || userId || generated]); the session's history is the
    history before the call followed by the rewritten question as a user
    turn and the answer as an assistant turn (the raw question is not
    kept), its last activity is the time the answer returned, and every
    other session is as it was. *)
Theorem chatting_success (rewritten_question : string) (vector : list float)
    (matches : list string) (responseText : string)
    (normalizer : Js.result (option string)) (started rewritten answered logged : Z)
    (generated question : string) (userId sessionId : option string)
    (userSessions : gmap string ChatController.Session) (db : QueryLogModel.Collection) :
  let id := ChatController.or_else sessionId (ChatController.or_else userId generated) in
  let result :=
    ChatController.chatting (Js.Ok rewritten_question) (Js.Ok vector) (Js.Ok matches)
      (Js.Ok responseText) normalizer started rewritten answered logged generated
      question userId sessionId userSessions db in
  result.1.1 = Js.Ok (ChatController.mkChatResponse responseText id)
  /\ result.1.2 !! id
     = Some (ChatController.mkSession
               (ChatController.historyOf id userSessions
                ++ [ChatController.mkTurn ChatController.user rewritten_question;
                    ChatController.mkTurn ChatController.assistant responseText])
               answered)
  /\ forall other, other <> id -> result.1.2 !! other = userSessions !! other.
Proof.
  intros id result.
  destruct (chatting_rewritten rewritten_question (Js.Ok vector) (Js.Ok matches)
              (Js.Ok responseText) normalizer started rewritten answered logged generated
              question userId sessionId userSessions db) as (sessions2 & Hl2 & Hf2 & Hcall).
  fold id in Hl2, Hf2, Hcall. fold result in Hcall. rewrite Hcall. cbn [fst snd].
  split; [done|]. split.
  - rewrite updateSessionActivity_lookup.
    erewrite historyOf_lookup; [|erewrite pushTurn_lookup; [done|by apply pushTurn_lookup]].
    cbn [ChatController.history]. by rewrite <- app_assoc.
  - intros other Hne. rewrite updateSessionActivity_frame, !pushTurn_frame by done.
    by apply Hf2.
Qed.

(** X15. The ledger and the chat. [chatting] writes to the QueryLog
    ledger only when all four awaited calls returned and the answer is
    classified unanswered; what it logs then is the question as the user
    wrote it (not the rewritten one) under the user identifier, and a
    failure of the logging leaves the ledger as it was. The outcome of
    the chat and the sessions it leaves do not depend on the ledger nor
    on what the logging does. *)
Theorem chatting_logging (rewrite : Js.result string) (embedding : Js.result (list float))
    (search : Js.result (list string)) (completion : Js.result string)
    (normalizer : Js.result (option string)) (started rewritten answered logged : Z)
    (generated question : string) (userId sessionId : option string)
    (userSessions : gmap string ChatController.Session) (db : QueryLogModel.Collection) :
  (ChatController.chatting rewrite embedding search completion normalizer
     started rewritten answered logged generated question userId sessionId userSessions db).2
  = match rewrite, embedding, search, completion with
    | Js.Ok _, Js.Ok _, Js.Ok _, Js.Ok responseText =>
        if isUnansweredResponse responseText
        then match QueryLogController.logUnansweredQuery normalizer logged question userId db
             with
             | Js.Ok (_, db') => db'
             | Js.Throw _ => db
             end
        else db
    | _, _, _, _ => db
    end
  /\ forall normalizer' logged' db0,
       (ChatController.chatting rewrite embedding search completion normalizer
          started rewritten answered logged generated question userId sessionId
          userSessions db).1
       = (ChatController.chatting rewrite embedding search completion normalizer'
            started rewritten answered logged' generated question userId sessionId
            userSessions db0).1.
Proof.
  split.
  - destruct rewrite as [rewritten_question|error].
    + destruct (chatting_rewritten rewritten_question embedding search completion normalizer
                  started rewritten answered logged generated question userId sessionId
                  userSessions db) as (sessions2 & _ & _ & Hcall).
      rewrite Hcall. destruct embedding, search, completion; reflexivity.
    + destruct (chatting_rewrite_failed error embedding search completion normalizer
                  started rewritten answered logged generated question userId sessionId
                  userSessions db) as (sessions2 & session & Hcall & _).
      by rewrite Hcall.
  - intros normalizer' logged' db0. unfold ChatController.chatting.
    destruct (ChatController.getSession _ _ _) as [session1 sessions1].
    destruct (ChatController.transformQuery _ _ _ _ _) as [[[queries|]|error] sessions3];
      destruct embedding, search, completion; reflexivity.
Qed.

(** X16. A failed chat. Whichever awaited call throws, [chatting] throws
    its error and the ledger is not written. If the rewrite throws, the
    raw question stays in the history as a user turn; if the embedding or
    the index query throws, the history is as before the call; if the
    answer completion throws, the rewritten question stays in the history
    as a user turn without an answer. *)
Theorem chatting_failure (error : Js.JsError) (rewritten_question : string)
    (vector : list float) (matches : list string)
    (rewrite : Js.result string) (embedding : Js.result (list float))
    (search : Js.result (list string)) (completion : Js.result string)
    (normalizer : Js.result (option string)) (started rewritten answered logged : Z)
    (generated question : string) (userId sessionId : option string)
    (userSessions : gmap string ChatController.Session) (db : QueryLogModel.Collection) :
  let id := ChatController.or_else sessionId (ChatController.or_else userId generated) in
  let chat rewrite embedding search completion :=
    ChatController.chatting rewrite embedding search completion normalizer
      started rewritten answered logged generated question userId sessionId
      userSessions db in
  let before := ChatController.historyOf id userSessions in
  (let result := chat (Js.Throw error) embedding search completion in
   result.1.1 = Js.Throw error /\ result.2 = db
   /\ ChatController.historyOf id result.1.2
      = before ++ [ChatController.mkTurn ChatController.user question])
  /\ (let result := chat (Js.Ok rewritten_question) (Js.Throw error) search completion in
      result.1.1 = Js.Throw error /\ result.2 = db
      /\ ChatController.historyOf id result.1.2 = before)
  /\ (let result := chat (Js.Ok rewritten_question) (Js.Ok vector) (Js.Throw error)
                         completion in
      result.1.1 = Js.Throw error /\ result.2 = db
      /\ ChatController.historyOf id result.1.2 = before)
  /\ (let result := chat (Js.Ok rewritten_question) (Js.Ok vector) (Js.Ok matches)
                         (Js.Throw error) in
      result.1.1 = Js.Throw error /\ result.2 = db
      /\ ChatController.historyOf id result.1.2
         = before ++ [ChatController.mkTurn ChatController.user rewritten_question]).
Proof.
  intros id chat before. unfold chat. split; [|split; [|split]].
  - destruct (chatting_rewrite_failed error embedding search completion normalizer
                started rewritten answered logged generated question userId sessionId
                userSessions db) as (sessions2 & session & Hcall & Hl2 & Hh2 & _).
    fold id in Hl2, Hh2. cbv zeta. rewrite Hcall. cbn [fst snd].
    split; [done|]. split; [done|]. by rewrite (historyOf_lookup _ _ _ Hl2).
  - destruct (chatting_rewritten rewritten_question (Js.Throw error) search completion
                normalizer started rewritten answered logged generated question userId
                sessionId userSessions db) as (sessions2 & Hl2 & _ & Hcall).
    fold id in Hl2. cbv zeta. rewrite Hcall. cbn [fst snd].
    split; [done|]. split; [done|]. by rewrite (historyOf_lookup _ _ _ Hl2).
  - destruct (chatting_rewritten rewritten_question (Js.Ok vector) (Js.Throw error)
                completion normalizer started rewritten answered logged generated question
                userId sessionId userSessions db) as (sessions2 & Hl2 & _ & Hcall).
    fold id in Hl2. cbv zeta. rewrite Hcall. cbn [fst snd].
    split; [done|]. split; [done|]. by rewrite (historyOf_lookup _ _ _ Hl2).
  - destruct (chatting_rewritten rewritten_question (Js.Ok vector) (Js.Ok matches)
                (Js.Throw error) normalizer started rewritten answered logged generated
                question userId sessionId userSessions db) as (sessions2 & Hl2 & _ & Hcall).
    fold id in Hl2. cbv zeta. rewrite Hcall. cbn [fst snd].
    split; [done|]. split; [done|].
    erewrite historyOf_lookup; [|by apply pushTurn_lookup]. done.
Qed.

(** X17. A conversation is remembered for five minutes. After a
    successful chat whose answer returned at time [answered], a sweep at
    a time up to [answered + 300000] keeps the session with the history
    of the chat; the first sweep after that deletes it, and the
    identifier then stands for an empty history again. *)
Theorem chat_remembered_five_minutes (rewritten_question : string) (vector : list float)
    (matches : list string) (responseText : string)
    (normalizer : Js.result (option string)) (started rewritten answered logged : Z)
    (generated question : string) (userId sessionId : option string)
    (userSessions : gmap string ChatController.Session) (db : QueryLogModel.Collection)
    (now : Z) :
  let id := ChatController.or_else sessionId (ChatController.or_else userId generated) in
  let userSessions' :=
    (ChatController.chatting (Js.Ok rewritten_question) (Js.Ok vector) (Js.Ok matches)
       (Js.Ok responseText) normalizer started rewritten answered logged generated
       question userId sessionId userSessions db).1.2 in
  ChatController.historyOf id (ChatController.cleanupInactiveSessions now userSessions')
  = if decide (now <= answered + 300000)%Z
    then ChatController.historyOf id userSessions
         ++ [ChatController.mkTurn ChatController.user rewritten_question;
             ChatController.mkTurn ChatController.assistant responseText]
    else [].
Proof.
  intros id sessions'.
  destruct (chatting_rewritten rewritten_question (Js.Ok vector) (Js.Ok matches)
              (Js.Ok responseText) normalizer started rewritten answered logged generated
              question userId sessionId userSessions db) as (sessions2 & Hl2 & Hf2 & Hcall).
  fold id in Hl2, Hf2, Hcall.
  assert (Hl : sessions' !! id
               = Some (ChatController.mkSession
                         (ChatController.historyOf id userSessions
                          ++ [ChatController.mkTurn ChatController.user rewritten_question;
                              ChatController.mkTurn ChatController.assistant responseText])
                         answered)).
  { unfold sessions'. rewrite Hcall. cbn [fst snd].
    rewrite updateSessionActivity_lookup.
    erewrite historyOf_lookup; [|erewrite pushTurn_lookup; [done|by apply pushTurn_lookup]].
    cbn [ChatController.history]. by rewrite <- app_assoc. }
  unfold ChatController.historyOf at 1. rewrite cleanup_lookup, Hl.
  cbn [ChatController.lastActivity].
  destruct (decide (now <= answered + 300000)%Z).
  - by rewrite decide_True by lia.
  - by rewrite decide_False by lia.
Qed.
(** ** The KnowledgeGap ledger *)

Section GapLedger.
Import KnowledgeGapModel KnowledgeGapController.

(** What every stored gap satisfies: the ask count is the number of
    question records and is at least 1, the priority is the tier of the
    ask count, and the document passes validation. *)
Definition gap_ok (g : KnowledgeGap) : Prop :=
  askCount g = Z.of_nat (length (originalQueries g))
  /\ (1 <= askCount g)%Z
  /\ priority g = derivePriority (askCount g)
  /\ validate g = Js.Ok tt.

Definition gaps_inv (db : Collection) : Prop :=
  Forall gap_ok (docs db)
  /\ NoDup (map _id (docs db))
  /\ Forall (fun d => _id d < nextId db) (docs db)
  /\ NoDup (map normalizedQuery (docs db)).

Lemma NoDup_key_eq {A K} (key : A -> K) (l : list A) d e :
  NoDup (map key l) -> d ∈ l -> e ∈ l -> key d = key e -> d = e.
Proof.
  induction l as [|x l IH]; intros Hnd Hd He Hkey; [by apply elem_of_nil in Hd|].
  rewrite fmap_cons in Hnd. apply NoDup_cons in Hnd as [Hx Hnd].
  apply elem_of_cons in Hd as [->|Hd]; apply elem_of_cons in He as [->|He]; try done.
  - exfalso. apply Hx. rewrite Hkey. by apply list_elem_of_fmap_2.
  - exfalso. apply Hx. rewrite <- Hkey. by apply list_elem_of_fmap_2.
  - by apply IH.
Qed.

Lemma validate_pre_save g : validate (pre_save g) = validate g.
Proof. done. Qed.

(** The two writes of [save]. *)
Lemma gap_save_inv g db g' db' :
  save g db = Js.Ok (g', db') ->
  validate g = Js.Ok tt /\ g' = pre_save g
  /\ ((exists d, d ∈ docs db /\ _id d = _id g)
      /\ db' = mkCollection (map (fun d => if _id d =? _id g then g' else d) (docs db))
                            (nextId db)
      \/ (forall d, d ∈ docs db -> _id d <> _id g)
         /\ (forall d, d ∈ docs db -> normalizedQuery d <> normalizedQuery g)
         /\ db' = mkCollection (docs db ++ [g']) (Nat.max (nextId db) (S (_id g')))).
Proof.
  unfold save. destruct (validate g) as [[]|e]; [|done]. cbn [Js.bind].
  destruct (existsb (fun d => _id d =? _id (pre_save g)) (docs db)) eqn:Hknown.
  - intros [= <- <-]. split; [done|]. split; [done|]. left. split; [|done].
    apply existsb_exists in Hknown as (d & Hd & Hid).
    exists d. split; [by apply list_elem_of_In | by apply Nat.eqb_eq in Hid].
  - destruct (existsb (fun d => String.eqb (normalizedQuery d) (normalizedQuery (pre_save g)))
                      (docs db)) eqn:Hdup; [done|].
    intros [= <- <-]. split; [done|]. split; [done|]. right.
    split; [|split; [|done]].
    + intros d Hd Hid. apply not_true_iff_false in Hknown. apply Hknown.
      apply existsb_exists. exists d. split; [by apply list_elem_of_In|].
      by apply Nat.eqb_eq.
    + intros d Hd Hq. apply not_true_iff_false in Hdup. apply Hdup.
      apply existsb_exists. exists d. split; [by apply list_elem_of_In|].
      by apply String.eqb_eq.
Qed.

Lemma gap_save_valid g db :
  validate g = Js.Ok tt -> (exists d, d ∈ docs db /\ _id d = _id g) ->
  save g db
  = Js.Ok (pre_save g,
           mkCollection (map (fun d => if _id d =? _id g then pre_save g else d) (docs db))
                        (nextId db)).
Proof.
  intros Hvalid (d & Hd & Hid). unfold save. rewrite Hvalid. cbn [Js.bind].
  rewrite (proj2 (existsb_exists _ _)); [done|].
  exists d. split; [by apply list_elem_of_In | by apply Nat.eqb_eq].
Qed.

(** Writing back a stored gap that keeps its identifier and its
    normalized query. *)
Lemma gap_replace_inv (this g' : KnowledgeGap) db :
  gaps_inv db -> this ∈ docs db -> _id g' = _id this ->
  normalizedQuery g' = normalizedQuery this -> gap_ok g' ->
  gaps_inv (mkCollection (map (fun d => if _id d =? _id this then g' else d) (docs db))
                         (nextId db)).
Proof.
  intros (Hok & Hids & Hbelow & Hqueries) Hthis Hid Hquery Hg'.
  rewrite Forall_forall in Hok, Hbelow.
  assert (Hsame : forall (A : Type) (key : KnowledgeGap -> A),
            key g' = key this ->
            map key (map (fun d => if _id d =? _id this then g' else d) (docs db))
            = map key (docs db)).
  { intros A key Hkey. rewrite map_map. apply map_ext_in. intros d Hd.
    apply list_elem_of_In in Hd.
    destruct (Nat.eqb_spec (_id d) (_id this)) as [Heq|Hne]; [|done].
    by rewrite (NoDup_key_eq _id _ _ _ Hids Hd Hthis Heq). }
  split; [|split; [|split]]; cbn [docs nextId].
  - apply Forall_forall. intros d Hd.
    apply list_elem_of_In, in_map_iff in Hd as (x & <- & Hx). apply list_elem_of_In in Hx.
    destruct (_id x =? _id this); [done | by apply Hok].
  - by rewrite Hsame.
  - apply Forall_forall. intros d Hd.
    apply list_elem_of_In, in_map_iff in Hd as (x & <- & Hx). apply list_elem_of_In in Hx.
    destruct (_id x =? _id this); [rewrite Hid; by apply Hbelow | by apply Hbelow].
  - by rewrite Hsame.
Qed.

Lemma gap_append_inv (g' : KnowledgeGap) db :
  gaps_inv db -> _id g' = nextId db ->
  (forall d, d ∈ docs db -> normalizedQuery d <> normalizedQuery g') -> gap_ok g' ->
  gaps_inv (mkCollection (docs db ++ [g']) (Nat.max (nextId db) (S (_id g')))).
Proof.
  intros (Hok & Hids & Hbelow & Hqueries) Hid Hfresh Hg'.
  rewrite Forall_forall in Hbelow.
  split; [|split; [|split]]; cbn [docs nextId].
  - apply Forall_app. split; [done | by apply Forall_singleton].
  - rewrite map_app. apply NoDup_app. split; [done|]. split; [|apply NoDup_singleton].
    intros id Hin Hin'. apply list_elem_of_singleton in Hin'. subst id.
    apply list_elem_of_fmap in Hin as (d & Hd & Hin). specialize (Hbelow d Hin). lia.
  - apply Forall_app. split.
    + apply Forall_forall. intros d Hd. specialize (Hbelow d Hd). lia.
    + apply Forall_singleton. lia.
  - rewrite map_app. apply NoDup_app. split; [done|]. split; [|apply NoDup_singleton].
    intros q Hin Hin'. apply list_elem_of_singleton in Hin'. subst q.
    apply list_elem_of_fmap in Hin as (d & Hd & Hin). by apply (Hfresh d Hin).
Qed.

Lemma gap_findById_elem id db gap :
  findById id db = Some gap -> gap ∈ docs db /\ _id gap = id.
Proof.
  intros Hfind. apply find_some in Hfind as [Hin Hid].
  split; [by apply list_elem_of_In | by apply Nat.eqb_eq].
Qed.

(** An operation on a stored gap that ends in [save()] and changes
    neither the identifier nor the normalized query. *)
Lemma gap_update_inv (this g : KnowledgeGap) db g' db' :
  gaps_inv db -> this ∈ docs db -> _id g = _id this ->
  normalizedQuery g = normalizedQuery this ->
  askCount g = Z.of_nat (length (originalQueries g)) -> (1 <= askCount g)%Z ->
  save g db = Js.Ok (g', db') -> gaps_inv db'.
Proof.
  intros Hinv Hthis Hid Hquery Hcount Hone Hsave.
  apply gap_save_inv in Hsave as (Hvalid & -> & [[_ ->]|(Habsent & _)]).
  - rewrite Hid. apply gap_replace_inv; [done | done | exact Hid | exact Hquery |].
    split; [done|]. split; [done|]. split; [done|]. by rewrite validate_pre_save.
  - exfalso. by apply (Habsent this).
Qed.

Lemma gap_handle_inv r db : gaps_inv db -> gaps_inv (handle r db).
Proof.
  intros Hinv. destruct r as [now query userId|now id answer user_id|id adminId user_id];
    cbn [handle].
  - unfold findOrCreate.
    destruct (findOne _ db) as [gap|] eqn:Hfind.
    + apply find_some in Hfind as [Hgap _]. apply list_elem_of_In in Hgap.
      destruct (incrementAskCount now gap query userId db) as [[gap' db']|e] eqn:Hsave;
        [|done].
      cbn [Js.bind]. pose proof Hinv as (Hok & _). rewrite Forall_forall in Hok.
      destruct (Hok gap Hgap) as (Hcount & Hone & _).
      eapply (gap_update_inv gap); [done | done | | | | | exact Hsave]; cbn;
        [done | done | rewrite length_app; simpl; lia | lia].
    + destruct (create _ _ 1 open db) as [[gap' db']|e] eqn:Hsave; [|done].
      cbn [Js.bind]. unfold create in Hsave.
      apply gap_save_inv in Hsave as (Hvalid & -> & [[(d & Hd & Hid) _]|(_ & Hfresh & ->)]).
      * exfalso. destruct Hinv as (_ & _ & Hbelow & _). rewrite Forall_forall in Hbelow.
        specialize (Hbelow d Hd). simpl in Hid. lia.
      * apply gap_append_inv; [done | done | exact Hfresh |].
        split; [done|]. split; [done|]. split; [done | exact Hvalid].
  - unfold resolveKnowledgeGap. destruct answer as [answer|]; [|done].
    destruct (String.eqb answer ""); [done|].
    destruct (findById id db) as [gap|] eqn:Hfind; [|done].
    apply gap_findById_elem in Hfind as [Hgap _].
    destruct (resolve now gap answer user_id db) as [[gap' db']|e] eqn:Hsave; [|done].
    cbn [snd]. pose proof Hinv as (Hok & _). rewrite Forall_forall in Hok.
    destruct (Hok gap Hgap) as (Hcount & Hone & _).
    by eapply (gap_update_inv gap); [done | done | | | | | exact Hsave].
  - unfold assignKnowledgeGap.
    destruct (findById id db) as [gap|] eqn:Hfind; [|done].
    apply gap_findById_elem in Hfind as [Hgap _].
    destruct (assignTo gap _ db) as [[gap' db']|e] eqn:Hsave; [|done].
    cbn [snd]. pose proof Hinv as (Hok & _). rewrite Forall_forall in Hok.
    destruct (Hok gap Hgap) as (Hcount & Hone & _).
    by eapply (gap_update_inv gap); [done | done | | | | | exact Hsave].
Qed.

Lemma gap_run_inv rs : forall db, gaps_inv db -> gaps_inv (run rs db).
Proof.
  induction rs as [|r rs IH]; intros db Hinv; [done|].
  simpl. by apply IH, gap_handle_inv.
Qed.

Lemma gap_empty_inv : gaps_inv empty.
Proof.
  split; [apply Forall_nil_2|]. split; [apply NoDup_nil_2|].
  split; [apply Forall_nil_2 | apply NoDup_nil_2].
Qed.

Lemma gap_reachable rs : gaps_inv (run rs empty).
Proof. apply gap_run_inv, gap_empty_inv. Qed.

Lemma findOne_open_unique db E normalized :
  gaps_inv db -> E ∈ docs db -> status E = open -> normalizedQuery E = normalized ->
  findOne (fun g => String.eqb (normalizedQuery g) normalized
                    && bool_decide (status g = open)) db = Some E.
Proof.
  intros (_ & _ & _ & Hqueries) HE Hopen Hquery. unfold findOne.
  destruct (List.find _ (docs db)) as [g|] eqn:Hfind.
  - apply find_some in Hfind as [Hg Hpred]. apply list_elem_of_In in Hg.
    apply andb_true_iff in Hpred as [Heq _]. apply String.eqb_eq in Heq.
    f_equal. apply (NoDup_key_eq normalizedQuery _ _ _ Hqueries Hg HE). congruence.
  - exfalso. pose proof (find_none _ _ Hfind E (proj1 (list_elem_of_In _ _) HE)) as Hpred.
    simpl in Hpred. rewrite Hquery, String.eqb_refl, bool_decide_eq_true_2 in Hpred; done.
Qed.

Lemma trim_lower_nonempty query :
  Js.trim (Js.toLowerCase query) <> EmptyString -> query <> EmptyString.
Proof. by intros Hne ->. Qed.

Lemma validate_normalizedQuery g : validate g = Js.Ok tt -> normalizedQuery g <> EmptyString.
Proof.
  unfold validate. by destruct (String.eqb_spec (normalizedQuery g) "").
Qed.

Lemma validate_increment this now query userId :
  validate this = Js.Ok tt -> query <> EmptyString ->
  validate (mkKnowledgeGap (_id this) (normalizedQuery this)
              (originalQueries this ++ [mkOriginalQuery query (or_null userId) now])
              (askCount this + 1) (priority this) (status this) (category this)
              (assignedTo this) (resolution this))
  = Js.Ok tt.
Proof.
  unfold validate. cbn [normalizedQuery originalQueries resolution].
  intros Hvalid Hquery.
  destruct (String.eqb (normalizedQuery this) ""); [done|].
  rewrite existsb_app. cbn [existsb text orb].
  destruct (existsb _ (originalQueries this)); [done|].
  by rewrite (proj2 (String.eqb_neq _ _) Hquery).
Qed.

Lemma findOne_none db normalized :
  (forall d, d ∈ docs db -> normalizedQuery d <> normalized) ->
  findOne (fun g => String.eqb (normalizedQuery g) normalized
                    && bool_decide (status g = open)) db = None.
Proof.
  intros Habsent. apply find_none_iff. intros d Hd.
  by rewrite (proj2 (String.eqb_neq _ _) (Habsent d Hd)).
Qed.

End GapLedger.

(** X18. In every KnowledgeGap ledger reached from the empty one by
    [findOrCreate], [resolveKnowledgeGap] and [assignKnowledgeGap], every
    stored gap has an ask count equal to the number of its question
    records and at least 1, and the priority of the tier of its ask
    count; no two gaps share an identifier or a normalized query. *)
Theorem knowledgeGap_ledger_invariants (rs : list KnowledgeGapController.request) :
  let db := KnowledgeGapController.run rs KnowledgeGapModel.empty in
  Forall (fun g =>
            KnowledgeGapModel.askCount g
            = Z.of_nat (length (KnowledgeGapModel.originalQueries g))
            /\ (1 <= KnowledgeGapModel.askCount g)%Z
            /\ KnowledgeGapModel.priority g
               = KnowledgeGapModel.derivePriority (KnowledgeGapModel.askCount g))
         (KnowledgeGapModel.docs db)
  /\ NoDup (map KnowledgeGapModel._id (KnowledgeGapModel.docs db))
  /\ NoDup (map KnowledgeGapModel.normalizedQuery (KnowledgeGapModel.docs db)).
Proof.
  intros db. destruct (gap_reachable rs) as (Hok & Hids & _ & Hqueries). fold db in Hok.
  split; [|done]. eapply Forall_impl; [exact Hok|].
  by intros g (? & ? & ? & _).
Qed.

(** X19. [findOrCreate] for a question without asker ([userId] null or
    undefined, so that [askedBy] is null and no identifier is cast), on a
    ledger reached from the empty one. When an open gap holds the
    lower-cased, trimmed query, the call returns that gap with [created]
    false, its ask count raised by one and the question appended to its
    records, and no gap is added. When no gap of any status holds it and
    it is not empty, the call appends a new open gap with ask count 1
    and priority low and returns it with [created] true. When a gap that
    is not open (under review, or resolved) holds it, the call throws the
    duplicate-key error of the unique index and the question is not
    counted. *)
Theorem findOrCreate_counts (rs : list KnowledgeGapController.request) (now : Z)
    (query : string) :
  let userId : option string := None in
  let db := KnowledgeGapController.run rs KnowledgeGapModel.empty in
  let normalized := Js.trim (Js.toLowerCase query) in
  (forall E,
     E ∈ KnowledgeGapModel.docs db ->
     KnowledgeGapModel.status E = KnowledgeGapModel.open ->
     KnowledgeGapModel.normalizedQuery E = normalized ->
     exists E' db',
       KnowledgeGapModel.findOrCreate now query userId db = Js.Ok (E', false, db')
       /\ KnowledgeGapModel._id E' = KnowledgeGapModel._id E
       /\ KnowledgeGapModel.askCount E' = (KnowledgeGapModel.askCount E + 1)%Z
       /\ KnowledgeGapModel.originalQueries E'
          = KnowledgeGapModel.originalQueries E
            ++ [KnowledgeGapModel.mkOriginalQuery query None now]
       /\ KnowledgeGapModel.findById (KnowledgeGapModel._id E) db' = Some E'
       /\ length (KnowledgeGapModel.docs db') = length (KnowledgeGapModel.docs db))
  /\ ((forall d, d ∈ KnowledgeGapModel.docs db ->
                 KnowledgeGapModel.normalizedQuery d <> normalized) ->
      normalized <> EmptyString ->
      exists g db',
        KnowledgeGapModel.findOrCreate now query userId db = Js.Ok (g, true, db')
        /\ KnowledgeGapModel.normalizedQuery g = normalized
        /\ KnowledgeGapModel.askCount g = 1%Z
        /\ KnowledgeGapModel.priority g = KnowledgeGapModel.low
        /\ KnowledgeGapModel.status g = KnowledgeGapModel.open
        /\ KnowledgeGapModel.docs db' = KnowledgeGapModel.docs db ++ [g])
  /\ (forall E,
        E ∈ KnowledgeGapModel.docs db ->
        KnowledgeGapModel.status E <> KnowledgeGapModel.open ->
        KnowledgeGapModel.normalizedQuery E = normalized ->
        KnowledgeGapModel.findOrCreate now query userId db
        = Js.Throw (Js.DuplicateKeyError normalized)).
Proof.
  intros userId db normalized. pose proof (gap_reachable rs) as Hinv. fold db in Hinv.
  split; [|split].
  - intros E HE Hopen Hquery.
    pose proof Hinv as (Hok & _). rewrite Forall_forall in Hok.
    destruct (Hok E HE) as (_ & _ & _ & Hvalid).
    assert (Hne : query <> EmptyString).
    { apply trim_lower_nonempty. fold normalized. rewrite <- Hquery.
      by apply validate_normalizedQuery. }
    unfold KnowledgeGapModel.findOrCreate. fold normalized.
    rewrite (findOne_open_unique db E normalized Hinv HE Hopen Hquery).
    unfold KnowledgeGapModel.incrementAskCount.
    rewrite gap_save_valid; [|by apply validate_increment | by exists E].
    cbn [Js.bind]. eexists _, _. split; [reflexivity|].
    split; [done|]. split; [done|]. split; [done|]. split.
    + unfold KnowledgeGapModel.findById. cbn [KnowledgeGapModel.docs KnowledgeGapModel._id].
      apply list_elem_of_In in HE. clear -HE.
      induction (KnowledgeGapModel.docs db) as [|d l IH]; [done|].
      cbn [map List.find].
      destruct (Nat.eqb_spec (KnowledgeGapModel._id d) (KnowledgeGapModel._id E)) as [Hd|Hd].
      * cbn [KnowledgeGapModel.pre_save KnowledgeGapModel._id]. by rewrite Nat.eqb_refl.
      * rewrite (proj2 (Nat.eqb_neq _ _) Hd). apply IH. destruct HE as [->|HE]; done.
    + cbn [KnowledgeGapModel.docs]. apply length_map.
  - intros Habsent Hne.
    unfold KnowledgeGapModel.findOrCreate. fold normalized.
    rewrite (findOne_none db normalized Habsent).
    unfold KnowledgeGapModel.create, KnowledgeGapModel.castNormalizedQuery.
    unfold normalized at 1. rewrite lower_trim_idem. fold normalized.
    unfold KnowledgeGapModel.save, KnowledgeGapModel.validate.
    cbn [KnowledgeGapModel.normalizedQuery KnowledgeGapModel.originalQueries
         KnowledgeGapModel.resolution KnowledgeGapModel.text existsb orb].
    rewrite (proj2 (String.eqb_neq _ _) Hne).
    rewrite (proj2 (String.eqb_neq _ _) (trim_lower_nonempty query Hne)).
    cbn [Js.bind KnowledgeGapModel.pre_save KnowledgeGapModel._id
         KnowledgeGapModel.normalizedQuery].
    destruct Hinv as (_ & _ & Hbelow & _). rewrite Forall_forall in Hbelow.
    rewrite existsb_none.
    2:{ intros d Hd. apply Nat.eqb_neq. specialize (Hbelow d Hd). lia. }
    rewrite existsb_none.
    2:{ intros d Hd. apply String.eqb_neq. by apply Habsent. }
    eexists _, _. split; [reflexivity|]. done.
  - intros E HE Hstatus Hquery.
    pose proof Hinv as (Hok & _ & Hbelow & Hqueries). rewrite Forall_forall in Hok, Hbelow.
    destruct (Hok E HE) as (_ & _ & _ & Hvalid).
    assert (Hne : normalized <> EmptyString).
    { rewrite <- Hquery. by apply validate_normalizedQuery. }
    unfold KnowledgeGapModel.findOrCreate. fold normalized.
    unfold KnowledgeGapModel.findOne. rewrite find_none_iff.
    2:{ intros d Hd. apply andb_false_iff.
        destruct (String.eqb_spec (KnowledgeGapModel.normalizedQuery d) normalized)
          as [Heq|Hneq]; [right | by left].
        rewrite (NoDup_key_eq KnowledgeGapModel.normalizedQuery _ d E Hqueries Hd HE)
          by congruence.
        by apply bool_decide_eq_false_2. }
    unfold KnowledgeGapModel.create, KnowledgeGapModel.castNormalizedQuery.
    unfold normalized at 1. rewrite lower_trim_idem. fold normalized.
    unfold KnowledgeGapModel.save, KnowledgeGapModel.validate.
    cbn [KnowledgeGapModel.normalizedQuery KnowledgeGapModel.originalQueries
         KnowledgeGapModel.resolution KnowledgeGapModel.text existsb orb].
    rewrite (proj2 (String.eqb_neq _ _) Hne).
    rewrite (proj2 (String.eqb_neq _ _) (trim_lower_nonempty query Hne)).
    cbn [Js.bind KnowledgeGapModel.pre_save KnowledgeGapModel._id
         KnowledgeGapModel.normalizedQuery].
    rewrite existsb_none.
    2:{ intros d Hd. apply Nat.eqb_neq. specialize (Hbelow d Hd). lia. }
    rewrite (proj2 (existsb_exists _ _)); [done|].
    exists E. split; [by apply list_elem_of_In|]. by apply String.eqb_eq.
Qed.

(** The ledger after "Fee deadline?" was asked once. *)
Definition fee_request : KnowledgeGapController.request :=
  KnowledgeGapController.FindOrCreate 1 "Fee deadline?" None.

Definition open_fee_gap : KnowledgeGapModel.KnowledgeGap :=
  KnowledgeGapModel.mkKnowledgeGap 0 "fee deadline?"
    [KnowledgeGapModel.mkOriginalQuery "Fee deadline?" None 1]
    1 KnowledgeGapModel.low KnowledgeGapModel.open KnowledgeGapModel.general None None.

Example fee_ledger_docs :
  KnowledgeGapModel.docs (KnowledgeGapController.run [fee_request] KnowledgeGapModel.empty)
  = [open_fee_gap].
Proof. reflexivity. Qed.

Lemma findOrCreate_counts_witness :
  (exists E' db',
     KnowledgeGapModel.findOrCreate 5 " fee DEADLINE? " None
       (KnowledgeGapController.run [fee_request] KnowledgeGapModel.empty)
     = Js.Ok (E', false, db')
     /\ KnowledgeGapModel._id E' = 0
     /\ KnowledgeGapModel.askCount E' = 2%Z)
  /\ (exists g db',
        KnowledgeGapModel.findOrCreate 5 "Hostel fee?" None
          (KnowledgeGapController.run [fee_request] KnowledgeGapModel.empty)
        = Js.Ok (g, true, db')
        /\ KnowledgeGapModel.normalizedQuery g = "hostel fee?"%string
        /\ KnowledgeGapModel.askCount g = 1%Z).
Proof.
  split.
  - destruct (proj1 (findOrCreate_counts [fee_request] 5 " fee DEADLINE? ")
                open_fee_gap) as (E' & db' & Hcall & Hid & Hcount & _).
    + rewrite fee_ledger_docs. left.
    + reflexivity.
    + reflexivity.
    + exists E', db'. split; [exact Hcall|]. split; [exact Hid | exact Hcount].
  - destruct (proj1 (proj2 (findOrCreate_counts [fee_request] 5 "Hostel fee?")))
      as (g & db' & Hcall & Hquery & Hcount & _).
    + intros d Hd. rewrite fee_ledger_docs in Hd.
      apply list_elem_of_singleton in Hd as ->. discriminate.
    + discriminate.
    + exists g, db'. split; [exact Hcall|]. split; [exact Hquery | exact Hcount].
Defined.
(** ** The KnowledgeGap handlers *)

Section GapHandlers.
Import KnowledgeGapModel KnowledgeGapController.







End GapHandlers.


Definition admin_id : string := "65f1c0a2b3d4e5f60718293a".



(** The ledger after "Fee deadline?" was asked and resolved. *)
Definition resolved_fee_ledger : KnowledgeGapModel.Collection :=
  KnowledgeGapController.run
    [fee_request; KnowledgeGapController.ResolveGap 2 0 (Some "30 June.") admin_id]
    KnowledgeGapModel.empty.

Example resolved_fee_ledger_docs : KnowledgeGapModel.docs resolved_fee_ledger = [resolved_fee_gap].
Proof. reflexivity. Qed.

(** ** The KnowledgeGap statistics *)

Section GapStatistics.
Import KnowledgeGapModel.

Definition withStatus (s : Status) (l : list KnowledgeGap) : list KnowledgeGap :=
  List.filter (fun g => bool_decide (status g = s)) l.

Definition groupOf (s : Status) (groups : list StatusGroup) : option StatusGroup :=
  List.find (fun x => bool_decide (group_id x = s)) groups.

(** One step of the grouping. *)
Definition addToGroups (groups : list StatusGroup) (g : KnowledgeGap) : list StatusGroup :=
  if existsb (fun s => bool_decide (group_id s = status g)) groups
  then map (fun s => if bool_decide (group_id s = status g)
                     then mkStatusGroup (group_id s) (count s + 1) (totalAsks s + askCount g)
                     else s)
           groups
  else groups ++ [mkStatusGroup (status g) 1 (askCount g)].

(** What the groups hold after the documents of [l] were read. *)
Definition grouped (l : list KnowledgeGap) (groups : list StatusGroup) : Prop :=
  NoDup (map group_id groups)
  /\ sumOver count groups = Z.of_nat (length l)
  /\ sumOver totalAsks groups = sumOver askCount l
  /\ forall s,
       match groupOf s groups with
       | Some x => group_id x = s /\ count x = Z.of_nat (length (withStatus s l))
       | None => length (withStatus s l) = 0
       end.

Lemma withStatus_app s l g :
  withStatus s (l ++ [g])
  = withStatus s l ++ (if bool_decide (status g = s) then [g] else []).
Proof. unfold withStatus. by rewrite List.filter_app. Qed.

Lemma groupOf_Some s groups x :
  groupOf s groups = Some x -> x ∈ groups /\ group_id x = s.
Proof.
  intros Hfind. apply find_some in Hfind as [Hin Hid].
  split; [by apply list_elem_of_In | by apply bool_decide_eq_true in Hid].
Qed.

Lemma groupOf_None s groups : groupOf s groups = None -> s ∉ map group_id groups.
Proof.
  intros Hfind Hin. apply list_elem_of_fmap in Hin as (x & -> & Hx).
  pose proof (find_none _ _ Hfind x (proj1 (list_elem_of_In _ _) Hx)) as Hid.
  simpl in Hid. by rewrite bool_decide_eq_true_2 in Hid.
Qed.

Lemma sumOver_bump (w bump : StatusGroup -> Z) (step : StatusGroup -> StatusGroup) s groups x :
  NoDup (map group_id groups) -> x ∈ groups -> group_id x = s ->
  (forall y, w (step y) = (w y + bump y)%Z) ->
  sumOver w (map (fun y => if bool_decide (group_id y = s) then step y else y) groups)
  = (sumOver w groups + bump x)%Z.
Proof.
  intros Hnodup Hx Hid Hstep. induction groups as [|y groups IH]; [by apply elem_of_nil in Hx|].
  rewrite fmap_cons in Hnodup. apply NoDup_cons in Hnodup as [Hy Hnodup].
  cbn [map sumOver fold_right].
  fold (sumOver w (map (fun y => if bool_decide (group_id y = s) then step y else y) groups)).
  fold (sumOver w groups).
  apply elem_of_cons in Hx as [->|Hx].
  - rewrite bool_decide_eq_true_2 by done. rewrite Hstep.
    replace (map (fun y => if bool_decide (group_id y = s) then step y else y) groups)
      with groups; [lia|].
    symmetry. rewrite <- (map_id groups) at 2. apply map_ext_in. intros z Hz.
    rewrite bool_decide_eq_false_2; [done|]. intros Heq. apply Hy.
    rewrite <- Hid in Heq. rewrite <- Heq.
    apply list_elem_of_fmap_2. by apply list_elem_of_In.
  - rewrite bool_decide_eq_false_2.
    + rewrite (IH Hnodup Hx). lia.
    + intros Heq. apply Hy. rewrite Heq, <- Hid. by apply list_elem_of_fmap_2.
Qed.

Lemma groupOf_map s (f : StatusGroup -> StatusGroup) groups :
  (forall y, group_id (f y) = group_id y) ->
  groupOf s (map f groups) = option_map f (groupOf s groups).
Proof.
  intros Hid. unfold groupOf. induction groups as [|y groups IH]; [done|].
  cbn [map List.find]. rewrite Hid. by destruct (bool_decide (group_id y = s)).
Qed.

Lemma groupOf_app s groups x :
  groupOf s (groups ++ [x])
  = match groupOf s groups with
    | Some y => Some y
    | None => if bool_decide (group_id x = s) then Some x else None
    end.
Proof.
  unfold groupOf. induction groups as [|y groups IH]; [done|].
  cbn [app List.find]. by destruct (bool_decide (group_id y = s)).
Qed.

Lemma grouped_step l groups g :
  grouped l groups -> grouped (l ++ [g]) (addToGroups groups g).
Proof.
  intros (Hnodup & Hcount & Hasks & Hgroups). unfold addToGroups.
  destruct (existsb _ groups) eqn:Hknown.
  - apply existsb_exists in Hknown as (x & Hx & Hid).
    apply list_elem_of_In in Hx. apply bool_decide_eq_true in Hid.
    assert (Hids : map group_id
                     (map (fun s => if bool_decide (group_id s = status g)
                                    then mkStatusGroup (group_id s) (count s + 1)
                                                       (totalAsks s + askCount g)
                                    else s) groups)
                   = map group_id groups).
    { rewrite map_map. apply map_ext. intros y. by case_bool_decide. }
    split; [by rewrite Hids|]. split; [|split].
    + rewrite (sumOver_bump count (fun _ => 1%Z) _ _ _ x) by done.
      rewrite length_app, Hcount. simpl. lia.
    + rewrite (sumOver_bump totalAsks (fun _ => askCount g) _ _ _ x) by done.
      rewrite sumOver_app, Hasks. simpl. lia.
    + intros s. specialize (Hgroups s).
      rewrite groupOf_map by (intros y; by case_bool_decide).
      rewrite withStatus_app, length_app.
      destruct (groupOf s groups) as [y|] eqn:Hy; cbn [option_map].
      * destruct Hgroups as [Hys Hc].
        case_bool_decide as Hyg; cbn [group_id count]; (split; [done|]).
        -- rewrite bool_decide_eq_true_2 by congruence. simpl. lia.
        -- rewrite bool_decide_eq_false_2 by congruence. simpl. lia.
      * rewrite bool_decide_eq_false_2; [simpl; lia|].
        intros Hs. apply (groupOf_None _ _ Hy). rewrite <- Hs, <- Hid.
        by apply list_elem_of_fmap_2.
  - assert (Hfresh : status g ∉ map group_id groups).
    { intros Hin. apply list_elem_of_fmap in Hin as (x & Hid & Hx).
      apply not_true_iff_false in Hknown. apply Hknown. apply existsb_exists.
      exists x. split; [by apply list_elem_of_In | by apply bool_decide_eq_true_2]. }
    split; [|split; [|split]].
    + rewrite map_app. apply NoDup_app. split; [done|]. split; [|apply NoDup_singleton].
      intros s Hs Hs'. apply list_elem_of_singleton in Hs'. by subst s.
    + rewrite sumOver_app, length_app, Hcount. simpl. lia.
    + rewrite !sumOver_app, Hasks. simpl. lia.
    + intros s. specialize (Hgroups s). rewrite groupOf_app, withStatus_app, length_app.
      cbn [group_id].
      destruct (groupOf s groups) as [y|] eqn:Hy.
      * destruct Hgroups as [Hys Hc]. split; [done|].
        rewrite bool_decide_eq_false_2; [simpl; lia|].
        intros Hs. apply Hfresh. rewrite Hs, <- Hys.
        apply list_elem_of_fmap_2. by apply (groupOf_Some s).
      * case_bool_decide; simpl; [split; [done | lia] | lia].
Qed.

Lemma grouped_fold l : forall l0 groups,
  grouped l0 groups -> grouped (l0 ++ l) (fold_left addToGroups l groups).
Proof.
  induction l as [|g l IH]; intros l0 groups Hgrouped; [by rewrite app_nil_r|].
  cbn [fold_left]. rewrite (cons_middle g l0 l), app_assoc. by apply IH, grouped_step.
Qed.

Lemma aggregate_grouped db : grouped (docs db) (aggregate db).
Proof.
  apply (grouped_fold (docs db) [] []).
  split; [apply NoDup_nil_2|]. split; [done|]. split; [done|]. by intros s.
Qed.

(** The loop of [getStats] over the groups. *)
Lemma getStats_fold groups : forall result,
  NoDup (map group_id groups) ->
  let result' :=
    fold_left
      (fun result stat =>
         mkGapStats (total result + count stat)
                    (fun key => if bool_decide (key = group_id stat) then count stat
                                else byStatus result key)
                    (total_asks result + totalAsks stat))
      groups result in
  total result' = (total result + sumOver count groups)%Z
  /\ total_asks result' = (total_asks result + sumOver totalAsks groups)%Z
  /\ forall key, byStatus result' key
                 = match groupOf key groups with
                   | Some x => count x
                   | None => byStatus result key
                   end.
Proof.
  induction groups as [|x groups IH]; intros result Hnodup; cbn [fold_left].
  - simpl. split; [lia|]. split; [lia | done].
  - rewrite fmap_cons in Hnodup. apply NoDup_cons in Hnodup as [Hx Hnodup].
    destruct (IH (mkGapStats (total result + count x)
                    (fun key => if bool_decide (key = group_id x) then count x
                                else byStatus result key)
                    (total_asks result + totalAsks x)) Hnodup) as (Htotal & Hasks & Hkeys).
    cbv zeta. rewrite Htotal, Hasks. cbn [total total_asks sumOver fold_right].
    fold (sumOver count groups). fold (sumOver totalAsks groups).
    split; [lia|]. split; [lia|].
    intros key. rewrite Hkeys. unfold groupOf. cbn [List.find byStatus].
    destruct (decide (group_id x = key)) as [<-|Hne].
    + rewrite !bool_decide_eq_true_2 by done.
      fold (groupOf (group_id x) groups).
      destruct (groupOf (group_id x) groups) as [y|] eqn:Hy; [|done].
      exfalso. apply Hx. apply groupOf_Some in Hy as [Hy <-].
      by apply list_elem_of_fmap_2.
    + rewrite (bool_decide_eq_false_2 (group_id x = key)) by done.
      by rewrite (bool_decide_eq_false_2 (key = group_id x)) by congruence.
Qed.

Lemma length_by_status (l : list KnowledgeGap) :
  length l = length (withStatus open l) + length (withStatus under_review l)
             + length (withStatus resolved l).
Proof.
  induction l as [|g l IH]; [done|]. unfold withStatus in *. cbn [List.filter length].
  destruct (status g); simpl; lia.
Qed.

End GapStatistics.

(** X22. The statistics of [getStats], for every collection: [total] is
    the number of gaps, each of the keys [open], [under_review] and
    [resolved] holds the number of gaps of that status, [total_asks] is
    the sum of all ask counts, and [total] is the sum of the three
    keys. *)
Theorem getStats_counts (db : KnowledgeGapModel.Collection) :
  let stats := KnowledgeGapModel.getStats db in
  KnowledgeGapModel.total stats = Z.of_nat (length (KnowledgeGapModel.docs db))
  /\ (forall s, KnowledgeGapModel.byStatus stats s
                = Z.of_nat (length (List.filter
                                      (fun g => bool_decide (KnowledgeGapModel.status g = s))
                                      (KnowledgeGapModel.docs db))))
  /\ KnowledgeGapModel.total_asks stats
     = fold_right (fun g sum => (KnowledgeGapModel.askCount g + sum)%Z) 0%Z
                  (KnowledgeGapModel.docs db)
  /\ KnowledgeGapModel.total stats
     = (KnowledgeGapModel.byStatus stats KnowledgeGapModel.open
        + KnowledgeGapModel.byStatus stats KnowledgeGapModel.under_review
        + KnowledgeGapModel.byStatus stats KnowledgeGapModel.resolved)%Z.
Proof.
  intros stats.
  destruct (aggregate_grouped db) as (Hnodup & Hcount & Hasks & Hgroups).
  destruct (getStats_fold (KnowledgeGapModel.aggregate db)
              (KnowledgeGapModel.mkGapStats 0 (fun _ => 0%Z) 0) Hnodup)
    as (Htotal & Htotal_asks & Hkeys).
  cbv zeta in Htotal, Htotal_asks, Hkeys.
  fold (KnowledgeGapModel.getStats db) in Htotal, Htotal_asks, Hkeys.
  fold stats in Htotal, Htotal_asks, Hkeys.
  assert (Hby : forall s, KnowledgeGapModel.byStatus stats s
                          = Z.of_nat (length (withStatus s (KnowledgeGapModel.docs db)))).
  { intros s. rewrite Hkeys. specialize (Hgroups s).
    destruct (groupOf s (KnowledgeGapModel.aggregate db)) as [x|].
    - by destruct Hgroups.
    - simpl. lia. }
  split; [rewrite Htotal, Hcount; simpl; lia|].
  split; [exact Hby|]. split; [rewrite Htotal_asks, Hasks; apply Z.add_0_l|].
  rewrite Htotal, Hcount, !Hby.
  rewrite (length_by_status (KnowledgeGapModel.docs db)) at 1. simpl. lia.
Qed.

Example getStats_resolved_fee_ledger :
  KnowledgeGapModel.total (KnowledgeGapModel.getStats resolved_fee_ledger) = 1%Z
  /\ KnowledgeGapModel.byStatus (KnowledgeGapModel.getStats resolved_fee_ledger)
       KnowledgeGapModel.resolved = 1%Z
  /\ KnowledgeGapModel.byStatus (KnowledgeGapModel.getStats resolved_fee_ledger)
       KnowledgeGapModel.open = 0%Z.
Proof. repeat split; reflexivity. Qed.
(** ** The vector reducer: buckets *)

Section Buckets.
Import ChatController.

Lemma sumBucket_count vector n : forall start sum count,
  snd (fold_left (fun '(sum, count) j => ((sum + nth j vector nan)%float, S count))
                 (seq start n) (sum, count))
  = count + n.
Proof.
  induction n as [|n IH]; intros start sum count; simpl; [lia|].
  rewrite IH. lia.
Qed.

Lemma exactFloor_step sourceLength i :
  768 <= sourceLength -> i < 768 ->
  (0 <= exactFloor sourceLength i < exactFloor sourceLength (i + 1))%Z
  /\ (exactFloor sourceLength (i + 1) <= Z.of_nat sourceLength)%Z.
Proof.
  intros Hlong Hi. unfold exactFloor, targetLength.
  assert (Hnext : (Z.of_nat i * Z.of_nat sourceLength / Z.of_nat 768 + 1
                   <= Z.of_nat (i + 1) * Z.of_nat sourceLength / Z.of_nat 768)%Z).
  { rewrite <- (Z.div_add _ 1 (Z.of_nat 768)) by lia. apply Z.div_le_mono; lia. }
  split; [split; [apply Z.div_pos; lia | lia]|].
  apply Z.div_le_upper_bound; [lia|]. nia.
Qed.

(** The bounds of the first bucket of a vector shorter than the target. *)
Lemma short_bounds :
  forallb (fun sourceLength =>
             (floorOf sourceLength 0 =? 0)%Z && (floorOf sourceLength 1 =? 0)%Z)
          (seq 0 768) = true.
Proof. vm_compute. reflexivity. Qed.

End Buckets.

(** X23. For a vector at least as long as the result (768) on which the
    binary64 bounds are the exact floors, the buckets tile the vector:
    the first starts at 0, each ends where the next starts, the last ends
    at the length; every bucket holds at least one element and the count
    the mean divides by is the bucket's width, so no index beyond the
    vector is read and no element is read twice. *)
Theorem reduceDimensions_buckets_tile (vector : list float) (i : nat) :
  exactBounds (length vector) = true -> 768 <= length vector -> i < 768 ->
  let start := ChatController.startOf (length vector) i in
  let end_ := ChatController.startOf (length vector) (i + 1) in
  ChatController.startOf (length vector) 0 = 0
  /\ ChatController.startOf (length vector) 768 = length vector
  /\ start < end_ <= length vector
  /\ snd (ChatController.sumBucket vector start end_) = end_ - start.
Proof.
  intros Hexact Hlong Hi start end_. unfold start, end_.
  rewrite !(exactBounds_at _ _ Hexact) by lia.
  destruct (exactFloor_step (length vector) i Hlong Hi) as [[Hpos Hlt] Hle].
  split; [|split; [|split]].
  - unfold exactStart, exactFloor. by rewrite Z.mul_0_l, Z.div_0_l.
  - unfold exactStart, exactFloor, ChatController.targetLength.
    rewrite Z.mul_comm, Z.div_mul by lia. apply Nat2Z.id.
  - unfold exactStart. lia.
  - unfold ChatController.sumBucket. by rewrite sumBucket_count.
Qed.

Lemma reduceDimensions_buckets_tile_witness :
  ChatController.startOf (length (ramp 3072)) 0 = 0
  /\ ChatController.startOf (length (ramp 3072)) 768 = length (ramp 3072)
  /\ ChatController.startOf (length (ramp 3072)) 5
     < ChatController.startOf (length (ramp 3072)) (5 + 1) <= length (ramp 3072)
  /\ snd (ChatController.sumBucket (ramp 3072)
            (ChatController.startOf (length (ramp 3072)) 5)
            (ChatController.startOf (length (ramp 3072)) (5 + 1)))
     = ChatController.startOf (length (ramp 3072)) (5 + 1)
       - ChatController.startOf (length (ramp 3072)) 5.
Proof.
  assert (Hlength : length (ramp 3072) = 3072) by reflexivity.
  apply (reduceDimensions_buckets_tile (ramp 3072) 5).
  - rewrite Hlength. vm_compute. reflexivity.
  - rewrite Hlength. lia.
  - lia.
Defined.

(** X24. A vector shorter than the result cannot fill the first bucket:
    for every vector of fewer than 768 elements the first bucket is empty
    and the first element of the result is 0/0, not a number. *)
Theorem reduceDimensions_short_vector (vector : list float) :
  length vector < 768 ->
  ChatController.startOf (length vector) 0 = 0
  /\ ChatController.startOf (length vector) 1 = 0
  /\ PrimFloat.is_nan (nth 0 (ChatController.reduceDimensions vector) 0%float) = true.
Proof.
  intros Hshort.
  pose proof short_bounds as Hbounds. rewrite forallb_forall in Hbounds.
  specialize (Hbounds (length vector)).
  rewrite in_seq in Hbounds. specialize (Hbounds ltac:(lia)).
  apply andb_true_iff in Hbounds as [H0 H1].
  apply Z.eqb_eq in H0. apply Z.eqb_eq in H1.
  assert (Hs0 : ChatController.startOf (length vector) 0 = 0)
    by (unfold ChatController.startOf; by rewrite H0).
  assert (Hs1 : ChatController.startOf (length vector) 1 = 0)
    by (unfold ChatController.startOf; by rewrite H1).
  split; [done|]. split; [done|].
  unfold ChatController.reduceDimensions, ChatController.targetLength.
  cbn [seq map nth]. cbn [Nat.add]. rewrite Hs0, Hs1. reflexivity.
Qed.

Lemma reduceDimensions_short_vector_witness :
  PrimFloat.is_nan
    (nth 0 (ChatController.reduceDimensions [0.5%float; 0.25%float; 1%float]) 0%float) = true.
Proof.
  apply (reduceDimensions_short_vector [0.5%float; 0.25%float; 1%float]). simpl. lia.
Defined.
(** ** The ledger properties on a concrete ledger *)

Example hostel_ledger_docs : QueryLogModel.docs hostel_ledger = [hostel_entry].
Proof. vm_compute. reflexivity. Qed.

Lemma ledger_counts_witness :
  QueryLogModel.askCount hostel_entry
  = Z.of_nat (length (QueryLogModel.originalQuestions hostel_entry)).
Proof.
  apply (ledger_counts
           [QueryLogController.LogUnanswered (Js.Ok (Some "What is the hostel fee?")) 10
              "hostel fee kitni hai?" (Some "u1")]).
  fold hostel_ledger. rewrite hostel_ledger_docs. left.
Defined.

Lemma ledger_askers_distinct_witness : NoDup (QueryLogModel.askedByUsers hostel_entry).
Proof.
  apply (ledger_askers_distinct
           [QueryLogController.LogUnanswered (Js.Ok (Some "What is the hostel fee?")) 10
              "hostel fee kitni hai?" (Some "u1")]).
  - apply Forall_singleton. reflexivity.
  - fold hostel_ledger. rewrite hostel_ledger_docs. left.
Defined.

Lemma queryLog_resolved_entry_isolated_witness :
  exists entry db3,
    QueryLogController.logUnansweredQuery (Js.Ok (Some "What is the hostel fee?")) 20
      "How much is the hostel fee" None
      (QueryLogController.markQueryAsAnswered 15 (QueryLogModel._id hostel_entry)
         (QueryLogController.run
            [QueryLogController.LogUnanswered (Js.Ok (Some "What is the hostel fee?")) 10
               "hostel fee kitni hai?" (Some "u1")]
            QueryLogModel.empty))
    = Js.Ok (entry, db3)
    /\ QueryLogModel.askCount entry = 1%Z
    /\ QueryLogModel._id entry <> QueryLogModel._id hostel_entry
    /\ QueryLogModel.docs db3
       = QueryLogModel.docs
           (QueryLogController.markQueryAsAnswered 15 (QueryLogModel._id hostel_entry)
              (QueryLogController.run
                 [QueryLogController.LogUnanswered (Js.Ok (Some "What is the hostel fee?")) 10
                    "hostel fee kitni hai?" (Some "u1")]
                 QueryLogModel.empty))
         ++ [entry]
    /\ QueryLogModel.pre_save 15 (QueryLogController.answeredVersion hostel_entry 15)
       ∈ QueryLogModel.docs
           (QueryLogController.markQueryAsAnswered 15 (QueryLogModel._id hostel_entry)
              (QueryLogController.run
                 [QueryLogController.LogUnanswered (Js.Ok (Some "What is the hostel fee?")) 10
                    "hostel fee kitni hai?" (Some "u1")]
                 QueryLogModel.empty)).
Proof.
  apply (queryLog_resolved_entry_isolated
           [QueryLogController.LogUnanswered (Js.Ok (Some "What is the hostel fee?")) 10
              "hostel fee kitni hai?" (Some "u1")]
           hostel_entry 15 (Js.Ok (Some "What is the hostel fee?")) 20
           "How much is the hostel fee" None "What is the hostel fee?").
  - fold hostel_ledger. rewrite hostel_ledger_docs. left.
  - reflexivity.
  - reflexivity.
  - reflexivity.
  - discriminate.
Defined.

Definition answered_hostel_entry : QueryLogModel.QueryLog :=
  QueryLogModel.pre_save 15 (QueryLogController.answeredVersion hostel_entry 15).

Lemma logUnansweredQuery_keeps_answered_witness :
  match QueryLogController.logUnansweredQuery (Js.Ok (Some "What is the hostel fee?")) 20
          "How much is the hostel fee" None
          (QueryLogModel.mkCollection [answered_hostel_entry] 1) with
  | Js.Ok (entry, db') =>
      answered_hostel_entry ∈ QueryLogModel.docs db'
      /\ QueryLogModel._id entry <> QueryLogModel._id answered_hostel_entry
  | Js.Throw _ => False
  end.
Proof.
  destruct (QueryLogController.logUnansweredQuery (Js.Ok (Some "What is the hostel fee?")) 20
              "How much is the hostel fee" None
              (QueryLogModel.mkCollection [answered_hostel_entry] 1))
    as [[entry db']|e] eqn:Hcall; [|vm_compute in Hcall; discriminate].
  assert (Hids : ids_ok (QueryLogModel.mkCollection [answered_hostel_entry] 1)).
  { split; [apply NoDup_singleton | apply Forall_singleton; simpl; lia]. }
  assert (Hin : answered_hostel_entry
                ∈ QueryLogModel.docs (QueryLogModel.mkCollection [answered_hostel_entry] 1))
    by left.
  exact (logUnansweredQuery_keeps_answered _ _ _ _ _ _ _ answered_hostel_entry
           Hids Hin eq_refl Hcall).
Defined.

(** ** The chat controller: a rewrite that returns *)

(** X28. When the completion returns, [transformQuery] returns its
    content and leaves the session with the history it had before the
    call (the raw question is pushed for the prompt and popped again) and
    with its last activity at the time of the return; every other
    session is as it was. *)
Theorem transformQuery_restores_history (response : option string) (now : Z)
    (question sessionId : string) (userSessions : gmap string ChatController.Session) :
  let result :=
    ChatController.transformQuery (Js.Ok response) now question sessionId userSessions in
  result.1 = Js.Ok response
  /\ result.2 !! sessionId
     = Some (ChatController.mkSession (ChatController.historyOf sessionId userSessions) now)
  /\ forall other, other <> sessionId -> result.2 !! other = userSessions !! other.
Proof.
  intros result.
  destruct (transformQuery_Ok response now question sessionId userSessions)
    as (sessions' & Hcall & Hlookup & Hframe).
  unfold result. by rewrite Hcall.
Qed.
